(** * Pyrogram client core: a shallow embedding of [pyrogram/client/client.py]

    The development follows the layout of [Client]: Python primitives the
    methods rely on, the TL objects they exchange with the server, the peer
    directory ([fetch_peers], [send], [resolve_peer]), the update reconciler
    ([updates_worker]), the durable session file ([save_session],
    [load_session]), the transfer engine ([save_file], [get_file],
    [download_worker]) and the client life cycle ([start]).

    Definitions come first; the lemmas and the theorems about them follow. *)

From Stdlib Require Import ZArith Ascii String DecimalString Decimal DecimalZ Strings.Byte Lia.
From Stdlib Require Import ssreflect.
From stdpp Require Import gmap strings list fin_maps.

#[local] Set Warnings "-rewrite-rw,-register-all".

Open Scope Z_scope.

(** ** Python primitives *)

(** The exception classes the client raises or catches. Every one of them
    derives from [Exception]; [StopTransmission] is the dedicated signal of
    [Client.stop_transmission]. *)
Inductive exn : Type :=
| ConnectionError
| ValueError
| KeyError
| IndexError
| AttributeError
| TypeError
| OverflowError
| AssertionError
| OSError
| FileNotFoundError
| InvalidStateError
| PeerIdInvalid
| ChannelPrivate
| VolumeLocNotFound
| FileIdInvalid
| StopTransmission
| RPCError (code : Z).

Definition exn_eqb (a b : exn) : bool :=
  match a, b with
  | ConnectionError, ConnectionError | ValueError, ValueError
  | KeyError, KeyError | IndexError, IndexError
  | AttributeError, AttributeError | TypeError, TypeError
  | OverflowError, OverflowError
  | AssertionError, AssertionError | OSError, OSError
  | FileNotFoundError, FileNotFoundError
  | InvalidStateError, InvalidStateError
  | PeerIdInvalid, PeerIdInvalid | ChannelPrivate, ChannelPrivate
  | VolumeLocNotFound, VolumeLocNotFound | FileIdInvalid, FileIdInvalid
  | StopTransmission, StopTransmission => true
  | RPCError x, RPCError y => x =? y
  | _, _ => false
  end.

(** A call either returns a value or raises. *)
Inductive result (A : Type) : Type :=
| Ok (a : A)
| Raise (e : exn).
Arguments Ok {A} a.
Arguments Raise {A} e.

(** [bytes] objects are lists of bytes; [str] objects are [string]s. *)
Abbreviation bytes := (list byte).

Module Py.

(** [str(z)] for an [int]. *)
Definition str (z : Z) : string := NilZero.string_of_int (Z.to_int z).

(** [int(s)] for a [str]: an optional sign followed by decimal digits;
    anything else is a [ValueError] ([None] here). Surrounding blanks and
    digit-group underscores, which Python also accepts, are not part of
    the strings the client builds and are not modelled. *)
Definition int (s : string) : option Z :=
  match s with
  | String "+" s' =>
      option_map (fun u => Z.of_int (Decimal.Pos u)) (NilZero.uint_of_string s')
  | _ => option_map Z.of_int (NilZero.int_of_string s)
  end.

(** [c.lower()] on the ASCII range. *)
Definition lower_ascii (c : ascii) : ascii :=
  let n := nat_of_ascii c in
  if ((65 <=? n) && (n <=? 90))%nat then ascii_of_nat (n + 32) else c.

(** [s.lower()]. *)
Fixpoint lower (s : string) : string :=
  match s with
  | EmptyString => EmptyString
  | String c s' => String (lower_ascii c) (lower s')
  end.

(** The class [[@+\s]] of [resolve_peer]'s [re.sub]: the at sign, the plus
    sign and the white space of the ASCII range. *)
Definition is_peer_noise (c : ascii) : bool :=
  let n := nat_of_ascii c in
  ((n =? 64) || (n =? 43) || (n =? 32)
   || ((9 <=? n) && (n <=? 13)) || ((28 <=? n) && (n <=? 31)))%nat.

(** [re.sub(r"[@+\s]", "", s)]. *)
Fixpoint strip_peer_noise (s : string) : string :=
  match s with
  | EmptyString => EmptyString
  | String c s' =>
      if is_peer_noise c then strip_peer_noise s'
      else String c (strip_peer_noise s')
  end.

(** [s[n:]]. *)
Fixpoint drop (n : nat) (s : string) : string :=
  match n, s with
  | O, _ => s
  | S _, EmptyString => EmptyString
  | S n', String _ s' => drop n' s'
  end.

(** [s[i:j]] for [0 <= i <= j]. *)
Definition slice (i j : nat) (s : string) : string :=
  substring i (j - i) s.

(** [range(0, stop, step)] for a positive [step]. *)
Definition range_step (stop step : nat) : list nat :=
  map (fun k => (k * step)%nat) (seq 0 (Nat.div (stop + step - 1) step)).

(** [x or y] on an optional integer: [None] and [0] are falsy. *)
Definition or_int (x y : option Z) : option Z :=
  match x with
  | Some v => if v =? 0 then y else x
  | None => y
  end.

End Py.

(** ** TL objects

    The schema classes of [pyrogram.api.types] and [pyrogram.api.functions]
    are generated code outside this file; the client only reads a handful of
    attributes of each, which is what the records below carry. *)

(** The entities of a [users] or [chats] list. [access_hash], [username] and
    [phone] are optional in the schema ([None] when absent);
    [ChannelForbidden] has no [username] attribute. [OtherEntity] stands for
    the constructors no [isinstance] test of [fetch_peers] matches
    ([UserEmpty], [ChatEmpty]). *)
Inductive entity : Type :=
| User (id : Z) (access_hash : option Z)
       (username : option string) (phone : option string)
| Chat (id : Z)
| ChatForbidden (id : Z)
| Channel (id : Z) (access_hash : option Z) (username : option string)
| ChannelForbidden (id : Z) (access_hash : option Z)
| OtherEntity.

(** The addressable references kept in the directory. The constructor
    arguments are the values [fetch_peers] passes, so an access hash is
    whatever the entity carried. *)
Inductive input_peer : Type :=
| InputPeerUser (user_id : Z) (access_hash : option Z)
| InputPeerChat (chat_id : Z)
| InputPeerChannel (channel_id : Z) (access_hash : option Z)
| InputPeerSelf
| InputPeerEmpty.

(** A message as the reconciler sees it: [isinstance(m, MessageEmpty)], its
    [id], and [to_id.channel_id] when [to_id] is a channel peer. *)
Record message : Type := {
  msg_empty : bool;
  msg_id : Z;
  msg_to_channel_id : option Z
}.

Inductive update_class : Type :=
| UpdateNewChannelMessage
| UpdateChannelTooLong
| UpdateNewMessage
| UpdateOther (constructor_id : Z).

(** An update, read through [getattr(update, name, None)]. *)
Record update : Type := {
  upd_class : update_class;
  upd_message : option message;
  upd_channel_id : option Z;
  upd_pts : option Z;
  upd_pts_count : option Z
}.

(** The push envelopes of the updates queue. [Updates] is the class the
    source spells [types.Update]. *)
Inductive envelope : Type :=
| Updates (updates : list update) (users chats : list entity)
| UpdatesCombined (updates : list update) (users chats : list entity)
| UpdateShortMessage (pts pts_count date : Z)
| UpdateShortChatMessage (pts pts_count date : Z)
| UpdateShort (upd : update)
| UpdatesTooLong
| OtherEnvelope.

(** The requests the modelled methods issue. *)
Inductive request : Type :=
| GetUsers (id : list (Z * Z))
| GetChannels (id : list (Z * Z))
| GetChats (id : list Z)
| ResolveUsername (username : string)
| GetChannelDifference (channel : input_peer) (min_id max_id : Z) (pts limit : Z)
| GetDifference (pts date qts : Z)
| InvokeWithoutUpdates (query : request)
| InvokeWithTakeout (takeout_id : Z) (query : request).

(** A response, read by attribute: [users] and [chats] (both through
    [getattr(r, name, [])] in [send]), the elements when the response is a
    vector, [new_messages] and [other_updates] of a difference, and whether
    it is an [updates.ChannelDifferenceEmpty]. *)
Record response : Type := {
  r_users : option (list entity);
  r_chats : option (list entity);
  r_items : option (list entity);
  r_new_messages : option (list message);
  r_other_updates : option (list update);
  r_is_channel_difference_empty : bool
}.

(** What the dispatcher receives: [(update, users, chats)]. *)
Definition dispatched : Type := update * list entity * list entity.

(** ** The client state

    The attributes of [Client] that [fetch_peers], [send], [resolve_peer] and
    [updates_worker] read and write. [requests] records what was handed to
    [session.send], oldest first; [updates_queue] is
    [dispatcher.updates_queue], oldest first; [errors] is what [log.error]
    received. *)
Record client : Type := {
  peers_by_id : gmap Z input_peer;
  peers_by_username : gmap string input_peer;
  peers_by_phone : gmap string input_peer;
  channels_pts : gmap Z (list Z);
  is_started : bool;
  no_updates : option bool;
  takeout_id : option Z;
  requests : list request;
  updates_queue : list dispatched;
  errors : list exn
}.

Definition set_peers_by_id (m : gmap Z input_peer) (c : client) : client :=
  {| peers_by_id := m; peers_by_username := peers_by_username c;
     peers_by_phone := peers_by_phone c; channels_pts := channels_pts c;
     is_started := is_started c; no_updates := no_updates c;
     takeout_id := takeout_id c; requests := requests c;
     updates_queue := updates_queue c; errors := errors c |}.

Definition set_peers_by_username (m : gmap string input_peer) (c : client) : client :=
  {| peers_by_id := peers_by_id c; peers_by_username := m;
     peers_by_phone := peers_by_phone c; channels_pts := channels_pts c;
     is_started := is_started c; no_updates := no_updates c;
     takeout_id := takeout_id c; requests := requests c;
     updates_queue := updates_queue c; errors := errors c |}.

Definition set_peers_by_phone (m : gmap string input_peer) (c : client) : client :=
  {| peers_by_id := peers_by_id c; peers_by_username := peers_by_username c;
     peers_by_phone := m; channels_pts := channels_pts c;
     is_started := is_started c; no_updates := no_updates c;
     takeout_id := takeout_id c; requests := requests c;
     updates_queue := updates_queue c; errors := errors c |}.

Definition set_channels_pts (m : gmap Z (list Z)) (c : client) : client :=
  {| peers_by_id := peers_by_id c; peers_by_username := peers_by_username c;
     peers_by_phone := peers_by_phone c; channels_pts := m;
     is_started := is_started c; no_updates := no_updates c;
     takeout_id := takeout_id c; requests := requests c;
     updates_queue := updates_queue c; errors := errors c |}.

Definition set_requests (l : list request) (c : client) : client :=
  {| peers_by_id := peers_by_id c; peers_by_username := peers_by_username c;
     peers_by_phone := peers_by_phone c; channels_pts := channels_pts c;
     is_started := is_started c; no_updates := no_updates c;
     takeout_id := takeout_id c; requests := l;
     updates_queue := updates_queue c; errors := errors c |}.

Definition set_updates_queue (l : list dispatched) (c : client) : client :=
  {| peers_by_id := peers_by_id c; peers_by_username := peers_by_username c;
     peers_by_phone := peers_by_phone c; channels_pts := channels_pts c;
     is_started := is_started c; no_updates := no_updates c;
     takeout_id := takeout_id c; requests := requests c;
     updates_queue := l; errors := errors c |}.

Definition set_errors (l : list exn) (c : client) : client :=
  {| peers_by_id := peers_by_id c; peers_by_username := peers_by_username c;
     peers_by_phone := peers_by_phone c; channels_pts := channels_pts c;
     is_started := is_started c; no_updates := no_updates c;
     takeout_id := takeout_id c; requests := requests c;
     updates_queue := updates_queue c; errors := l |}.

(** A freshly constructed client ([BaseClient.__init__]): empty maps and
    queues, not started. *)
Definition new_client : client :=
  {| peers_by_id := ∅; peers_by_username := ∅; peers_by_phone := ∅;
     channels_pts := ∅; is_started := false; no_updates := None;
     takeout_id := None; requests := []; updates_queue := []; errors := [] |}.

(** Methods thread the client and may raise: the state at the raise is kept,
    since the dictionaries are mutated in place. *)
Definition M (A : Type) : Type := client -> client * result A.

Definition ret {A} (a : A) : M A := fun c => (c, Ok a).

Definition raise {A} (e : exn) : M A := fun c => (c, Raise e).

Definition bind {A B} (m : M A) (k : A -> M B) : M B :=
  fun c =>
    match m c with
    | (c', Ok a) => k a c'
    | (c', Raise e) => (c', Raise e)
    end.

Notation "'let*' x ':=' m 'in' k" := (bind m (fun x => k))
  (at level 10, x name, m at level 100, k at level 200).
Notation "'let*' ' p ':=' m 'in' k" := (bind m (fun x => match x with p => k end))
  (at level 10, p pattern, m at level 100, k at level 200).
Notation "m ';;' k" := (bind m (fun _ => k))
  (at level 100, k at level 200, right associativity).

(** [try: m except E: handler] for the exceptions [catches] selects. *)
Definition try_except {A} (m : M A) (catches : exn -> bool) (handler : exn -> M A) : M A :=
  fun c =>
    match m c with
    | (c', Ok a) => (c', Ok a)
    | (c', Raise e) => if catches e then handler e c' else (c', Raise e)
    end.

Definition get {A} (f : client -> A) : M A := fun c => (c, Ok (f c)).

Definition modify (f : client -> client) : M unit := fun c => (f c, Ok tt).

(** [obj.name] for an attribute that may be missing. *)
Definition attr {A} (o : option A) : M A :=
  match o with
  | Some a => ret a
  | None => raise AttributeError
  end.

(** ** The peer directory *)

(** [int("-100" + str(channel_id))]. *)
Definition channel_peer_id (channel_id : Z) : result Z :=
  match Py.int ("-100" +:+ Py.str channel_id) with
  | Some peer_id => Ok peer_id
  | None => Raise ValueError
  end.

(** The body of [fetch_peers]'s loop for one entity. A [continue] leaves the
    client as it is. *)
Definition fetch_peer (entity : entity) : M unit :=
  match entity with
  | User user_id access_hash username phone =>
      match access_hash with
      | None => ret tt
      | Some _ =>
          let input_peer := InputPeerUser user_id access_hash in
          modify (fun c => set_peers_by_id (<[user_id := input_peer]> (peers_by_id c)) c);;
          match username with
          | Some name =>
              modify (fun c => set_peers_by_username
                                 (<[Py.lower name := input_peer]> (peers_by_username c)) c)
          | None => ret tt
          end;;
          match phone with
          | Some number =>
              modify (fun c => set_peers_by_phone
                                 (<[number := input_peer]> (peers_by_phone c)) c)
          | None => ret tt
          end
      end
  | Chat chat_id | ChatForbidden chat_id =>
      let peer_id := - chat_id in
      let input_peer := InputPeerChat chat_id in
      modify (fun c => set_peers_by_id (<[peer_id := input_peer]> (peers_by_id c)) c)
  | Channel channel_id access_hash _ | ChannelForbidden channel_id access_hash =>
      match channel_peer_id channel_id with
      | Raise e => raise e
      | Ok peer_id =>
          match access_hash with
          | None => ret tt
          | Some _ =>
              let username :=
                match entity with Channel _ _ name => name | _ => None end in
              let input_peer := InputPeerChannel channel_id access_hash in
              modify (fun c => set_peers_by_id (<[peer_id := input_peer]> (peers_by_id c)) c);;
              match username with
              | Some name =>
                  modify (fun c => set_peers_by_username
                                     (<[Py.lower name := input_peer]> (peers_by_username c)) c)
              | None => ret tt
              end
          end
      end
  | OtherEntity => ret tt
  end.

(** [Client.fetch_peers]. *)
Fixpoint fetch_peers (entities : list entity) : M unit :=
  match entities with
  | [] => ret tt
  | entity :: rest => fetch_peer entity;; fetch_peers rest
  end.

(** What [resolve_peer] accepts: an [int] or a [str]. *)
Inductive peer_id : Type :=
| PeerInt (id : Z)
| PeerStr (name : string).

Section Network.

(** The transport session, outside this file: what [session.send] answers
    to a request, given the requests it received before. *)
Variable session_send : list request -> request -> result response.

(** The query [send] hands to the session: wrapped in
    [InvokeWithoutUpdates] when [no_updates] is set, then in
    [InvokeWithTakeout] when a takeout is open. *)
Definition wrap_query (c : client) (data : request) : request :=
  let data :=
    match no_updates c with
    | Some true => InvokeWithoutUpdates data
    | _ => data
    end in
  match takeout_id c with
  | Some id => if id =? 0 then data else InvokeWithTakeout id data
  | None => data
  end.

(** [Client.send]. *)
Definition send (data : request) : M response :=
  let* started := get is_started in
  if negb started then raise ConnectionError
  else
    let* data := get (fun c => wrap_query c data) in
    let* history := get requests in
    modify (set_requests (history ++ [data]));;
    match session_send history data with
    | Raise e => raise e
    | Ok r =>
        fetch_peers (default [] (r_users r));;
        fetch_peers (default [] (r_chats r));;
        ret r
    end.

(** [Client.resolve_peer]. *)
Definition resolve_peer (peer : peer_id) : M input_peer :=
  let* by_id := get peers_by_id in
  let cached :=
    match peer with
    | PeerInt id => by_id !! id
    | PeerStr _ => None
    end in
  match cached with
  | Some input_peer => ret input_peer
  | None =>
      match peer with
      | PeerStr name =>
          if bool_decide (name = "self"%string) || bool_decide (name = "me"%string)
          then ret InputPeerSelf
          else
            let name := Py.strip_peer_noise (Py.lower name) in
            match Py.int name with
            | None =>
                let* by_username := get peers_by_username in
                match by_username !! name with
                | None => let* _ := send (ResolveUsername name) in ret tt
                | Some _ => ret tt
                end;;
                let* by_username := get peers_by_username in
                match by_username !! name with
                | Some input_peer => ret input_peer
                | None => raise KeyError
                end
            | Some _ =>
                let* by_phone := get peers_by_phone in
                match by_phone !! name with
                | Some input_peer => ret input_peer
                | None => raise PeerIdInvalid
                end
            end
      | PeerInt id =>
          (if 0 <? id then
             let* r := send (GetUsers [(id, 0)]) in
             match r_items r with
             | Some users => fetch_peers users
             | None => raise TypeError
             end
           else if String.prefix "-100" (Py.str id) then
             match Py.int (Py.drop 4 (Py.str id)) with
             | Some channel_id =>
                 let* _ := send (GetChannels [(channel_id, 0)]) in ret tt
             | None => raise ValueError
             end
           else
             let* _ := send (GetChats [- id]) in ret tt);;
          let* by_id := get peers_by_id in
          match by_id !! id with
          | Some input_peer => ret input_peer
          | None => raise PeerIdInvalid
          end
      end
  end.

End Network.

(** ** The update reconciler *)

Section Reconciler.

Variable session_send : list request -> request -> result response.

(** [getattr(getattr(getattr(update, "message", None), "to_id", None),
    "channel_id", None) or getattr(update, "channel_id", None)]. *)
Definition update_channel_id (u : update) : option Z :=
  Py.or_int
    (match upd_message u with
     | Some m => msg_to_channel_id m
     | None => None
     end)
    (upd_channel_id u).

(** [int("-100" + str(channel_id))] where [channel_id] may be [None]:
    [str(None)] is ["None"], which [int] refuses. *)
Definition remapped_channel (channel_id : option Z) : M Z :=
  match channel_id with
  | None => raise ValueError
  | Some id =>
      match channel_peer_id id with
      | Ok peer => ret peer
      | Raise e => raise e
      end
  end.

(** [pts - pts_count], a [TypeError] when either is [None]. *)
Definition pts_before (pts pts_count : option Z) : M Z :=
  match pts, pts_count with
  | Some p, Some n => ret (p - n)
  | _, _ => raise TypeError
  end.

(** The defensive re-fetch for an [UpdateNewChannelMessage] whose message
    is not empty; it returns [updates.users] and [updates.chats] as they
    are afterwards. *)
Definition refetch_channel_difference (u : update) (channel_id pts pts_count : option Z)
    (users chats : list entity) : M (list entity * list entity) :=
  let* message := attr (upd_message u) in
  if msg_empty message then ret (users, chats)
  else
    let* diff :=
      try_except
        (let* peer := remapped_channel channel_id in
         let* channel := resolve_peer session_send (PeerInt peer) in
         let* before := pts_before pts pts_count in
         let* limit := (match pts with Some p => ret p | None => raise TypeError end) in
         let* r := send session_send
                     (GetChannelDifference channel (msg_id message) (msg_id message)
                        before limit) in
         ret (Some r))
        (fun e => exn_eqb e ChannelPrivate)
        (fun _ => ret None) in
    match diff with
    | None => ret (users, chats)
    | Some diff =>
        if r_is_channel_difference_empty diff then ret (users, chats)
        else
          let* more_users := attr (r_users diff) in
          let users := users ++ more_users in
          let* more_chats := attr (r_chats diff) in
          ret (users, chats ++ more_chats)
    end.

(** The sequence tracker: [None] when this [pts] was already recorded for
    the channel (the update is skipped), else the history to store. *)
Definition track_pts (history : list Z) (pts : Z) : option (list Z) :=
  if bool_decide (pts ∈ history) then None
  else
    let history := history ++ [pts] in
    Some (if (50 <? length history)%nat then drop 25 history else history).

(** The body of the loop over [updates.updates]. *)
Definition handle_update (u : update) (users chats : list entity)
    : M (list entity * list entity) :=
  let channel_id := update_channel_id u in
  let pts := upd_pts u in
  let pts_count := upd_pts_count u in
  let* '(users, chats) :=
    match upd_class u with
    | UpdateNewChannelMessage =>
        refetch_channel_difference u channel_id pts pts_count users chats
    | _ => ret (users, chats)
    end in
  let* deliver :=
    match channel_id, pts with
    | Some cid, Some p =>
        if negb (cid =? 0) && negb (p =? 0) then
          let* table := get channels_pts in
          let history := default [] (table !! cid) in
          match track_pts history p with
          | None =>
              modify (set_channels_pts (<[cid := history]> table));;
              ret false
          | Some history' =>
              modify (set_channels_pts (<[cid := history']> table));;
              ret true
          end
        else ret true
    | _, _ => ret true
    end in
  (if deliver : bool then
     let* queue := get updates_queue in
     modify (set_updates_queue (queue ++ [(u, users, chats)]))
   else ret tt);;
  ret (users, chats).

Fixpoint handle_updates (us : list update) (users chats : list entity) : M unit :=
  match us with
  | [] => ret tt
  | u :: rest =>
      let* '(users, chats) := handle_update u users chats in
      handle_updates rest users chats
  end.

Definition put_update (item : dispatched) : M unit :=
  let* queue := get updates_queue in
  modify (set_updates_queue (queue ++ [item])).

(** The [try] block of [updates_worker] for one envelope. *)
Definition handle_envelope (e : envelope) : M unit :=
  match e with
  | Updates us users chats | UpdatesCombined us users chats =>
      fetch_peers users;;
      fetch_peers chats;;
      handle_updates us users chats
  | UpdateShortMessage pts pts_count date
  | UpdateShortChatMessage pts pts_count date =>
      let* diff := send session_send (GetDifference (pts - pts_count) date (-1)) in
      let* new_messages := attr (r_new_messages diff) in
      match new_messages with
      | first :: _ =>
          let u := {| upd_class := UpdateNewMessage; upd_message := Some first;
                      upd_channel_id := None; upd_pts := Some pts;
                      upd_pts_count := Some pts_count |} in
          let* users := attr (r_users diff) in
          let* chats := attr (r_chats diff) in
          put_update (u, users, chats)
      | [] =>
          let* other_updates := attr (r_other_updates diff) in
          match other_updates with
          | first :: _ => put_update (first, [], [])
          | [] => raise IndexError
          end
      end
  | UpdateShort u => put_update (u, [], [])
  | UpdatesTooLong => ret tt
  | OtherEnvelope => ret tt
  end.

(** One turn of the worker's loop: the envelope is handled and whatever it
    raises is logged. *)
Definition updates_worker_step (e : envelope) (c : client) : client :=
  match handle_envelope e c with
  | (c', Ok _) => c'
  | (c', Raise x) => set_errors (errors c' ++ [x]) c'
  end.

(** [Client.updates_worker] run on what [updates_queue] holds: it stops at
    the [None] sentinel ([true]) or keeps waiting on the emptied queue
    ([false]). *)
Fixpoint updates_worker (queue : list (option envelope)) (c : client) : client * bool :=
  match queue with
  | [] => (c, false)
  | None :: _ => (c, true)
  | Some e :: rest => updates_worker rest (updates_worker_step e c)
  end.

End Reconciler.

(** ** Base64, as the [base64] module of the standard library

    [b64encode] is the RFC 4648 encoder with padding. [b64decode] follows
    [binascii.a2b_base64] in its default, non-strict mode: characters
    outside the alphabet are skipped, a complete run of padding ends the
    decoding, and data that stops in the middle of a group is an error
    ([binascii.Error], a [ValueError]). *)
Module Base64.

Definition alphabet : list ascii :=
  list_ascii_of_string
    "ABCDEFGHIJKLMNOPQRSTUVWXYZabcdefghijklmnopqrstuvwxyz0123456789+/".

Definition pad : ascii := "="%char.

(** The character of a six-bit value. *)
Definition char_of_sextet (v : N) : ascii :=
  nth (N.to_nat v) alphabet pad.

Fixpoint index_of (c : ascii) (l : list ascii) (i : N) : option N :=
  match l with
  | [] => None
  | x :: l' => if Ascii.eqb c x then Some i else index_of c l' (N.succ i)
  end.

(** The six-bit value of a character of the alphabet. *)
Definition sextet_of_char (c : ascii) : option N := index_of c alphabet 0%N.

Definition byte_of_N (n : N) : byte :=
  match Byte.of_N (n mod 256)%N with
  | Some b => b
  | None => x00
  end.

Definition encode3 (a b c : N) (rest : string) : string :=
  String (char_of_sextet (a / 4)%N)
    (String (char_of_sextet ((a mod 4) * 16 + b / 16)%N)
       (String (char_of_sextet ((b mod 16) * 4 + c / 64)%N)
          (String (char_of_sextet (c mod 64)%N) rest))).

Definition encode2 (a b : N) : string :=
  String (char_of_sextet (a / 4)%N)
    (String (char_of_sextet ((a mod 4) * 16 + b / 16)%N)
       (String (char_of_sextet ((b mod 16) * 4)%N)
          (String pad EmptyString))).

Definition encode1 (a : N) : string :=
  String (char_of_sextet (a / 4)%N)
    (String (char_of_sextet ((a mod 4) * 16)%N)
       (String pad (String pad EmptyString))).

(** [base64.b64encode(data).decode()]. *)
Fixpoint b64encode (data : bytes) : string :=
  match data with
  | [] => EmptyString
  | [a] => encode1 (Byte.to_N a)
  | [a; b] => encode2 (Byte.to_N a) (Byte.to_N b)
  | a :: b :: c :: rest =>
      encode3 (Byte.to_N a) (Byte.to_N b) (Byte.to_N c) (b64encode rest)
  end.

(** The decoding loop: [quad_pos] is the position in the current group of
    four, [leftchar] the bits carried over, [pads] the padding characters
    seen in a row, [out] the bytes produced. *)
Fixpoint decode_loop (s : string) (quad_pos : nat) (leftchar : N) (pads : nat)
    (out : bytes) : option bytes :=
  match s with
  | EmptyString => if (quad_pos =? 0)%nat then Some out else None
  | String c s' =>
      if Ascii.eqb c pad then
        if (2 <=? quad_pos)%nat then
          if (4 <=? quad_pos + S pads)%nat then Some out
          else decode_loop s' quad_pos leftchar (S pads) out
        else decode_loop s' quad_pos leftchar pads out
      else
        match sextet_of_char c with
        | None => decode_loop s' quad_pos leftchar pads out
        | Some v =>
            match quad_pos with
            | 0%nat => decode_loop s' 1 v 0 out
            | 1%nat =>
                decode_loop s' 2 (N.land v 15) 0
                  (out ++ [byte_of_N (N.lor (N.shiftl leftchar 2) (N.shiftr v 4))])
            | 2%nat =>
                decode_loop s' 3 (N.land v 3) 0
                  (out ++ [byte_of_N (N.lor (N.shiftl leftchar 4) (N.shiftr v 2))])
            | _ =>
                decode_loop s' 0 0 0
                  (out ++ [byte_of_N (N.lor (N.shiftl leftchar 6) v)])
            end
        end
  end.

(** [base64.b64decode(s)]; [None] stands for [binascii.Error]. *)
Definition b64decode (s : string) : option bytes := decode_loop s 0 0 0 [].

End Base64.

(** [[s[i: i + width] for i in range(0, len(s), width)]]. *)
Definition wrap (width : nat) (s : string) : list string :=
  map (fun i => Py.slice i (i + width) s) (Py.range_step (String.length s) width).

(** ["".join(parts)]. *)
Definition join (parts : list string) : string := String.concat "" parts.

(** ** The durable session file

    Python values that travel through [json.dump] and [json.load] are
    modelled by the JSON value itself: dumping then loading is the identity
    on [None], booleans, integers, strings, lists and dictionaries with
    string keys, which is all the session file holds. A dictionary is the
    list of its items, keys distinct. *)
Inductive json : Type :=
| JNull
| JBool (b : bool)
| JInt (z : Z)
| JStr (s : string)
| JList (items : list json)
| JDict (items : list (string * json)).

(** [d.get(key)]. *)
Fixpoint dict_get (key : string) (items : list (string * json)) : option json :=
  match items with
  | [] => None
  | (k, v) :: rest => if String.eqb k key then Some v else dict_get key rest
  end.

(** The attributes of [Client] the session file is made of and loaded into,
    with the peer directory [load_session] fills. The five plain attributes
    hold whatever value was assigned to them. *)
Record session : Type := {
  workdir : string;
  session_name : string;
  dc_id : json;
  test_mode : json;
  auth_key : bytes;
  user_id : json;
  date : json;
  is_bot : json;
  stored_by_id : gmap Z input_peer;
  stored_by_username : gmap string input_peer;
  stored_by_phone : gmap string input_peer
}.

(** The session files of the disk, by path, each with the value it holds. *)
Definition disk : Type := gmap string json.

(** [os.path.join(workdir, "{}.session".format(session_name))] for a
    relative session name, on a POSIX path. *)
Definition session_path (s : session) : string :=
  (workdir s +:+ "/" +:+ session_name s +:+ ".session")%string.

(** The dictionary [save_session] dumps. *)
Definition session_record (s : session) : json :=
  let auth_key := Base64.b64encode (auth_key s) in
  let auth_key := wrap 43 auth_key in
  JDict [("dc_id"%string, dc_id s);
         ("test_mode"%string, test_mode s);
         ("auth_key"%string, JList (map JStr auth_key));
         ("user_id"%string, user_id s);
         ("date"%string, date s);
         ("is_bot"%string, is_bot s)].

(** [Client.save_session]: the record replaces the content of the session
    file. *)
Definition save_session (s : session) (files : disk) : disk :=
  <[session_path s := session_record s]> files.

(** ["".join(items)] for the items of a loaded list: strings, else a
    [TypeError]. *)
Fixpoint join_items (items : list json) : result string :=
  match items with
  | [] => Ok EmptyString
  | JStr part :: rest =>
      match join_items rest with
      | Ok tail => Ok (part +:+ tail)%string
      | Raise e => Raise e
      end
  | _ :: _ => Raise TypeError
  end.

(** ["".join(v)] for a loaded value: a list is joined, a string is the
    concatenation of its own characters, a dictionary that of its keys;
    nothing else can be iterated. *)
Definition join_json (v : json) : result string :=
  match v with
  | JList items => join_items items
  | JStr text => Ok text
  | JDict items => Ok (String.concat "" (map fst items))
  | JNull | JBool _ | JInt _ => Raise TypeError
  end.

(** [d.get(v, None)] on a dictionary keyed by integers, for a loaded value
    [v]: booleans are the integers 0 and 1, lists and dictionaries cannot be
    hashed. *)
Definition get_by_value {A} (m : gmap Z A) (v : json) : result (option A) :=
  match v with
  | JInt z => Ok (m !! z)
  | JBool b => Ok (m !! (if b then 1 else 0))
  | JNull | JStr _ => Ok None
  | JList _ | JDict _ => Raise TypeError
  end.

(** [s.get(key, {}).items()]. *)
Definition items_of (key : string) (record : list (string * json))
    : result (list (string * json)) :=
  match dict_get key record with
  | None => Ok []
  | Some (JDict items) => Ok items
  | Some _ => Raise AttributeError
  end.

Section SessionFile.

(** [utils.get_input_peer], outside this file. *)
Variable get_input_peer : Z -> json -> result input_peer.

(** [Auth(dc_id, test_mode, ipv6, proxy).create()], outside this file: the
    key a negotiation with the given data center yields. *)
Variable create_auth_key : Z -> result bytes.

Definition with_keys (dc : json) (key : bytes) (day : json) (s : session) : session :=
  {| workdir := workdir s; session_name := session_name s;
     dc_id := dc; test_mode := test_mode s; auth_key := key;
     user_id := user_id s; date := day; is_bot := is_bot s;
     stored_by_id := stored_by_id s;
     stored_by_username := stored_by_username s;
     stored_by_phone := stored_by_phone s |}.

Definition with_directory (by_id : gmap Z input_peer)
    (by_username by_phone : gmap string input_peer) (s : session) : session :=
  {| workdir := workdir s; session_name := session_name s;
     dc_id := dc_id s; test_mode := test_mode s; auth_key := auth_key s;
     user_id := user_id s; date := date s; is_bot := is_bot s;
     stored_by_id := by_id; stored_by_username := by_username;
     stored_by_phone := by_phone |}.

(** The loop over [s.get("peers_by_id", {}).items()]. *)
Fixpoint load_peers_by_id (items : list (string * json)) (s : session)
    : session * result unit :=
  match items with
  | [] => (s, Ok tt)
  | (k, v) :: rest =>
      match Py.int k with
      | None => (s, Raise ValueError)
      | Some id =>
          match get_input_peer id v with
          | Raise e => (s, Raise e)
          | Ok peer =>
              load_peers_by_id rest
                (with_directory (<[id := peer]> (stored_by_id s))
                   (stored_by_username s) (stored_by_phone s) s)
          end
      end
  end.

(** The loops over the items of [peers_by_username] and [peers_by_phone]:
    [store] writes the map at hand. *)
Fixpoint load_secondary (store : string -> input_peer -> session -> session)
    (items : list (string * json)) (s : session) : session * result unit :=
  match items with
  | [] => (s, Ok tt)
  | (k, v) :: rest =>
      match get_by_value (stored_by_id s) v with
      | Raise e => (s, Raise e)
      | Ok None => load_secondary store rest s
      | Ok (Some peer) => load_secondary store rest (store k peer s)
      end
  end.

Definition store_username (k : string) (peer : input_peer) (s : session) : session :=
  with_directory (stored_by_id s) (<[k := peer]> (stored_by_username s))
    (stored_by_phone s) s.

Definition store_phone (k : string) (peer : input_peer) (s : session) : session :=
  with_directory (stored_by_id s) (stored_by_username s)
    (<[k := peer]> (stored_by_phone s)) s.

(** The body of [Client.load_session]. The attributes are assigned one
    after the other, so those assigned before an exception keep their new
    value. *)
Definition load_session (files : disk) (s : session) : session * result unit :=
  match files !! session_path s with
  | None =>
      match create_auth_key 1 with
      | Ok key => (with_keys (JInt 1) key (JInt 0) s, Ok tt)
      | Raise e => (with_keys (JInt 1) (auth_key s) (JInt 0) s, Raise e)
      end
  | Some (JDict record) =>
      match dict_get "dc_id" record with
      | None => (s, Raise KeyError)
      | Some dc =>
          let s := with_keys dc (auth_key s) (date s) s in
          match dict_get "test_mode" record with
          | None => (s, Raise KeyError)
          | Some mode =>
              let s :=
                {| workdir := workdir s; session_name := session_name s;
                   dc_id := dc_id s; test_mode := mode; auth_key := auth_key s;
                   user_id := user_id s; date := date s; is_bot := is_bot s;
                   stored_by_id := stored_by_id s;
                   stored_by_username := stored_by_username s;
                   stored_by_phone := stored_by_phone s |} in
              match dict_get "auth_key" record with
              | None => (s, Raise KeyError)
              | Some parts =>
                  match join_json parts with
                  | Raise e => (s, Raise e)
                  | Ok text =>
                      match Base64.b64decode text with
                      | None => (s, Raise ValueError)
                      | Some key =>
                          let s := with_keys (dc_id s) key (date s) s in
                          match dict_get "user_id" record with
                          | None => (s, Raise KeyError)
                          | Some uid =>
                              let s :=
                                {| workdir := workdir s; session_name := session_name s;
                                   dc_id := dc_id s; test_mode := test_mode s;
                                   auth_key := auth_key s; user_id := uid;
                                   date := default (JInt 0) (dict_get "date" record);
                                   is_bot := default (is_bot s) (dict_get "is_bot" record);
                                   stored_by_id := stored_by_id s;
                                   stored_by_username := stored_by_username s;
                                   stored_by_phone := stored_by_phone s |} in
                              match items_of "peers_by_id" record with
                              | Raise e => (s, Raise e)
                              | Ok ids =>
                                  match load_peers_by_id ids s with
                                  | (s, Raise e) => (s, Raise e)
                                  | (s, Ok _) =>
                                      match items_of "peers_by_username" record with
                                      | Raise e => (s, Raise e)
                                      | Ok names =>
                                          match load_secondary store_username names s with
                                          | (s, Raise e) => (s, Raise e)
                                          | (s, Ok _) =>
                                              match items_of "peers_by_phone" record with
                                              | Raise e => (s, Raise e)
                                              | Ok phones =>
                                                  load_secondary store_phone phones s
                                              end
                                          end
                                      end
                                  end
                              end
                          end
                      end
                  end
              end
          end
      end
  | Some _ => (s, Raise TypeError)
  end.

End SessionFile.

(** ** The transfer engine: downloads *)

#[local] Instance byte_eq_dec : EqDecision byte := Byte.byte_eq_dec.

(** How a coroutine ends: it returns, it raises, or it is left waiting for
    an answer that never comes. *)
Inductive outcome (A : Type) : Type :=
| Returned (a : A)
| Raised (e : exn)
| Pending.
Arguments Returned {A} a.
Arguments Raised {A} e.
Arguments Pending {A}.

(** How one turn of a [while True] loop ends, and how the loop ends. *)
Inductive step_result (S : Type) : Type :=
| Continue (s : S)
| Break (s : S)
| Fail (e : exn) (s : S).
Arguments Continue {S} s.
Arguments Break {S} s.
Arguments Fail {S} e s.

Inductive loop_end : Type :=
| Done
| Failed (e : exn)
| Waiting.

(** A [while True] loop whose every turn consumes one answer of the
    environment: when the answers run out the loop is left waiting. *)
Fixpoint iterate {T S : Type} (step : T -> S -> step_result S) (turns : list T) (s : S)
    : S * loop_end :=
  match turns with
  | [] => (s, Waiting)
  | turn :: rest =>
      match step turn s with
      | Continue s' => iterate step rest s'
      | Break s' => (s', Done)
      | Fail e s' => (s', Failed e)
      end
  end.

(** The state a loop reaches when every one of the given turns goes on to
    the next. *)
Fixpoint advance {T S : Type} (step : T -> S -> step_result S) (turns : list T) (s : S)
    : option S :=
  match turns with
  | [] => Some s
  | turn :: rest =>
      match step turn s with
      | Continue s' => advance step rest s'
      | _ => None
      end
  end.

(** The answers of [upload.GetFile] and [upload.GetCdnFile]. *)
Inductive file_answer : Type :=
| UploadFile (data : bytes)
| FileCdnRedirect (dc : Z) (file_token encryption_key encryption_iv : bytes)
| OtherFile.

Inductive cdn_answer : Type :=
| CdnFile (data : bytes)
| CdnFileReuploadNeeded (request_token : bytes).

(** A [FileHash]: the length of the part it covers and the expected digest.
    The length is a count of bytes, never negative. *)
Record file_hash : Type := {
  fh_limit : nat;
  fh_hash : bytes
}.

(** What the servers answer during one turn of the CDN loop: to
    [GetCdnFile], to [ReuploadCdnFile] if it is asked, to
    [GetCdnFileHashes] if it is asked. *)
Record cdn_turn : Type := {
  turn_file : result cdn_answer;
  turn_reupload : result unit;
  turn_hashes : result (list file_hash)
}.

(** What creating a media session takes, per data center:
    [auth.ExportAuthorization] on the main session, the key negotiation,
    [Session.start], [auth.ImportAuthorization] on the new session. *)
Record session_env : Type := {
  export_authorization : Z -> result unit;
  negotiate_key : Z -> result unit;
  start_session : Z -> result unit;
  import_authorization : Z -> result unit
}.

(** Everything [get_file] receives from outside. *)
Record download_env : Type := {
  sessions : session_env;
  first_answer : result file_answer;
  later_answers : list (result file_answer);
  cdn_turns : list cdn_turn;
  temp_name : result string
}.

(** The attributes and the files a download touches. *)
Record transfer : Type := {
  own_dc_id : Z;
  media_sessions : gset Z;
  temp_files : gmap string bytes;
  logged : list exn
}.

Definition with_media_sessions (m : gset Z) (t : transfer) : transfer :=
  {| own_dc_id := own_dc_id t; media_sessions := m;
     temp_files := temp_files t; logged := logged t |}.

Definition with_temp_files (m : gmap string bytes) (t : transfer) : transfer :=
  {| own_dc_id := own_dc_id t; media_sessions := media_sessions t;
     temp_files := m; logged := logged t |}.

Definition with_logged (l : list exn) (t : transfer) : transfer :=
  {| own_dc_id := own_dc_id t; media_sessions := media_sessions t;
     temp_files := temp_files t; logged := l |}.

(** [limit = 1024 * 1024]. *)
Definition limit : Z := 1024 * 1024.

(** The first block of [get_file]: the media session of [dc_id], created
    when there is none. *)
Definition media_session (env : session_env) (dc_id : Z) (t : transfer)
    : transfer * result unit :=
  if bool_decide (dc_id ∈ media_sessions t) then (t, Ok tt)
  else if negb (dc_id =? own_dc_id t) then
    match export_authorization env dc_id with
    | Raise e => (t, Raise e)
    | Ok _ =>
        match negotiate_key env dc_id with
        | Raise e => (t, Raise e)
        | Ok _ =>
            match start_session env dc_id with
            | Raise e => (t, Raise e)
            | Ok _ =>
                let t := with_media_sessions ({[dc_id]} ∪ media_sessions t) t in
                match import_authorization env dc_id with
                | Raise e => (t, Raise e)
                | Ok _ => (t, Ok tt)
                end
            end
        end
    end
  else
    match start_session env dc_id with
    | Raise e => (t, Raise e)
    | Ok _ => (with_media_sessions ({[dc_id]} ∪ media_sessions t) t, Ok tt)
    end.

(** The CDN session of the redirect, created when there is none. *)
Definition cdn_session (env : session_env) (dc_id : Z) (t : transfer)
    : transfer * result unit :=
  if bool_decide (dc_id ∈ media_sessions t) then (t, Ok tt)
  else
    match negotiate_key env dc_id with
    | Raise e => (t, Raise e)
    | Ok _ =>
        match start_session env dc_id with
        | Raise e => (t, Raise e)
        | Ok _ => (with_media_sessions ({[dc_id]} ∪ media_sessions t) t, Ok tt)
        end
    end.

(** [tempfile.NamedTemporaryFile("wb", delete=False)]: the empty file it
    creates. *)
Definition create_temp (name : string) (t : transfer) : transfer :=
  with_temp_files (<[name := []]> (temp_files t)) t.

(** [f.write(chunk)] on the temporary file. *)
Definition write_temp (name : string) (chunk : bytes) (t : transfer) : transfer :=
  with_temp_files (<[name := default [] (temp_files t !! name) ++ chunk]> (temp_files t)) t.

(** [os.remove(file_name)] with its [OSError] ignored. *)
Definition remove_temp (name : string) (t : transfer) : transfer :=
  with_temp_files (delete name (temp_files t)) t.

(** [await progress(self, min(offset, size) if size != 0 else offset, size,
    *progress_args)] when a callback was given; the callback returns or
    raises. A [size] of [None] cannot be compared. *)
Definition report (progress : option (Z -> Z -> option exn)) (offset : Z) (size : option Z)
    : option exn :=
  match progress with
  | None => None
  | Some callback =>
      match size with
      | None => Some TypeError
      | Some sz => callback (if sz =? 0 then offset else Z.min offset sz) sz
      end
  end.

(** [n.to_bytes(4, "big")]. *)
Definition to_bytes_4_big (n : Z) : result bytes :=
  if (0 <=? n) && (n <? 2 ^ 32) then
    Ok [Base64.byte_of_N (Z.to_N (n / 2 ^ 24)); Base64.byte_of_N (Z.to_N (n / 2 ^ 16));
        Base64.byte_of_N (Z.to_N (n / 2 ^ 8)); Base64.byte_of_N (Z.to_N n)]
  else Raise OverflowError.

(** [r.encryption_iv[:-4] + (offset // 16).to_bytes(4, "big")]. *)
Definition counter_iv (encryption_iv : bytes) (offset : Z) : result bytes :=
  match to_bytes_4_big (offset / 16) with
  | Ok counter => Ok (take (length encryption_iv - 4) encryption_iv ++ counter)
  | Raise e => Raise e
  end.

Section Download.

(** The primitives of [pyrogram.crypto] and [hashlib], outside this file. *)
Variable ctr256_decrypt : bytes -> bytes -> bytes -> bytes.
Variable sha256 : bytes -> bytes.

(** The verification loop over [enumerate(hashes)], from index [i] on:
    [false] is the failed assertion. *)
Fixpoint verify_parts (i : nat) (hashes : list file_hash) (decrypted : bytes) : bool :=
  match hashes with
  | [] => true
  | h :: rest =>
      let cdn_chunk :=
        take (fh_limit h * (i + 1) - fh_limit h * i) (drop (fh_limit h * i) decrypted) in
      if bool_decide (fh_hash h = sha256 cdn_chunk)
      then verify_parts (S i) rest decrypted
      else false
  end.

(** One turn of the plain loop. The turn's answer is the [r] whose bytes
    are written; an answer that failed raises where it was awaited. *)
Definition plain_step (name : string) (progress : option (Z -> Z -> option exn))
    (size : option Z) (turn : result file_answer) (s : Z * transfer)
    : step_result (Z * transfer) :=
  let '(offset, t) := s in
  match turn with
  | Raise e => Fail e s
  | Ok (UploadFile chunk) =>
      match chunk with
      | [] => Break s
      | _ =>
          let t := write_temp name chunk t in
          let offset := offset + limit in
          match report progress offset size with
          | Some e => Fail e (offset, t)
          | None => Continue (offset, t)
          end
      end
  | Ok _ => Fail AttributeError s
  end.

(** One turn of the CDN loop. *)
Definition cdn_step (name : string) (progress : option (Z -> Z -> option exn))
    (size : option Z) (encryption_key encryption_iv : bytes)
    (turn : cdn_turn) (s : Z * transfer) : step_result (Z * transfer) :=
  let '(offset, t) := s in
  match turn_file turn with
  | Raise e => Fail e s
  | Ok (CdnFileReuploadNeeded _) =>
      match turn_reupload turn with
      | Raise e => if exn_eqb e VolumeLocNotFound then Break s else Fail e s
      | Ok _ => Continue s
      end
  | Ok (CdnFile chunk) =>
      match counter_iv encryption_iv offset with
      | Raise e => Fail e s
      | Ok iv =>
          let decrypted_chunk := ctr256_decrypt chunk encryption_key iv in
          match turn_hashes turn with
          | Raise e => Fail e s
          | Ok hashes =>
              if verify_parts 0 hashes decrypted_chunk then
                let t := write_temp name decrypted_chunk t in
                let offset := offset + limit in
                match report progress offset size with
                | Some e => Fail e (offset, t)
                | None =>
                    if Z.of_nat (length chunk) <? limit
                    then Break (offset, t) else Continue (offset, t)
                end
              else Fail AssertionError s
          end
      end
  end.

(** The [try] block of [get_file]: the state it leaves, the value of
    [file_name] at that point, and how it ended. *)
Definition get_file_try (env : download_env) (size : option Z)
    (progress : option (Z -> Z -> option exn)) (t : transfer)
    : transfer * string * loop_end :=
  match first_answer env with
  | Raise e => (t, EmptyString, Failed e)
  | Ok (UploadFile data) =>
      match temp_name env with
      | Raise e => (t, EmptyString, Failed e)
      | Ok name =>
          let '(_, t, ending) :=
            iterate (plain_step name progress size)
              (Ok (UploadFile data) :: later_answers env) (0, create_temp name t) in
          (t, name, ending)
      end
  | Ok (FileCdnRedirect dc file_token encryption_key encryption_iv) =>
      match cdn_session (sessions env) dc t with
      | (t, Raise e) => (t, EmptyString, Failed e)
      | (t, Ok _) =>
          match temp_name env with
          | Raise e => (t, EmptyString, Failed e)
          | Ok name =>
              let '(_, t, ending) :=
                iterate (cdn_step name progress size encryption_key encryption_iv)
                  (cdn_turns env) (0, create_temp name t) in
              (t, name, ending)
          end
      end
  | Ok OtherFile => (t, EmptyString, Done)
  end.

(** [Client.get_file]. *)
Definition get_file (env : download_env) (dc_id : Z) (size : option Z)
    (progress : option (Z -> Z -> option exn)) (t : transfer)
    : transfer * outcome string :=
  match media_session (sessions env) dc_id t with
  | (t, Raise e) => (t, Raised e)
  | (t, Ok _) =>
      match get_file_try env size progress t with
      | (t, file_name, Waiting) => (t, Pending)
      | (t, file_name, Done) => (t, Returned file_name)
      | (t, file_name, Failed e) =>
          let t :=
            if exn_eqb e StopTransmission then t
            else with_logged (logged t ++ [e]) t in
          (remove_temp file_name t, Returned EmptyString)
      end
  end.

End Download.

(** What [download_worker] hands back for one queued medium: the content of
    [path[0]] if it was assigned, and whether [done] was set. *)
Record download_report : Type := {
  reported_path : option (option string);
  done_set : bool
}.

(** The end of the body of [download_worker], from the call of [get_file]
    on: [final_path] is the absolute path computed from the directory and
    the file name, [move] whether [os.makedirs] or [shutil.move] fails. The
    cases before the call (an invalid file id, an unknown media type) are
    not part of it. *)
Definition download_worker_finish (got : outcome string) (final_path : string)
    (move : option exn) (t : transfer) : transfer * download_report :=
  match got with
  | Pending => (t, {| reported_path := None; done_set := false |})
  | Raised e =>
      (remove_temp EmptyString (with_logged (logged t ++ [e]) t),
       {| reported_path := None; done_set := true |})
  | Returned temp_file_path =>
      match temp_file_path with
      | EmptyString =>
          (t, {| reported_path := Some None; done_set := true |})
      | _ =>
          match move with
          | Some e =>
              (remove_temp temp_file_path (with_logged (logged t ++ [e]) t),
               {| reported_path := None; done_set := true |})
          | None =>
              let content := default [] (temp_files t !! temp_file_path) in
              (with_temp_files
                 (<[final_path := content]> (delete temp_file_path (temp_files t))) t,
               {| reported_path :=
                    Some (match final_path with
                          | EmptyString => None
                          | _ => Some final_path
                          end);
                  done_set := true |})
          end
      end
  end.

(** ** The transport session, as far as the client relies on it *)

(** Modelled from the spec: the [Session] class of [pyrogram.session] is
    outside this file. Section 4.2 gives it the life cycle created, running,
    stopped: [start] opens the link or fails with the connection error and
    leaves the session as it was; [stop] closes a running session, and on a
    session that is not running it is a programmer error surfaced as
    [InvalidStateError]. *)
Inductive session_state : Type :=
| Created
| Running
| Stopped.

(** Modelled from the spec: [Session.start], whose failure is the
    environment's. *)
Definition session_start (failure : option exn) (s : session_state)
    : session_state * result unit :=
  match failure with
  | Some e => (s, Raise e)
  | None => (Running, Ok tt)
  end.

(** Modelled from the spec: [Session.stop]. *)
Definition session_stop (s : session_state) : session_state * result unit :=
  match s with
  | Running => (Stopped, Ok tt)
  | _ => (s, Raise InvalidStateError)
  end.

(** ** The transfer engine: uploads *)

(** [part_size = 512 * 1024]. *)
Definition part_size : Z := 512 * 1024.

(** The requests the upload workers send. *)
Inductive upload_rpc : Type :=
| SaveFilePart (file_id file_part : Z) (data : bytes)
| SaveBigFilePart (file_id file_part file_total_parts : Z) (data : bytes).

(** What [save_file] returns on success. *)
Inductive input_file : Type :=
| InputFile (id parts : Z) (name : string) (md5_checksum : string)
| InputFileBig (id parts : Z) (name : string).

(** What [save_file] does that is visible from outside, in order: sessions
    started and stopped (by index in the pool), the file sought and read
    (offset, bytes asked, bytes got), items put on the queue ([None] is the
    sentinel of a worker), progress reported, errors logged, workers
    awaited. *)
Inductive upload_event : Type :=
| SessionStarted (i : nat)
| SessionStopped (i : nat)
| Sought (offset : Z)
| ReadAt (offset : Z) (asked : Z) (got : nat)
| Put (item : option upload_rpc)
| Reported (current total : Z)
| ErrorLogged (e : exn)
| WorkersGathered.

(** Everything [save_file] receives from outside: the content of the file
    at [path] if there is one, its base name, the id [rnd_id()] draws, and
    whether the start of the i-th session of the pool fails. *)
Record upload_env : Type := {
  file_content : option bytes;
  file_basename : string;
  fresh_id : Z;
  pool_start : nat -> option exn
}.

(** The local variables of the loop of [save_file]: the position of the
    file object, [file_part], the bytes fed to [md5_sum] when there is one,
    whether the [return] of a resumed part was taken, and the events so
    far. *)
Record upload_loop : Type := {
  ul_position : Z;
  ul_file_part : Z;
  ul_md5 : option bytes;
  ul_returned : bool;
  ul_events : list upload_event
}.

Definition hex_digit (n : N) : ascii :=
  nth (N.to_nat n) (list_ascii_of_string "0123456789abcdef") "0"%char.

(** ["".join([hex(i)[2:].zfill(2) for i in digest])]. *)
Fixpoint hexlify (digest : bytes) : string :=
  match digest with
  | [] => EmptyString
  | b :: rest =>
      String (hex_digit (Byte.to_N b / 16)) (String (hex_digit (Byte.to_N b mod 16)) (hexlify rest))
  end.

Section Upload.

(** [hashlib.md5], outside this file: the digest of everything fed. *)
Variable md5 : bytes -> bytes.

(** One turn of the reading loop. The turns of this loop carry nothing: the
    file is read where the previous turn left it. *)
Definition upload_step (data : bytes) (file_size : Z) (is_big is_missing_part : bool)
    (file_id file_total_parts : Z) (progress : option (Z -> Z -> option exn))
    (turn : unit) (s : upload_loop) : step_result upload_loop :=
  let chunk := take (Z.to_nat part_size) (drop (Z.to_nat (ul_position s)) data) in
  let position := ul_position s + Z.of_nat (length chunk) in
  let events := ul_events s ++ [ReadAt (ul_position s) part_size (length chunk)] in
  match chunk with
  | [] =>
      if negb is_big then
        match ul_md5 s with
        | None =>
            Fail AttributeError
              {| ul_position := position; ul_file_part := ul_file_part s; ul_md5 := None;
                 ul_returned := false; ul_events := events |}
        | Some fed =>
            Break {| ul_position := position; ul_file_part := ul_file_part s; ul_md5 := Some fed;
                     ul_returned := false; ul_events := events |}
        end
      else
        Break {| ul_position := position; ul_file_part := ul_file_part s; ul_md5 := ul_md5 s;
                 ul_returned := false; ul_events := events |}
  | _ =>
      let rpc :=
        if is_big
        then SaveBigFilePart file_id (ul_file_part s) file_total_parts chunk
        else SaveFilePart file_id (ul_file_part s) chunk in
      let events := events ++ [Put (Some rpc)] in
      if is_missing_part then
        Break {| ul_position := position; ul_file_part := ul_file_part s; ul_md5 := ul_md5 s;
                 ul_returned := true; ul_events := events |}
      else
        let fed :=
          if negb is_big then option_map (fun fed => fed ++ chunk) (ul_md5 s)
          else ul_md5 s in
        if negb is_big && negb (bool_decide (is_Some (ul_md5 s))) then
          Fail AttributeError
            {| ul_position := position; ul_file_part := ul_file_part s; ul_md5 := None;
               ul_returned := false; ul_events := events |}
        else
          let file_part := ul_file_part s + 1 in
          match progress with
          | None =>
              Continue {| ul_position := position; ul_file_part := file_part; ul_md5 := fed;
                          ul_returned := false; ul_events := events |}
          | Some callback =>
              let current := Z.min (file_part * part_size) file_size in
              let events := events ++ [Reported current file_size] in
              match callback current file_size with
              | Some e =>
                  Fail e {| ul_position := position; ul_file_part := file_part; ul_md5 := fed;
                            ul_returned := false; ul_events := events |}
              | None =>
                  Continue {| ul_position := position; ul_file_part := file_part; ul_md5 := fed;
                              ul_returned := false; ul_events := events |}
              end
          end
  end.

(** [for session in pool: await session.start()], from index [i] on. *)
Fixpoint start_pool (failure : nat -> option exn) (i : nat) (pool : list session_state)
    (events : list upload_event)
    : list session_state * list upload_event * result unit :=
  match pool with
  | [] => ([], events, Ok tt)
  | s :: rest =>
      match session_start (failure i) s with
      | (s', Raise e) => (s' :: rest, events, Raise e)
      | (s', Ok _) =>
          let '(rest', events', r) :=
            start_pool failure (S i) rest (events ++ [SessionStarted i]) in
          (s' :: rest', events', r)
      end
  end.

(** [for session in pool: await session.stop()], from index [i] on. *)
Fixpoint stop_pool (i : nat) (pool : list session_state) (events : list upload_event)
    : list session_state * list upload_event * result unit :=
  match pool with
  | [] => ([], events, Ok tt)
  | s :: rest =>
      match session_stop s with
      | (s', Raise e) => (s' :: rest, events, Raise e)
      | (s', Ok _) =>
          let '(rest', events', r) :=
            stop_pool (S i) rest (events ++ [SessionStopped i]) in
          (s' :: rest', events', r)
      end
  end.

(** [Client.save_file]: the pool as it is left, the events, and the value
    returned ([None] when the function ends without one) or the exception
    raised. *)
Definition save_file (env : upload_env) (file_id : option Z) (file_part : Z)
    (progress : option (Z -> Z -> option exn))
    : list session_state * list upload_event * result (option input_file) :=
  match file_content env with
  | None => ([], [], Raise FileNotFoundError)
  | Some data =>
      let file_size := Z.of_nat (length data) in
      if file_size =? 0 then ([], [], Raise ValueError)
      else if 1500 * 1024 * 1024 <? file_size then ([], [], Raise ValueError)
      else
        let file_total_parts := (file_size + part_size - 1) / part_size in
        let is_big := 10 * 1024 * 1024 <? file_size in
        let pool_size := if is_big then 3%nat else 1%nat in
        let workers_count := if is_big then 4%nat else 1%nat in
        let is_missing_part := bool_decide (is_Some file_id) in
        let file_id :=
          match file_id with
          | Some id => if id =? 0 then fresh_id env else id
          | None => fresh_id env
          end in
        let md5_sum : option bytes :=
          if negb is_big && negb is_missing_part then Some [] else None in
        let pool := replicate pool_size Created in
        let workers := (pool_size * workers_count)%nat in
        (* try *)
        let '(pool, events, ending, loop) :=
          match start_pool (pool_start env) 0 pool [] with
          | (pool, events, Raise e) =>
              (pool, events, Failed e,
               {| ul_position := 0; ul_file_part := file_part; ul_md5 := md5_sum;
                  ul_returned := false; ul_events := events |})
          | (pool, events, Ok _) =>
              let start := part_size * file_part in
              if start <? 0 then
                (pool, events, Failed OSError,
                 {| ul_position := 0; ul_file_part := file_part; ul_md5 := md5_sum;
                    ul_returned := false; ul_events := events |})
              else
                let '(loop, ending) :=
                  iterate
                    (upload_step data file_size is_big is_missing_part
                       file_id file_total_parts progress)
                    (replicate (S (Z.to_nat file_total_parts)) tt)
                    {| ul_position := start; ul_file_part := file_part; ul_md5 := md5_sum;
                       ul_returned := false;
                       ul_events := events ++ [Sought start] |} in
                (pool, ul_events loop, ending, loop)
          end in
        (* except / else *)
        let '(events, value) :=
          match ending with
          | Failed e =>
              if exn_eqb e StopTransmission then (events, Raise e)
              else (events ++ [ErrorLogged e], Ok None)
          | Waiting => (events, Ok None) (* not reached: the file has fewer parts than turns *)
          | Done =>
              if ul_returned loop then (events, Ok None)
              else if is_big then
                (events, Ok (Some (InputFileBig file_id file_total_parts (file_basename env))))
              else
                (events,
                 Ok (Some (InputFile file_id file_total_parts (file_basename env)
                             (hexlify (md5 (default [] (ul_md5 loop)))))))
          end in
        (* finally *)
        let events := events ++ replicate workers (Put None) ++ [WorkersGathered] in
        match stop_pool 0 pool events with
        | (pool, events, Raise e) => (pool, events, Raise e)
        | (pool, events, Ok _) => (pool, events, value)
        end
  end.

End Upload.

(** ** The client life cycle *)

(** The attributes [start] reads and writes: the started flag, the
    transport session, the account, the takeout, the secondary peer maps it
    clears, and the background work it launches. *)
Record lifecycle : Type := {
  lc_is_started : bool;
  lc_session : session_state;
  lc_user_id : option Z;
  lc_is_bot : option bool;
  lc_bot_token : option string;
  lc_takeout : option bool;
  lc_takeout_id : option Z;
  lc_peers_by_username : gmap string input_peer;
  lc_peers_by_phone : gmap string input_peer;
  lc_updates_worker_task : bool;
  lc_download_worker_tasks : nat;
  lc_dispatcher_started : bool;
  lc_syncer_added : bool
}.

(** Everything [start] receives from outside. The calls it awaits are
    summed up by how they end: [loading] stands for [load_config], the
    session loading (or its hook), [load_plugins] and the construction of
    the session, and gives the user id they leave; [authorization] for
    [authorize_user] or [authorize_bot], which may stop and replace the
    session on a migration and then return the user id or raise;
    the others for the requests and helpers named after them. None of them
    touches the started flag or the background tasks. *)
Record start_env : Type := {
  name_is_token : option string;
  loading : result (option Z);
  session_starting : option exn;
  authorization : session_state * result Z;
  saving : option exn;
  takeout_init : result Z;
  long_offline : result bool;
  full_sync : option exn;
  quick_sync : option exn;
  get_state : option exn;
  dispatcher_start : option exn;
  syncer_add : option exn;
  download_workers : nat
}.

Definition lc_update (c : lifecycle) (started : bool) (s : session_state)
    (uid : option Z) (bot : option bool) (token : option string)
    (tid : option Z) : lifecycle :=
  {| lc_is_started := started; lc_session := s; lc_user_id := uid;
     lc_is_bot := bot; lc_bot_token := token; lc_takeout := lc_takeout c;
     lc_takeout_id := tid;
     lc_peers_by_username := lc_peers_by_username c;
     lc_peers_by_phone := lc_peers_by_phone c;
     lc_updates_worker_task := lc_updates_worker_task c;
     lc_download_worker_tasks := lc_download_worker_tasks c;
     lc_dispatcher_started := lc_dispatcher_started c;
     lc_syncer_added := lc_syncer_added c |}.

Definition lc_set_started (started : bool) (c : lifecycle) : lifecycle :=
  lc_update c started (lc_session c) (lc_user_id c) (lc_is_bot c) (lc_bot_token c)
    (lc_takeout_id c).

Definition lc_set_session (s : session_state) (c : lifecycle) : lifecycle :=
  lc_update c (lc_is_started c) s (lc_user_id c) (lc_is_bot c) (lc_bot_token c)
    (lc_takeout_id c).

Definition lc_set_user_id (uid : option Z) (c : lifecycle) : lifecycle :=
  lc_update c (lc_is_started c) (lc_session c) uid (lc_is_bot c) (lc_bot_token c)
    (lc_takeout_id c).

Definition lc_set_is_bot (bot : option bool) (c : lifecycle) : lifecycle :=
  lc_update c (lc_is_started c) (lc_session c) (lc_user_id c) bot (lc_bot_token c)
    (lc_takeout_id c).

Definition lc_set_bot_token (token : option string) (c : lifecycle) : lifecycle :=
  lc_update c (lc_is_started c) (lc_session c) (lc_user_id c) (lc_is_bot c) token
    (lc_takeout_id c).

Definition lc_set_takeout_id (tid : option Z) (c : lifecycle) : lifecycle :=
  lc_update c (lc_is_started c) (lc_session c) (lc_user_id c) (lc_is_bot c)
    (lc_bot_token c) tid.

Definition lc_clear_secondary (c : lifecycle) : lifecycle :=
  {| lc_is_started := lc_is_started c; lc_session := lc_session c;
     lc_user_id := lc_user_id c; lc_is_bot := lc_is_bot c;
     lc_bot_token := lc_bot_token c; lc_takeout := lc_takeout c;
     lc_takeout_id := lc_takeout_id c;
     lc_peers_by_username := ∅; lc_peers_by_phone := ∅;
     lc_updates_worker_task := lc_updates_worker_task c;
     lc_download_worker_tasks := lc_download_worker_tasks c;
     lc_dispatcher_started := lc_dispatcher_started c;
     lc_syncer_added := lc_syncer_added c |}.

Definition lc_launch (updates : bool) (downloads : nat) (dispatcher syncer : bool)
    (c : lifecycle) : lifecycle :=
  {| lc_is_started := lc_is_started c; lc_session := lc_session c;
     lc_user_id := lc_user_id c; lc_is_bot := lc_is_bot c;
     lc_bot_token := lc_bot_token c; lc_takeout := lc_takeout c;
     lc_takeout_id := lc_takeout_id c;
     lc_peers_by_username := lc_peers_by_username c;
     lc_peers_by_phone := lc_peers_by_phone c;
     lc_updates_worker_task := updates;
     lc_download_worker_tasks := downloads;
     lc_dispatcher_started := dispatcher;
     lc_syncer_added := syncer |}.

(** A step that raises or goes on. *)
Definition step_of (failure : option exn) (c : lifecycle) : lifecycle * result unit :=
  match failure with
  | Some e => (c, Raise e)
  | None => (c, Ok tt)
  end.

(** [start], up to and including [self.is_started = True]. *)
Definition start_prelude (env : start_env) (c : lifecycle) : lifecycle * result unit :=
  if lc_is_started c then (c, Raise ConnectionError)
  else
    let c :=
      match name_is_token env with
      | Some token => lc_set_bot_token (Some token) (lc_set_is_bot (Some true) c)
      | None => c
      end in
    match loading env with
    | Raise e => (c, Raise e)
    | Ok uid =>
        let c := lc_set_session Created (lc_set_user_id uid c) in
        match session_start (session_starting env) (lc_session c) with
        | (s, Raise e) => (lc_set_session s c, Raise e)
        | (s, Ok _) => (lc_set_started true (lc_set_session s c), Ok tt)
        end
    end.

(** The [try] block of [start]. *)
Definition start_try (env : start_env) (c : lifecycle) : lifecycle * result unit :=
  let authorized :=
    match lc_user_id c with
    | None =>
        let c :=
          match lc_bot_token c with
          | None => lc_set_is_bot (Some false) c
          | Some _ => lc_set_is_bot (Some true) c
          end in
        let c := lc_set_session (fst (authorization env)) c in
        match snd (authorization env) with
        | Raise e => (c, Raise e)
        | Ok uid => step_of (saving env) (lc_set_user_id (Some uid) c)
        end
    | Some _ => (c, Ok tt)
    end in
  match authorized with
  | (c, Raise e) => (c, Raise e)
  | (c, Ok _) =>
      match lc_is_bot c with
      | Some true => step_of (get_state env) c
      | _ =>
          let taken :=
            match lc_takeout c with
            | Some true =>
                match takeout_init env with
                | Raise e => (c, Raise e)
                | Ok id => (lc_set_takeout_id (Some id) c, Ok tt)
                end
            | _ => (c, Ok tt)
            end in
          match taken with
          | (c, Raise e) => (c, Raise e)
          | (c, Ok _) =>
              match long_offline env with
              | Raise e => (c, Raise e)
              | Ok true => step_of (full_sync env) (lc_clear_secondary c)
              | Ok false => step_of (quick_sync env) c
              end
          end
      end
  end.

(** [Client.start]. *)
Definition start (env : start_env) (c : lifecycle) : lifecycle * result unit :=
  match start_prelude env c with
  | (c, Raise e) => (c, Raise e)
  | (c, Ok _) =>
      match start_try env c with
      | (c, Raise e) =>
          let c := lc_set_started false c in
          match session_stop (lc_session c) with
          | (s, Raise e') => (lc_set_session s c, Raise e')
          | (s, Ok _) => (lc_set_session s c, Raise e)
          end
      | (c, Ok _) =>
          let c :=
            lc_launch true (lc_download_worker_tasks c + download_workers env)
              (lc_dispatcher_started c) (lc_syncer_added c) c in
          match dispatcher_start env with
          | Some e => (c, Raise e)
          | None =>
              let c :=
                lc_launch (lc_updates_worker_task c) (lc_download_worker_tasks c)
                  true (lc_syncer_added c) c in
              match syncer_add env with
              | Some e => (c, Raise e)
              | None =>
                  (lc_launch (lc_updates_worker_task c) (lc_download_worker_tasks c)
                     (lc_dispatcher_started c) true c, Ok tt)
              end
          end
      end
  end.
(** ** Stopping, restarting and running *)

(** Everything [stop] receives from outside, each awaited call summed up by
    how it ends: the [account.FinishTakeoutSession] request, [Syncer.remove],
    [dispatcher.stop], and the two joins, of the download workers and of
    the updates worker, each of which returns once the tasks have taken
    their sentinel, raises what a task raised, or is left waiting. *)
Record stop_env : Type := {
  takeout_finish : option exn;
  syncer_remove : option exn;
  dispatcher_stop : option exn;
  download_workers_join : outcome unit;
  updates_worker_join : outcome unit
}.

(** [for media_session in self.media_sessions.values(): await
    media_session.stop()], on the sessions in the order of the dictionary. *)
Fixpoint stop_media (sessions : list session_state) : list session_state * result unit :=
  match sessions with
  | [] => ([], Ok tt)
  | s :: rest =>
      match session_stop s with
      | (s', Raise e) => (s' :: rest, Raise e)
      | (s', Ok _) =>
          let '(rest', r) := stop_media rest in
          (s' :: rest', r)
      end
  end.

(** [Client.stop], on the life cycle and the media sessions
    ([self.media_sessions.values()]). *)
Definition stop (env : stop_env) (c : lifecycle) (media : list session_state)
    : lifecycle * list session_state * outcome unit :=
  if negb (lc_is_started c) then (c, media, Raised ConnectionError)
  else
    let finished :=
      match lc_takeout_id c with
      | Some id => if id =? 0 then None else takeout_finish env
      | None => None
      end in
    match finished with
    | Some e => (c, media, Raised e)
    | None =>
        match syncer_remove env with
        | Some e => (c, media, Raised e)
        | None =>
            let c :=
              lc_launch (lc_updates_worker_task c) (lc_download_worker_tasks c)
                (lc_dispatcher_started c) false c in
            match dispatcher_stop env with
            | Some e => (c, media, Raised e)
            | None =>
                let c :=
                  lc_launch (lc_updates_worker_task c) (lc_download_worker_tasks c)
                    false (lc_syncer_added c) c in
                match download_workers_join env with
                | Raised e => (c, media, Raised e)
                | Pending => (c, media, Pending)
                | Returned _ =>
                    let c :=
                      lc_launch (lc_updates_worker_task c) 0
                        (lc_dispatcher_started c) (lc_syncer_added c) c in
                    match updates_worker_join env with
                    | Raised e => (c, media, Raised e)
                    | Pending => (c, media, Pending)
                    | Returned _ =>
                        let c :=
                          lc_launch false (lc_download_worker_tasks c)
                            (lc_dispatcher_started c) (lc_syncer_added c) c in
                        match stop_media media with
                        | (media, Raise e) => (c, media, Raised e)
                        | (_, Ok _) =>
                            let c := lc_set_started false c in
                            match session_stop (lc_session c) with
                            | (s, Raise e) => (lc_set_session s c, [], Raised e)
                            | (s, Ok _) => (lc_set_session s c, [], Returned tt)
                            end
                        end
                    end
                end
            end
        end
    end.


(** [Client.idle]: once a stop signal has cleared [is_idle] the client is
    stopped; without a signal the loop goes on sleeping. *)
Definition idle (senv : stop_env) (signal : bool) (c : lifecycle)
    (media : list session_state) : lifecycle * list session_state * outcome unit :=
  if signal then stop senv c media else (c, media, Pending).

(** [Client.run]: [work] is the coroutine passed, if any, with what it does
    to the client. *)
Definition run (env : start_env) (senv : stop_env) (signal : bool)
    (work : option (lifecycle -> list session_state
                    -> lifecycle * list session_state * outcome unit))
    (c : lifecycle) (media : list session_state)
    : lifecycle * list session_state * outcome unit :=
  match start env c with
  | (c, Raise e) => (c, media, Raised e)
  | (c, Ok _) =>
      let worked :=
        match work with
        | Some coroutine => coroutine c media
        | None => idle senv signal c media
        end in
      match worked with
      | (c, media, Returned _) =>
          if lc_is_started c then stop senv c media else (c, media, Returned tt)
      | other => other
      end
  end.
(** ** Configuration *)

(** The string methods [load_config] uses, on the ASCII range. *)
Module PyText.

Definition newline : ascii := "010"%char.

(** [c.isspace()]. *)
Definition is_space (c : ascii) : bool :=
  let n := nat_of_ascii c in
  ((n =? 32) || ((9 <=? n) && (n <=? 13)) || ((28 <=? n) && (n <=? 31)))%nat.

(** [s.lstrip()]. *)
Fixpoint lstrip (s : string) : string :=
  match s with
  | EmptyString => EmptyString
  | String c s' => if is_space c then lstrip s' else s
  end.

(** [s.rstrip()]. *)
Fixpoint rstrip (s : string) : string :=
  match s with
  | EmptyString => EmptyString
  | String c s' =>
      match rstrip s' with
      | EmptyString => if is_space c then EmptyString else String c EmptyString
      | kept => String c kept
      end
  end.

(** [s.strip()]. *)
Definition strip (s : string) : string := rstrip (lstrip s).

(** [s.split(sep)] for a separator of one character: the pieces between
    the separators, empty ones included. *)
Fixpoint split_on (sep : ascii) (s : string) : list string :=
  match s with
  | EmptyString => [EmptyString]
  | String c s' =>
      if Ascii.eqb c sep then EmptyString :: split_on sep s'
      else
        match split_on sep s' with
        | piece :: pieces => String c piece :: pieces
        | [] => [String c EmptyString]
        end
  end.

(** [s.split()]: the words between runs of white space. *)
Fixpoint split (s : string) : list string :=
  match s with
  | EmptyString => []
  | String c s' =>
      if is_space c then split s'
      else
        match s' with
        | EmptyString => [String c EmptyString]
        | String c' _ =>
            if is_space c' then String c EmptyString :: split s'
            else
              match split s' with
              | word :: words => String c word :: words
              | [] => [String c EmptyString]
              end
        end
  end.

(** [sep.join(parts)]. *)
Definition join (sep : string) (parts : list string) : string := String.concat sep parts.

End PyText.

(** [bool(v)] for a value. *)
Definition truthy (v : json) : bool :=
  match v with
  | JNull => false
  | JBool b => b
  | JInt z => negb (z =? 0)
  | JStr s => match s with EmptyString => false | _ => true end
  | JList items => match items with [] => false | _ => true end
  | JDict items => match items with [] => false | _ => true end
  end.

(** A dictionary with string keys, as [_proxy] and [plugins] are; the
    attribute holding it may also be [None]. Values are written as JSON
    values; a tuple is written as the list of its components. *)
Abbreviation pydict := (gmap string json).

(** [bool(d)] for an attribute that holds a dictionary or [None]. *)
Definition dict_truthy (d : option pydict) : bool :=
  match d with
  | Some m => negb (bool_decide (m = ∅))
  | None => false
  end.

(** [bool(s)] for an attribute that holds a string or [None], and for one
    that holds an integer or [None]. *)
Definition str_truthy (s : option string) : bool :=
  match s with
  | Some (String _ _) => true
  | _ => false
  end.

Definition int_truthy (z : option Z) : bool :=
  match z with
  | Some z => negb (z =? 0)
  | None => false
  end.

(** The attributes of [Client] that [load_config] and the [proxy] property
    read and write. *)
Record settings : Type := {
  api_id : option Z;
  api_hash : option string;
  app_version : option string;
  device_model : option string;
  system_version : option string;
  lang_code : option string;
  _proxy : option pydict;
  plugins : option pydict
}.

Definition set_api_id (v : option Z) (s : settings) : settings :=
  {| api_id := v; api_hash := api_hash s; app_version := app_version s;
     device_model := device_model s; system_version := system_version s;
     lang_code := lang_code s; _proxy := _proxy s; plugins := plugins s |}.

Definition set_api_hash (v : option string) (s : settings) : settings :=
  {| api_id := api_id s; api_hash := v; app_version := app_version s;
     device_model := device_model s; system_version := system_version s;
     lang_code := lang_code s; _proxy := _proxy s; plugins := plugins s |}.

Definition set_app_version (v : option string) (s : settings) : settings :=
  {| api_id := api_id s; api_hash := api_hash s; app_version := v;
     device_model := device_model s; system_version := system_version s;
     lang_code := lang_code s; _proxy := _proxy s; plugins := plugins s |}.

Definition set_device_model (v : option string) (s : settings) : settings :=
  {| api_id := api_id s; api_hash := api_hash s; app_version := app_version s;
     device_model := v; system_version := system_version s;
     lang_code := lang_code s; _proxy := _proxy s; plugins := plugins s |}.

Definition set_system_version (v : option string) (s : settings) : settings :=
  {| api_id := api_id s; api_hash := api_hash s; app_version := app_version s;
     device_model := device_model s; system_version := v;
     lang_code := lang_code s; _proxy := _proxy s; plugins := plugins s |}.

Definition set_lang_code (v : option string) (s : settings) : settings :=
  {| api_id := api_id s; api_hash := api_hash s; app_version := app_version s;
     device_model := device_model s; system_version := system_version s;
     lang_code := v; _proxy := _proxy s; plugins := plugins s |}.

Definition set_proxy (v : option pydict) (s : settings) : settings :=
  {| api_id := api_id s; api_hash := api_hash s; app_version := app_version s;
     device_model := device_model s; system_version := system_version s;
     lang_code := lang_code s; _proxy := v; plugins := plugins s |}.

Definition set_plugins (v : option pydict) (s : settings) : settings :=
  {| api_id := api_id s; api_hash := api_hash s; app_version := app_version s;
     device_model := device_model s; system_version := system_version s;
     lang_code := lang_code s; _proxy := _proxy s; plugins := v |}.



(** A section of the parser, as [parser["plugins"]] gives it:
    [section.getboolean(option, fallback)] and [section.get(option)], which
    is [None] for a missing option. *)
Record section_proxy : Type := {
  section_getboolean : string -> bool -> result bool;
  section_get : string -> result (option string)
}.

(** The [ConfigParser] once it has read the configuration file, outside
    this file: whether reading failed, [has_section], [get] and [getint]
    without fallback, [get] and [getboolean] with a fallback ([None] when
    the fallback is what they return), and the sections by name. *)
Record config_parser : Type := {
  read_failure : option exn;
  has_section : string -> bool;
  parser_get : string -> string -> result string;
  parser_getint : string -> string -> result Z;
  parser_get_fallback : string -> string -> result (option string);
  parser_getboolean_fallback : string -> string -> result (option bool);
  parser_section : string -> option section_proxy
}.

(** A computation on the settings that may raise. *)
Definition CFG (A : Type) : Type := settings -> settings * result A.

Definition cfg_bind {A B} (m : CFG A) (k : A -> CFG B) : CFG B :=
  fun s =>
    match m s with
    | (s', Ok a) => k a s'
    | (s', Raise e) => (s', Raise e)
    end.

Definition cfg_ret {A} (a : A) : CFG A := fun s => (s, Ok a).

Definition cfg_lift {A} (r : result A) : CFG A := fun s => (s, r).

Definition cfg_set (f : settings -> settings) : CFG unit := fun s => (f s, Ok tt).

Notation "'let+' x ':=' m 'in' k" := (cfg_bind m (fun x => k))
  (at level 10, x name, m at level 100, k at level 200).
Notation "m ';+' k" := (cfg_bind m (fun _ => k))
  (at level 100, k at level 200, right associativity).

(** ["\n".join(v)] for a value: the strings of a list, the characters of a
    string, the keys of a dictionary; anything else, and a list item that is
    not a string, is a [TypeError]. *)
Fixpoint strings_of (items : list json) : result (list string) :=
  match items with
  | [] => Ok []
  | JStr part :: rest =>
      match strings_of rest with
      | Ok parts => Ok (part :: parts)
      | Raise e => Raise e
      end
  | _ :: _ => Raise TypeError
  end.

Definition join_lines (v : json) : result string :=
  match v with
  | JList items =>
      match strings_of items with
      | Ok parts => Ok (PyText.join (String PyText.newline EmptyString) parts)
      | Raise e => Raise e
      end
  | JStr text =>
      Ok (PyText.join (String PyText.newline EmptyString)
            (map (fun c => String c EmptyString) (list_ascii_of_string text)))
  | JDict items => Ok (PyText.join (String PyText.newline EmptyString) (map fst items))
  | JNull | JBool _ | JInt _ => Raise TypeError
  end.

(** [text or None]. *)
Definition str_or_none (text : string) : json :=
  match text with
  | EmptyString => JNull
  | _ => JStr text
  end.

(** [(i.split()[0], i.split()[1:] or None)], the tuple written as the list
    of its two components. *)
Definition plugin_entry (line : string) : result json :=
  match PyText.split line with
  | [] => Raise IndexError
  | path :: handlers =>
      Ok (JList [JStr path;
                 match handlers with
                 | [] => JNull
                 | _ => JList (map JStr handlers)
                 end])
  end.

Fixpoint plugin_entries (lines : list string) : result (list json) :=
  match lines with
  | [] => Ok []
  | line :: rest =>
      match plugin_entry line with
      | Raise e => Raise e
      | Ok entry =>
          match plugin_entries rest with
          | Raise e => Raise e
          | Ok entries => Ok (entry :: entries)
          end
      end
  end.

(** The list comprehension over [self.plugins[option].strip().split("\n")]. *)
Definition parse_plugin_option (text : string) : result json :=
  match plugin_entries (PyText.split_on PyText.newline (PyText.strip text)) with
  | Ok entries => Ok (JList entries)
  | Raise e => Raise e
  end.

Section Config.

Variable parser : config_parser.

(** [getattr(Client, option.upper())], by the name of the option: the
    class constants of [BaseClient], outside this file. *)
Variable class_constant : string -> string.

(** The first block of [load_config]: the API key. *)
Definition load_api_key : CFG unit :=
  fun s =>
    if int_truthy (api_id s) && str_truthy (api_hash s) then (s, Ok tt)
    else if has_section parser "pyrogram" then
      match parser_getint parser "pyrogram" "api_id" with
      | Raise e => (s, Raise e)
      | Ok id =>
          let s := set_api_id (Some id) s in
          match parser_get parser "pyrogram" "api_hash" with
          | Raise e => (s, Raise e)
          | Ok h => (set_api_hash (Some h) s, Ok tt)
          end
      end
    else (s, Raise AttributeError).

(** One turn of the loop over [app_version], [device_model],
    [system_version] and [lang_code]. *)
Definition load_option (name : string) (getter : settings -> option string)
    (setter : option string -> settings -> settings) : CFG unit :=
  fun s =>
    if str_truthy (getter s) then (s, Ok tt)
    else if has_section parser "pyrogram" then
      match parser_get_fallback parser "pyrogram" name with
      | Raise e => (s, Raise e)
      | Ok value => (setter (Some (default (class_constant name) value)) s, Ok tt)
      end
    else (setter (Some (class_constant name)) s, Ok tt).

(** [self._proxy[key] = value]. *)
Definition proxy_store (key : string) (value : json) : CFG unit :=
  cfg_set (fun s => set_proxy (Some (<[key := value]> (default ∅ (_proxy s)))) s).

(** The block of [load_config] about the proxy. *)
Definition load_proxy : CFG unit :=
  fun s =>
    if dict_truthy (_proxy s) then
      proxy_store "enabled"
        (JBool (truthy (default (JBool true) (default ∅ (_proxy s) !! "enabled"%string)))) s
    else
      (cfg_set (set_proxy (Some ∅));+
       if has_section parser "proxy" then
         let+ enabled := cfg_lift (parser_getboolean_fallback parser "proxy" "enabled") in
         proxy_store "enabled" (JBool (default true enabled));+
         let+ hostname := cfg_lift (parser_get parser "proxy" "hostname") in
         proxy_store "hostname" (JStr hostname);+
         let+ port := cfg_lift (parser_getint parser "proxy" "port") in
         proxy_store "port" (JInt port);+
         let+ username := cfg_lift (parser_get_fallback parser "proxy" "username") in
         proxy_store "username" (str_or_none (default EmptyString username));+
         let+ password := cfg_lift (parser_get_fallback parser "proxy" "password") in
         proxy_store "password" (str_or_none (default EmptyString password))
       else cfg_ret tt) s.

(** [self.plugins[key] = value]. *)
Definition plugins_store (key : string) (value : json) : CFG unit :=
  cfg_set (fun s => set_plugins (Some (<[key := value]> (default ∅ (plugins s)))) s).

(** [self.plugins[key] = "\n".join(self.plugins.get(key, [])) or None]. *)
Definition join_plugin_option (key : string) : CFG unit :=
  fun s =>
    match join_lines (default (JList []) (default ∅ (plugins s) !! key)) with
    | Raise e => (s, Raise e)
    | Ok text => plugins_store key (str_or_none text) s
    end.

(** The dictionary built from the [plugins] section of the file. *)
Definition plugins_of_section (section : section_proxy) : result pydict :=
  match section_getboolean section "enabled" true with
  | Raise e => Raise e
  | Ok enabled =>
      match section_get section "root" with
      | Raise e => Raise e
      | Ok root =>
          match section_get section "include" with
          | Raise e => Raise e
          | Ok include =>
              match section_get section "exclude" with
              | Raise e => Raise e
              | Ok exclude =>
                  Ok (<["enabled"%string := JBool enabled]>
                        (<["root"%string := match root with Some r => JStr r | None => JNull end]>
                           (<["include"%string := str_or_none (default EmptyString include)]>
                              (<["exclude"%string := str_or_none (default EmptyString exclude)]>
                                 ∅))))
              end
          end
      end
  end.

(** The block of [load_config] that settles on a [plugins] dictionary. *)
Definition load_plugins_settings : CFG unit :=
  fun s =>
    if dict_truthy (plugins s) then
      (plugins_store "enabled"
         (JBool (truthy (default (JBool true) (default ∅ (plugins s) !! "enabled"%string))));+
       join_plugin_option "include";+
       join_plugin_option "exclude") s
    else
      match parser_section parser "plugins" with
      | None => (set_plugins (Some ∅) s, Ok tt)
      | Some section =>
          match plugins_of_section section with
          | Ok d => (set_plugins (Some d) s, Ok tt)
          | Raise e =>
              if exn_eqb e KeyError then (set_plugins (Some ∅) s, Ok tt)
              else (s, Raise e)
          end
      end.

(** One turn of the last loop of [load_config], over [include] and
    [exclude]. *)
Definition parse_plugin_list (key : string) : CFG unit :=
  fun s =>
    match default ∅ (plugins s) !! key with
    | None => (s, Raise KeyError)
    | Some JNull => (s, Ok tt)
    | Some (JStr text) =>
        match parse_plugin_option text with
        | Raise e => (s, Raise e)
        | Ok entries => plugins_store key entries s
        end
    | Some _ => (s, Raise AttributeError)
    end.

(** [Client.load_config]. *)
Definition load_config : CFG unit :=
  cfg_lift (match read_failure parser with Some e => Raise e | None => Ok tt end);+
  load_api_key;+
  load_option "app_version" app_version set_app_version;+
  load_option "device_model" device_model set_device_model;+
  load_option "system_version" system_version set_system_version;+
  load_option "lang_code" lang_code set_lang_code;+
  load_proxy;+
  load_plugins_settings;+
  fun s =>
    if dict_truthy (plugins s) then
      (parse_plugin_list "include";+ parse_plugin_list "exclude") s
    else (s, Ok tt).

End Config.
(** ** The download worker *)

(** [int.from_bytes(data, "little", signed=False)]. *)
Fixpoint le_unsigned (data : bytes) : Z :=
  match data with
  | [] => 0
  | b :: rest => Z.of_N (Byte.to_N b) + 256 * le_unsigned rest
  end.

(** A signed little-endian integer of [length data] bytes, as the codes
    [i] (four bytes) and [q] (eight bytes) of [struct] read it. *)
Definition le_signed (data : bytes) : Z :=
  let u := le_unsigned data in
  let bits := 8 * Z.of_nat (length data) in
  if u <? 2 ^ (bits - 1) then u else u - 2 ^ bits.

(** The fields of a decoded file id. *)
Record file_id_fields : Type := {
  fid_media_type : Z;
  fid_dc_id : Z;
  fid_id : Z;
  fid_access_hash : Z;
  fid_volume_id : option Z;
  fid_secret : option Z;
  fid_local_id : option Z
}.

(** [data[i:j]]. *)
Definition bytes_slice (i j : nat) (data : bytes) : bytes := take (j - i) (drop i data).

(** [struct.unpack("<iiqqqqi" if len(decoded) > 24 else "<iiqq", decoded)]
    followed by the assignments of the fields; [None] stands for
    [struct.error], raised when the length is not the one the format
    asks for (44 and 24 bytes). *)
Definition unpack_file_id (decoded : bytes) : option file_id_fields :=
  if (24 <? length decoded)%nat then
    if (length decoded =? 44)%nat then
      Some {| fid_media_type := le_signed (bytes_slice 0 4 decoded);
              fid_dc_id := le_signed (bytes_slice 4 8 decoded);
              fid_id := le_signed (bytes_slice 8 16 decoded);
              fid_access_hash := le_signed (bytes_slice 16 24 decoded);
              fid_volume_id := Some (le_signed (bytes_slice 24 32 decoded));
              fid_secret := Some (le_signed (bytes_slice 32 40 decoded));
              fid_local_id := Some (le_signed (bytes_slice 40 44 decoded)) |}
    else None
  else
    if (length decoded =? 24)%nat then
      Some {| fid_media_type := le_signed (bytes_slice 0 4 decoded);
              fid_dc_id := le_signed (bytes_slice 4 8 decoded);
              fid_id := le_signed (bytes_slice 8 16 decoded);
              fid_access_hash := le_signed (bytes_slice 16 24 decoded);
              fid_volume_id := None; fid_secret := None; fid_local_id := None |}
    else None.

(** How [utils.decode(file_id)], outside this file, ends: with the bytes,
    with one of the exceptions the worker turns into [FileIdInvalid]
    ([AssertionError], [binascii.Error]), or with another exception. *)
Inductive decode_outcome : Type :=
| Decoded (data : bytes)
| DecodeRejected
| DecodeFailed (e : exn).

(** What the worker is handed for one medium and what it asks of its
    surroundings: the result of [utils.decode], the directory and the base
    name [os.path.split] makes of the file name asked for, the [file_name]
    attribute of the medium if it has one, the extension
    [mimetypes.guess_extension(media.mime_type)] gives, which raises when
    the medium has no [mime_type], the timestamp and the random id that
    make up a generated name, the names of [Client.MEDIA_TYPE_ID], and the
    final path [os.path.abspath] makes of a directory and a name. *)
Record download_item : Type := {
  item_decode : decode_outcome;
  item_directory : string;
  item_base_name : string;
  item_media_file_name : option string;
  item_guessed_extension : result (option string);
  item_timestamp : string;
  item_rnd_id : string;
  media_type_id : Z -> option string;
  final_path_of : string -> string -> string
}.

(** What the first half of the body settles: the download to make, the
    [continue] of a medium whose type has no extension, or an exception. *)
Inductive download_plan : Type :=
| Fetch (fields : file_id_fields) (directory file_name : string)
| Skip
| Rejected (e : exn).

(** [x or y] on strings. *)
Definition str_or (x y : string) : string :=
  match x with
  | EmptyString => y
  | _ => x
  end.

(** [mimetypes.guess_extension(media.mime_type) or fallback]. *)
Definition guessed_or (guess : result (option string)) (fallback : string)
    : result string :=
  match guess with
  | Raise e => Raise e
  | Ok found => Ok (str_or (default EmptyString found) fallback)
  end.

(** The extension chosen for a medium without a file name; [None] is the
    [continue]. *)
Definition extension_of (media_type : Z) (guess : result (option string))
    : option (result string) :=
  if media_type =? 3 then Some (Ok ".ogg"%string)
  else if (media_type =? 4) || (media_type =? 10) || (media_type =? 13)
       then Some (guessed_or guess ".mp4")
  else if media_type =? 5 then Some (guessed_or guess ".unknown")
  else if media_type =? 8 then Some (Ok ".webp"%string)
  else if media_type =? 9 then Some (guessed_or guess ".mp3")
  else if (media_type =? 0) || (media_type =? 1) || (media_type =? 2)
       then Some (Ok ".jpg"%string)
  else None.

(** The body of [download_worker] up to the call of [get_file]. *)
Definition plan_download (item : download_item) : download_plan :=
  let directory := str_or (item_directory item) "downloads" in
  match item_decode item with
  | DecodeFailed e => Rejected e
  | DecodeRejected => Rejected FileIdInvalid
  | Decoded decoded =>
      match unpack_file_id decoded with
      | None => Rejected FileIdInvalid
      | Some fields =>
          match media_type_id item (fid_media_type fields) with
          | None => Rejected FileIdInvalid
          | Some media_type_str =>
              let file_name :=
                str_or (item_base_name item)
                  (default EmptyString (item_media_file_name item)) in
              match file_name with
              | EmptyString =>
                  match extension_of (fid_media_type fields)
                          (item_guessed_extension item) with
                  | None => Skip
                  | Some (Raise e) => Rejected e
                  | Some (Ok extension) =>
                      Fetch fields directory
                        (media_type_str +:+ "_" +:+ item_timestamp item +:+ "_"
                         +:+ item_rnd_id item +:+ extension)%string
                  end
              | _ => Fetch fields directory file_name
              end
          end
      end
  end.

Section DownloadWorker.

Variable ctr256_decrypt : bytes -> bytes -> bytes -> bytes.
Variable sha256 : bytes -> bytes.

(** The body of the loop of [Client.download_worker] for one medium taken
    from the queue: [size], [progress] and the answers of the servers are
    what [get_file] is called with, [move] whether [os.makedirs] or
    [shutil.move] fails. *)
Definition download_worker_body (item : download_item) (env : download_env)
    (size : option Z) (progress : option (Z -> Z -> option exn)) (move : option exn)
    (t : transfer) : transfer * download_report :=
  match plan_download item with
  | Rejected e =>
      (remove_temp EmptyString (with_logged (logged t ++ [e]) t),
       {| reported_path := None; done_set := true |})
  | Skip => (t, {| reported_path := None; done_set := true |})
  | Fetch fields directory file_name =>
      let '(t, got) :=
        get_file ctr256_decrypt sha256 env (fid_dc_id fields) size progress t in
      download_worker_finish got (final_path_of item directory file_name) move t
  end.

End DownloadWorker.

(** ** The first dialogs *)

(** The two requests [get_initial_dialogs] issues. [GetDialogs] is always
    sent with [offset_id=0], [offset_peer=InputPeerEmpty()], [hash=0] and
    [exclude_pinned=True]; the two fields that vary are kept. *)
Inductive dialogs_request : Type :=
| GetPinnedDialogs
| GetDialogs (offset_date : Z) (limit : Z).

(** A page of dialogs as the client reads it: [len(dialogs.dialogs)] and
    what [utils.get_offset_date] finds in it. *)
Record dialogs_page : Type := {
  dialogs_len : nat;
  offset_date_of : Z
}.

(** How [send] ends for one of these requests: an answer, a [FloodWait] of
    [x] seconds, or another exception. *)
Inductive dialogs_answer : Type :=
| Answered (page : dialogs_page)
| FloodWait (x : Z)
| Refused (e : exn).

(** What the client does while it fetches the dialogs: the requests it
    sends, [log.warning] and [asyncio.sleep] on a flood, [log.info] on an
    answer. *)
Inductive dialogs_event : Type :=
| Sent (r : dialogs_request)
| Warned (x : Z)
| Slept (x : Z)
| Informed.

(** How the coroutine ends: it returns, a [FloodWait] or another exception
    comes out of it, or it is left waiting for an answer. *)
Inductive dialogs_end (A : Type) : Type :=
| Fetched (a : A)
| FloodRaised (x : Z)
| ErrorRaised (e : exn)
| Unanswered.
Arguments Fetched {A} a.
Arguments FloodRaised {A} x.
Arguments ErrorRaised {A} e.
Arguments Unanswered {A}.

(** The answers still to come, and what the client has done so far. *)
Definition dialogs_run (A : Type) : Type :=
  list dialogs_answer * list dialogs_event * dialogs_end A.

Section Dialogs.

Variable DIALOGS_AT_ONCE : Z.

(** [Client.get_initial_dialogs_chunk]. *)
Fixpoint get_initial_dialogs_chunk (offset_date : Z) (answers : list dialogs_answer)
    (events : list dialogs_event) : dialogs_run dialogs_page :=
  let events := events ++ [Sent (GetDialogs offset_date DIALOGS_AT_ONCE)] in
  match answers with
  | [] => ([], events, Unanswered)
  | FloodWait x :: answers =>
      get_initial_dialogs_chunk offset_date answers (events ++ [Warned x; Slept x])
  | Refused e :: answers => (answers, events, ErrorRaised e)
  | Answered r :: answers => (answers, events ++ [Informed], Fetched r)
  end.

(** The [while] loop of [get_initial_dialogs]. Every turn uses up an
    answer, so [turns] bounds them by the answers that are left. *)
Fixpoint paging (turns : nat) (dialogs : dialogs_page) (offset_date : Z)
    (answers : list dialogs_answer) (events : list dialogs_event) : dialogs_run unit :=
  if bool_decide (Z.of_nat (dialogs_len dialogs) = DIALOGS_AT_ONCE) then
    match turns with
    | O => (answers, events, Unanswered)
    | S turns =>
        match get_initial_dialogs_chunk offset_date answers events with
        | (answers, events, Fetched dialogs) =>
            paging turns dialogs (offset_date_of dialogs) answers events
        | (answers, events, FloodRaised x) => (answers, events, FloodRaised x)
        | (answers, events, ErrorRaised e) => (answers, events, ErrorRaised e)
        | (answers, events, Unanswered) => (answers, events, Unanswered)
        end
    end
  else (answers, events, Fetched tt).

(** [Client.get_initial_dialogs]. *)
Definition get_initial_dialogs (answers : list dialogs_answer)
    (events : list dialogs_event) : dialogs_run unit :=
  let events := events ++ [Sent GetPinnedDialogs] in
  match answers with
  | [] => ([], events, Unanswered)
  | FloodWait x :: answers => (answers, events, FloodRaised x)
  | Refused e :: answers => (answers, events, ErrorRaised e)
  | Answered _ :: answers =>
      match get_initial_dialogs_chunk 0 answers events with
      | (answers, events, Fetched dialogs) =>
          match paging (S (length answers)) dialogs (offset_date_of dialogs)
                  answers events with
          | (answers, events, Fetched _) =>
              match get_initial_dialogs_chunk 0 answers events with
              | (answers, events, Fetched _) => (answers, events, Fetched tt)
              | (answers, events, FloodRaised x) => (answers, events, FloodRaised x)
              | (answers, events, ErrorRaised e) => (answers, events, ErrorRaised e)
              | (answers, events, Unanswered) => (answers, events, Unanswered)
              end
          | other => other
          end
      | (answers, events, FloodRaised x) => (answers, events, FloodRaised x)
      | (answers, events, ErrorRaised e) => (answers, events, ErrorRaised e)
      | (answers, events, Unanswered) => (answers, events, Unanswered)
      end
  end.

End Dialogs.

(** ** Logging a bot in *)

(** The attributes [authorize_bot] reads and writes, with the data center
    the current session object was built for, the data centers
    [auth.ImportBotAuthorization] was sent to and the lines printed. *)
Record bot_login : Type := {
  bl_is_started : bool;
  bl_session : session_state;
  bl_session_dc : Z;
  bl_dc_id : Z;
  bl_auth_key : bytes;
  bl_user_id : option Z;
  bl_imports : list Z;
  bl_printed : list string
}.

Definition bl_with_session (s : session_state) (dc : Z) (c : bot_login) : bot_login :=
  {| bl_is_started := bl_is_started c; bl_session := s; bl_session_dc := dc;
     bl_dc_id := bl_dc_id c; bl_auth_key := bl_auth_key c;
     bl_user_id := bl_user_id c; bl_imports := bl_imports c;
     bl_printed := bl_printed c |}.

Definition bl_with_dc_id (dc : Z) (c : bot_login) : bot_login :=
  {| bl_is_started := bl_is_started c; bl_session := bl_session c;
     bl_session_dc := bl_session_dc c; bl_dc_id := dc;
     bl_auth_key := bl_auth_key c; bl_user_id := bl_user_id c;
     bl_imports := bl_imports c; bl_printed := bl_printed c |}.

Definition bl_with_auth_key (key : bytes) (c : bot_login) : bot_login :=
  {| bl_is_started := bl_is_started c; bl_session := bl_session c;
     bl_session_dc := bl_session_dc c; bl_dc_id := bl_dc_id c;
     bl_auth_key := key; bl_user_id := bl_user_id c;
     bl_imports := bl_imports c; bl_printed := bl_printed c |}.

Definition bl_with_imports (l : list Z) (c : bot_login) : bot_login :=
  {| bl_is_started := bl_is_started c; bl_session := bl_session c;
     bl_session_dc := bl_session_dc c; bl_dc_id := bl_dc_id c;
     bl_auth_key := bl_auth_key c; bl_user_id := bl_user_id c;
     bl_imports := l; bl_printed := bl_printed c |}.

Definition bl_logged_in (id : Z) (line : string) (c : bot_login) : bot_login :=
  {| bl_is_started := bl_is_started c; bl_session := bl_session c;
     bl_session_dc := bl_session_dc c; bl_dc_id := bl_dc_id c;
     bl_auth_key := bl_auth_key c; bl_user_id := Some id;
     bl_imports := bl_imports c; bl_printed := bl_printed c ++ [line] |}.

(** One call of [authorize_bot] as the outside sees it: the server lets the
    bot in, refuses, or names the data center [x] the bot lives on; in that
    case the turn also tells how [Auth(...).create()] and the start of the
    new session end. *)
Inductive bot_turn : Type :=
| BotAuthorized (id : Z) (username : option string)
| BotRefused (e : exn)
| UserMigrate (x : Z) (created : result bytes) (starting : option exn).

(** [Client.authorize_bot]. [send] refuses to work on a client that is not
    started, and leaves the coroutine waiting when no answer comes. *)
Fixpoint authorize_bot (turns : list bot_turn) (c : bot_login) : bot_login * outcome unit :=
  if negb (bl_is_started c) then (c, Raised ConnectionError)
  else
    let c := bl_with_imports (bl_imports c ++ [bl_session_dc c]) c in
    match turns with
    | [] => (c, Pending)
    | BotAuthorized id username :: _ =>
        (bl_logged_in id ("Logged in successfully as @" +:+ default "None" username) c,
         Returned tt)
    | BotRefused e :: _ => (c, Raised e)
    | UserMigrate x created starting :: turns =>
        match session_stop (bl_session c) with
        | (s, Raise e) => (bl_with_session s (bl_session_dc c) c, Raised e)
        | (s, Ok _) =>
            let c := bl_with_dc_id x (bl_with_session s (bl_session_dc c) c) in
            match created with
            | Raise e => (c, Raised e)
            | Ok key =>
                let c := bl_with_auth_key key c in
                let c := bl_with_session Created (bl_dc_id c) c in
                match session_start starting (bl_session c) with
                | (s, Raise e) => (bl_with_session s (bl_session_dc c) c, Raised e)
                | (s, Ok _) => authorize_bot turns (bl_with_session s (bl_session_dc c) c)
                end
            end
        end
    end.

(** ** Inputs used in the statements below *)

(** A channel update that carries [channel_id] and [pts] and is not an
    [UpdateNewChannelMessage] (say an [UpdateEditChannelMessage] or an
    [UpdateDeleteChannelMessages]). *)
Definition channel_update (channel_id pts : Z) : update :=
  {| upd_class := UpdateOther 0; upd_message := None;
     upd_channel_id := Some channel_id; upd_pts := Some pts;
     upd_pts_count := Some 1 |}.

(** Each update pushed in an envelope of its own, followed by nothing. *)
Definition feed (channel_id : Z) (ptss : list Z) : list (option envelope) :=
  map (fun pts => Some (Updates [channel_update channel_id pts] [] [])) ptss.

(** A server that refuses every request. *)
Definition offline : list request -> request -> result response :=
  fun _ _ => Raise ConnectionError.

(** A server that gives the same answer to every request. *)
Definition always (r : response) : list request -> request -> result response :=
  fun _ _ => Ok r.



(** A started client. *)
Definition started (c : client) : client :=
  {| peers_by_id := peers_by_id c; peers_by_username := peers_by_username c;
     peers_by_phone := peers_by_phone c; channels_pts := channels_pts c;
     is_started := true; no_updates := no_updates c;
     takeout_id := takeout_id c; requests := requests c;
     updates_queue := updates_queue c; errors := errors c |}.

(** The numeric id the directory uses for an entity: the user id, the
    negated chat id, the remapped channel id. *)
Definition directory_id (e : entity) : option Z :=
  match e with
  | User id _ _ _ => Some id
  | Chat id | ChatForbidden id => Some (- id)
  | Channel id _ _ | ChannelForbidden id _ =>
      match channel_peer_id id with Ok peer => Some peer | Raise _ => None end
  | OtherEntity => None
  end.

(** A user or a channel whose access hash is absent. *)
Definition lacks_access_hash (e : entity) : bool :=
  match e with
  | User _ None _ _ | Channel _ None _ | ChannelForbidden _ None => true
  | _ => false
  end.

(** The key of [peers_by_id] an entity is cached under, if it is cached. *)
Definition stored_key (e : entity) : option Z :=
  if lacks_access_hash e then None else directory_id e.

(** An entity [fetch_peers] handles without raising: the id of a channel is
    not negative, so that the remapped id is a numeral. *)
Definition remappable (e : entity) : bool :=
  match e with
  | Channel id _ _ | ChannelForbidden id _ => 0 <=? id
  | _ => true
  end.

(** A reference that has the access hash its kind requires. *)
Definition well_addressed (p : input_peer) : bool :=
  match p with
  | InputPeerUser _ None | InputPeerChannel _ None => false
  | _ => true
  end.


(** The [UpdateNewMessage] the worker builds around a message of a
    difference. *)
Definition new_message_update (m : message) (pts pts_count : Z) : update :=
  {| upd_class := UpdateNewMessage; upd_message := Some m;
     upd_channel_id := None; upd_pts := Some pts; upd_pts_count := Some pts_count |}.

(** A response that has the attributes of an [updates.Difference] or an
    [updates.DifferenceSlice] (messages, other updates, chats and users), or
    none of them like [updates.DifferenceEmpty] and
    [updates.DifferenceTooLong]. *)
Definition difference_shaped (r : response) : bool :=
  match r_new_messages r, r_other_updates r, r_users r, r_chats r with
  | Some _, Some _, Some _, Some _ => true
  | None, None, None, None => true
  | _, _, _, _ => false
  end.

(** What the specification says a short envelope delivers, given the
    difference the server returned: the first new message if there is one,
    else the first other update if there is one, else nothing. *)
Definition expected_short_delivery (pts pts_count : Z) (diff : response) : list dispatched :=
  match default [] (r_new_messages diff) with
  | m :: _ =>
      [(new_message_update m pts pts_count,
        default [] (r_users diff), default [] (r_chats diff))]
  | [] =>
      match default [] (r_other_updates diff) with
      | o :: _ => [(o, [], [])]
      | [] => []
      end
  end.

(** An [updates.Difference] response. *)
Definition difference_response (new_messages : list message) (other_updates : list update)
    (users chats : list entity) : response :=
  {| r_users := Some users; r_chats := Some chats; r_items := None;
     r_new_messages := Some new_messages; r_other_updates := Some other_updates;
     r_is_channel_difference_empty := false |}.

(** A logged-in user session on data center 2 with one cached peer. *)
Definition example_session : session :=
  {| workdir := "."; session_name := "my_account";
     dc_id := JInt 2; test_mode := JBool false;
     auth_key := [x00; x01; xfe; xff; x10; x20; x30];
     user_id := JInt 23122162; date := JInt 1554000000; is_bot := JBool false;
     stored_by_id := {[ 23122162 := InputPeerUser 23122162 (Some 77) ]};
     stored_by_username := ∅; stored_by_phone := ∅ |}.

(** The same client before anything was loaded into it. *)
Definition blank_session : session :=
  {| workdir := "."; session_name := "my_account";
     dc_id := JNull; test_mode := JBool true; auth_key := [];
     user_id := JNull; date := JNull; is_bot := JNull;
     stored_by_id := ∅; stored_by_username := ∅; stored_by_phone := ∅ |}.

(** A stand-in for [utils.get_input_peer]: a user reference whose access
    hash is the stored value. *)
Definition user_peer_of (id : Z) (blob : json) : result input_peer :=
  match blob with
  | JInt h => Ok (InputPeerUser id (Some h))
  | _ => Raise TypeError
  end.

(** A stand-in for the key negotiation: it always fails. *)
Definition no_negotiation (dc : Z) : result bytes := Raise ConnectionError.

(** A session file that also holds the three peer maps, one entry each. *)
Definition record_with_peers (s : session) (key : string) (blob : json)
    (name phone : string) (id : Z) : json :=
  match session_record s with
  | JDict items =>
      JDict (items ++ [("peers_by_id"%string, JDict [(key, blob)]);
                       ("peers_by_username"%string, JDict [(name, JInt id)]);
                       ("peers_by_phone"%string, JDict [(phone, JInt id)])])
  | other => other
  end.

(** A stand-in for [hashlib.md5] and [hashlib.sha256]: the first four bytes
    of what is fed. *)
Definition toy_digest (data : bytes) : bytes := take 4 data.

(** A stand-in for [AES.ctr256_decrypt]: the bytes in reverse order. *)
Definition toy_decrypt (data key iv : bytes) : bytes := reverse data.

(** A three-byte file and a pool whose sessions start. *)
Definition small_file_env : upload_env :=
  {| file_content := Some [x61; x62; x63]; file_basename := "abc.txt";
     fresh_id := 4242; pool_start := fun _ => None |}.

(** A download the origin serves itself: the first answer is a chunk, the
    others follow. *)
Definition plain_download (sessions : session_env) (name : string)
    (first : bytes) (later : list (result file_answer)) : download_env :=
  {| sessions := sessions; first_answer := Ok (UploadFile first);
     later_answers := later; cdn_turns := []; temp_name := Ok name |}.

(** A download the origin redirects to a CDN. *)
Definition cdn_download (sessions : session_env) (name : string) (dc : Z)
    (file_token encryption_key encryption_iv : bytes) (turns : list cdn_turn)
    : download_env :=
  {| sessions := sessions;
     first_answer := Ok (FileCdnRedirect dc file_token encryption_key encryption_iv);
     later_answers := []; cdn_turns := turns; temp_name := Ok name |}.

(** Sessions that are created without a failure. *)
Definition reliable_sessions : session_env :=
  {| export_authorization := fun _ => Ok tt; negotiate_key := fun _ => Ok tt;
     start_session := fun _ => Ok tt; import_authorization := fun _ => Ok tt |}.

(** A client on data center 2 with no media session and no file. *)
Definition idle_transfer : transfer :=
  {| own_dc_id := 2; media_sessions := ∅; temp_files := ∅; logged := [] |}.

(** A CDN turn that serves a chunk with the hashes of its parts. *)
Definition chunk_turn (data : bytes) (hashes : list file_hash) : cdn_turn :=
  {| turn_file := Ok (CdnFile data); turn_reupload := Ok tt; turn_hashes := Ok hashes |}.


(** A CDN turn that asks for a re-upload, which the origin grants. *)
Definition reupload_turn (request_token : bytes) : cdn_turn :=
  {| turn_file := Ok (CdnFileReuploadNeeded request_token);
     turn_reupload := Ok tt; turn_hashes := Ok [] |}.

(** A client that was never started. *)
Definition fresh_lifecycle : lifecycle :=
  {| lc_is_started := false; lc_session := Created; lc_user_id := None;
     lc_is_bot := None; lc_bot_token := None; lc_takeout := None;
     lc_takeout_id := None; lc_peers_by_username := ∅; lc_peers_by_phone := ∅;
     lc_updates_worker_task := false; lc_download_worker_tasks := 0;
     lc_dispatcher_started := false; lc_syncer_added := false |}.

(** ** What an entity writes to the directory *)

(** The reference [fetch_peers] builds for an entity. *)
Definition cached_peer (e : entity) : input_peer :=
  match e with
  | User id access_hash _ _ => InputPeerUser id access_hash
  | Chat id | ChatForbidden id => InputPeerChat id
  | Channel id access_hash _ | ChannelForbidden id access_hash =>
      InputPeerChannel id access_hash
  | OtherEntity => InputPeerEmpty
  end.

(** The key of [peers_by_username] an entity is cached under, if any: the
    lower-cased username of a user or channel that has an access hash. *)
Definition stored_username (e : entity) : option string :=
  match e with
  | User _ (Some _) (Some name) _ | Channel _ (Some _) (Some name) =>
      Some (Py.lower name)
  | _ => None
  end.

(** The key of [peers_by_phone] an entity is cached under, if any. *)
Definition stored_phone (e : entity) : option string :=
  match e with
  | User _ (Some _) _ (Some phone) => Some phone
  | _ => None
  end.

(** [m[key] = value] when there is a key. *)
Definition store {K} `{Countable K} {V} (key : option K) (value : V) (m : gmap K V)
    : gmap K V :=
  match key with
  | Some k => <[k := value]> m
  | None => m
  end.

(** The map after a run of writes, in order. *)
Definition written {K} `{Countable K} {V E} (key : E -> option K) (value : E -> V)
    (m : gmap K V) (l : list E) : gmap K V :=
  foldl (fun m e => store (key e) (value e) m) m l.

(** The client with its three maps replaced. *)
Definition with_directory_maps (by_id : gmap Z input_peer)
    (by_username by_phone : gmap string input_peer) (c : client) : client :=
  set_peers_by_phone by_phone (set_peers_by_username by_username (set_peers_by_id by_id c)).

(** ** What a computation keeps *)

(** A relation between the client before and the client after that a
    computation maintains, whether it returns or raises. *)
Definition keeps {A} (R : client -> client -> Prop) (m : M A) : Prop :=
  forall c, R c (fst (m c)).

(** The client only grows: what was sent, delivered or logged stays where
    it is, in its order, and the settings [send] reads are not touched. *)
Definition grows (c c' : client) : Prop :=
  requests c `prefix_of` requests c'
  /\ updates_queue c `prefix_of` updates_queue c'
  /\ errors c `prefix_of` errors c'
  /\ is_started c' = is_started c
  /\ no_updates c' = no_updates c
  /\ takeout_id c' = takeout_id c.

(** Every history of the tracker is free of duplicates and holds at most
    fifty sequence numbers. *)
Definition histories_bounded (c : client) : Prop :=
  map_Forall (fun _ h => NoDup h /\ (length h <= 50)%nat) (channels_pts c).

(** The relation the reconciler maintains. *)
Definition tame (c c' : client) : Prop :=
  grows c c' /\ (histories_bounded c -> histories_bounded c').

(** The updates handed to the dispatcher so far, oldest first, without the
    user and chat lists that travel with them. *)
Definition delivered (c : client) : list update :=
  map (fun item : dispatched => item.1.1) (updates_queue c).
(** ** More about transfers *)

(** The temporary files of [t] are those of [files] except perhaps the one
    called [name]. *)
Definition same_files_but (name : string) (files : gmap string bytes) (t : transfer) : Prop :=
  forall k, k <> name -> temp_files t !! k = files !! k.

(** The state of a loop of [get_file] when it has written to its own
    temporary file only. *)
Definition writes_only (name : string) (files : gmap string bytes) (s : Z * transfer) : Prop :=
  same_files_but name files s.2 /\ is_Some (temp_files s.2 !! name).

(** The requests [save_file] put on the queue, in order, sentinels left
    out. *)
Definition sent_parts (events : list upload_event) : list upload_rpc :=
  omap (fun ev => match ev with Put (Some rpc) => Some rpc | _ => None end) events.

(** The file cut into the parts [save_file] reads: every [part_size] bytes,
    from part [first] up to part [first + count - 1]. *)
Definition file_parts (data : bytes) (first count : nat) : list bytes :=
  map (fun i => take (Z.to_nat part_size) (drop (i * Z.to_nat part_size) data))
    (seq first count).

(** [int(math.ceil(file_size / part_size))] for the sizes [save_file]
    accepts, where the float division is exact enough. *)
Definition total_parts (data : bytes) : Z :=
  (Z.of_nat (length data) + part_size - 1) / part_size.

(** The request [save_file] builds for part [i] of a file. *)
Definition part_rpc (is_big : bool) (file_id total : Z) (data : bytes) (i : nat)
    : upload_rpc :=
  let chunk := take (Z.to_nat part_size) (drop (i * Z.to_nat part_size) data) in
  if is_big then SaveBigFilePart file_id (Z.of_nat i) total chunk
  else SaveFilePart file_id (Z.of_nat i) chunk.

(** A progress callback that never raises, or none. *)
Definition quiet (progress : option (Z -> Z -> option exn)) : Prop :=
  forall callback, progress = Some callback -> forall current total, callback current total = None.

Section CdnPlain.

Variable ctr256_decrypt : bytes -> bytes -> bytes -> bytes.
Variable sha256 : bytes -> bytes.

(** The chunk a CDN serves at [offset], decrypted, when the counter fits in
    four bytes and every part matches its hash. *)
Definition cdn_plain (key encryption_iv : bytes) (offset : Z) (chunk : bytes)
    (hashes : list file_hash) : option bytes :=
  match counter_iv encryption_iv offset with
  | Ok iv =>
      let decrypted := ctr256_decrypt chunk key iv in
      if verify_parts sha256 0 hashes decrypted then Some decrypted else None
  | Raise _ => None
  end.

(** The chunks a CDN serves one after the other from [offset] on,
    decrypted, when each of them passes. *)
Fixpoint cdn_plains (key encryption_iv : bytes) (offset : Z)
    (served : list (bytes * list file_hash)) : option (list bytes) :=
  match served with
  | [] => Some []
  | (chunk, hashes) :: rest =>
      match cdn_plain key encryption_iv offset chunk hashes,
            cdn_plains key encryption_iv (offset + limit) rest with
      | Some decrypted, Some others => Some (decrypted :: others)
      | _, _ => None
      end
  end.

End CdnPlain.
(** ** More inputs for the life cycle *)

(** A first log-in of a user that goes through: the session starts, the
    authorization returns the user id with the session still running, the
    client was not away for long, and the dispatcher and the syncer start. *)
Definition plain_login : start_env :=
  {| name_is_token := None; loading := Ok None; session_starting := None;
     authorization := (Running, Ok 23122162); saving := None;
     takeout_init := Ok 1; long_offline := Ok false; full_sync := None;
     quick_sync := None; get_state := None; dispatcher_start := None;
     syncer_add := None; download_workers := 4 |}.



(** A shutdown whose dispatcher fails to stop. *)
Definition stuck_dispatcher : stop_env :=
  {| takeout_finish := None; syncer_remove := None; dispatcher_stop := Some OSError;
     download_workers_join := Returned tt; updates_worker_join := Returned tt |}.


(** ** Inputs and notions for the configuration *)

(** A relation between the settings before and after that a computation
    maintains, whether it returns or raises. *)
Definition cfg_keeps {A} (R : settings -> settings -> Prop) (m : CFG A) : Prop :=
  forall s, R s (fst (m s)).

(** The API key is left alone. *)
Definition same_api_key (s s' : settings) : Prop :=
  api_id s' = api_id s /\ api_hash s' = api_hash s.

(** The [plugins] attribute is left alone. *)
Definition same_plugins (s s' : settings) : Prop := plugins s' = plugins s.

(** A word: not empty and free of white space. *)
Fixpoint no_space (w : string) : bool :=
  match w with
  | EmptyString => true
  | String c w' => negb (PyText.is_space c) && no_space w'
  end.

Definition is_word (w : string) : bool :=
  match w with
  | EmptyString => false
  | _ => no_space w
  end.

(** An entry of a plugin list as the user means it: a module path and the
    names of the handlers to take from it, none for all of them. *)
Definition plugin_spec : Type := string * list string.

Definition well_formed (entry : plugin_spec) : bool :=
  is_word entry.1 && forallb is_word entry.2.

(** The line that names an entry: the path and the handlers, separated by
    one blank. *)
Definition plugin_line (entry : plugin_spec) : string :=
  PyText.join " " (entry.1 :: entry.2).

(** The tuple [load_config] makes of an entry, written as a list. *)
Definition plugin_tuple (entry : plugin_spec) : json :=
  JList [JStr entry.1;
         match entry.2 with
         | [] => JNull
         | handlers => JList (map JStr handlers)
         end].

(** A configuration file without any section. *)
Definition empty_parser : config_parser :=
  {| read_failure := None; has_section := fun _ => false;
     parser_get := fun _ _ => Raise KeyError;
     parser_getint := fun _ _ => Raise KeyError;
     parser_get_fallback := fun _ _ => Ok None;
     parser_getboolean_fallback := fun _ _ => Ok None;
     parser_section := fun _ => None |}.

(** A configuration file whose [pyrogram] section holds an API key. *)
Definition key_parser : config_parser :=
  {| read_failure := None;
     has_section := fun name => String.eqb name "pyrogram";
     parser_get := fun _ _ => Ok "0123456789abcdef0123456789abcdef"%string;
     parser_getint := fun _ _ => Ok 12345;
     parser_get_fallback := fun _ _ => Ok None;
     parser_getboolean_fallback := fun _ _ => Ok None;
     parser_section := fun _ => None |}.

(** The constants of the class, by option. *)
Definition example_constants (name : string) : string := ("default " +:+ name)%string.

(** A client created with an API key and a plugins dictionary. *)
Definition example_settings (include : json) : settings :=
  {| api_id := Some 12345; api_hash := Some "0123456789abcdef0123456789abcdef"%string;
     app_version := None; device_model := None; system_version := None;
     lang_code := None; _proxy := None;
     plugins := Some {[ "root"%string := JStr "plugins"; "include"%string := include ]} |}.

(** A client created with an API id only. *)
Definition lone_id_settings : settings :=
  {| api_id := Some 777; api_hash := None;
     app_version := None; device_model := None; system_version := None;
     lang_code := None; _proxy := None; plugins := None |}.

(** A string in which a character does not occur. *)
Fixpoint free_of (c0 : ascii) (s : string) : bool :=
  match s with
  | EmptyString => true
  | String c s' => negb (Ascii.eqb c c0) && free_of c0 s'
  end.

(** A string that does not end in white space. *)
Fixpoint ends_tight (s : string) : bool :=
  match s with
  | EmptyString => true
  | String c EmptyString => negb (PyText.is_space c)
  | String _ s' => ends_tight s'
  end.

(** A string that does not start with white space and is not empty. *)
Definition starts_tight (s : string) : bool :=
  match s with
  | EmptyString => false
  | String c _ => negb (PyText.is_space c)
  end.

(** A line [strip] and [split("\n")] leave whole. *)
Definition tight_line (s : string) : bool :=
  starts_tight s && ends_tight s && free_of PyText.newline s.

(** What ["\n".join] refuses: [None], and a list that starts with a
    tuple. *)
Definition unjoinable (v : json) : Prop :=
  v = JNull \/ exists items rest, v = JList (JList items :: rest).
(** ** Inputs for the download worker *)

(** A medium whose file id decodes to the given bytes, to be saved under
    the given directory and name, with the names of the media types known
    to the client. *)
Definition item_with (decoded : bytes) (directory base_name : string) : download_item :=
  {| item_decode := Decoded decoded;
     item_directory := directory; item_base_name := base_name;
     item_media_file_name := None;
     item_guessed_extension := Ok None;
     item_timestamp := "2019-04-01_12-00-00"; item_rnd_id := "42";
     media_type_id := fun media_type =>
       if media_type =? 5 then Some "document"%string
       else if media_type =? 2 then Some "photo"%string else None;
     final_path_of := fun directory name => ("/home/" +:+ directory +:+ "/" +:+ name)%string |}.

(** The 24 bytes of a document id: media type 5, data center 2, id 7,
    access hash 9. *)
Definition document_id_bytes : bytes :=
  [x05; x00; x00; x00; x02; x00; x00; x00;
   x07; x00; x00; x00; x00; x00; x00; x00;
   x09; x00; x00; x00; x00; x00; x00; x00].

(** *** Pages of dialogs *)

(** A page as the server serves it: the floods it answers with first, then
    the page. *)
Definition chunk_answers (served : list Z * dialogs_page) : list dialogs_answer :=
  map FloodWait served.1 ++ [Answered served.2].

(** What fetching such a page at [offset_date] looks like: the request is
    repeated after every flood, once the client has slept it out. *)
Definition chunk_events (at_once offset_date : Z) (served : list Z * dialogs_page)
    : list dialogs_event :=
  flat_map (fun x => [Sent (GetDialogs offset_date at_once); Warned x; Slept x]) served.1
  ++ [Sent (GetDialogs offset_date at_once); Informed].

(** Fetching pages one after the other, each from the offset date of the
    one before. *)
Fixpoint paging_events (at_once offset_date : Z) (pages : list (list Z * dialogs_page))
    : list dialogs_event :=
  match pages with
  | [] => []
  | served :: rest =>
      chunk_events at_once offset_date served
      ++ paging_events at_once (offset_date_of served.2) rest
  end.

(** *** Migrations of a bot *)

(** A migration to [to.1] that goes through, [to.2] being the key agreed
    with that data center. *)
Definition smooth_migration (to : Z * bytes) : bot_turn :=
  UserMigrate to.1 (Ok to.2) None.

(** A bot client as [start] hands it to [authorize_bot]: started, its
    session running on data center 2. *)
Definition bot_at_two : bot_login :=
  {| bl_is_started := true; bl_session := Running; bl_session_dc := 2;
     bl_dc_id := 2; bl_auth_key := [x01]; bl_user_id := None;
     bl_imports := []; bl_printed := [] |}.

(** * Lemmas and theorems *)

(** ** The channel sequence tracker *)

Section TrackerFacts.

Variable session_send : list request -> request -> result response.

(** The history recorded for a channel, empty when there is none. *)
Local Notation "'history_of' c cid" := (default [] (channels_pts c !! cid)) (at level 10, c at level 9, cid at level 9, only parsing).

Lemma track_pts_seen history pts :
  pts ∈ history -> track_pts history pts = None.
Proof.
  intros Hin. unfold track_pts. by rewrite bool_decide_eq_true_2.
Qed.



(** One envelope holding one update that has a channel and a sequence
    number and needs no re-fetch. *)
Lemma step_plain_update u cid pts c :
  upd_class u <> UpdateNewChannelMessage ->
  update_channel_id u = Some cid -> upd_pts u = Some pts ->
  cid <> 0 -> pts <> 0 ->
  updates_worker_step session_send (Updates [u] [] []) c =
    match track_pts (history_of c cid) pts with
    | None => set_channels_pts (<[cid := history_of c cid]> (channels_pts c)) c
    | Some h =>
        set_updates_queue (updates_queue c ++ [(u, [], [])])
          (set_channels_pts (<[cid := h]> (channels_pts c)) c)
    end.
Proof.
  intros Hclass Hcid Hpts Hc Hp. apply Z.eqb_neq in Hc, Hp.
  rewrite /updates_worker_step /handle_envelope /handle_updates /handle_update
    Hcid Hpts /bind /get /modify /ret /=.
  destruct (upd_class u); try done; rewrite /= Hc Hp /=;
    destruct (track_pts _ pts); reflexivity.
Qed.

(** One envelope holding one plain channel update. *)
Lemma step_channel_update cid pts c :
  cid <> 0 -> pts <> 0 ->
  updates_worker_step session_send (Updates [channel_update cid pts] [] []) c =
    match track_pts (history_of c cid) pts with
    | None => set_channels_pts (<[cid := history_of c cid]> (channels_pts c)) c
    | Some h =>
        set_updates_queue (updates_queue c ++ [(channel_update cid pts, [], [])])
          (set_channels_pts (<[cid := h]> (channels_pts c)) c)
    end.
Proof. intros Hc Hp. by apply step_plain_update. Qed.


Lemma step_history_seen cid pts c :
  cid <> 0 -> pts <> 0 -> pts ∈ history_of c cid ->
  let c' := updates_worker_step session_send (Updates [channel_update cid pts] [] []) c in
  updates_queue c' = updates_queue c /\ history_of c' cid = history_of c cid.
Proof.
  intros Hc Hp Hin. rewrite /= step_channel_update // track_pts_seen //=.
  by rewrite lookup_insert_eq.
Qed.




End TrackerFacts.

Section TrackerTheorem.

Variable session_send : list request -> request -> result response.


End TrackerTheorem.




(** ** The peer directory *)

(** The remapped id of a channel is the numeral made of ["-100"] and the
    digits of the channel id. *)
Lemma channel_peer_id_ok (K : Z) :
  0 <= K ->
  exists peer, channel_peer_id K = Ok peer
               /\ Py.str peer = ("-100" +:+ Py.str K)%string
               /\ peer < 0.
Proof.
  intros HK.
  assert (exists u, Z.to_int K = Pos u /\ u <> Nil) as (u & Hu & Hnil).
  { destruct K as [|q|q]; [| |lia].
    - by exists (D0 Nil).
    - exists (Pos.to_uint q). split; [done|]. apply DecimalPos.Unsigned.to_uint_nonnil. }
  assert (Hstr : Py.str K = NilEmpty.string_of_uint u).
  { rewrite /Py.str Hu /=. by destruct u. }
  set (d := D1 (D0 (D0 u))).
  assert (Hparse : NilZero.int_of_string ("-100" +:+ Py.str K) = Some (Neg d)).
  { rewrite Hstr /= NilEmpty.usu. reflexivity. }
  exists (Z.of_int (Neg d)). split; [|split].
  - rewrite /channel_peer_id /Py.int. cbn [String.append].
    change (String "-" (String "1" (String "0" (String "0" (Py.str K)))))
      with ("-100" +:+ Py.str K)%string.
    by rewrite Hparse.
  - rewrite /Py.str DecimalZ.to_of. apply NilZero.sis. exact Hparse.
  - cbn. rewrite /Z.of_uint /=. destruct (Pos.of_uint_acc u 1); lia.
Qed.

Lemma remappable_channel_peer_id (K : Z) :
  0 <= K -> exists peer, channel_peer_id K = Ok peer.
Proof. intros HK. destruct (channel_peer_id_ok K HK) as (p & Hp & _). eauto. Qed.


Lemma fetch_peers_app (l1 l2 : list entity) (c : client) :
  fetch_peers (l1 ++ l2) c =
    match fetch_peers l1 c with
    | (c1, Ok _) => fetch_peers l2 c1
    | (c1, Raise e) => (c1, Raise e)
    end.
Proof.
  revert c. induction l1 as [|e l1 IH]; intros c; [done|].
  cbn [app fetch_peers]. rewrite /bind. destruct (fetch_peer e c) as [c1 [[]|x]]; [|done].
  apply IH.
Qed.


(** What [fetch_peer] does to the client: the outcome of every case. *)
Lemma fetch_peer_cases (e : entity) (c : client) :
  (fetch_peer e c = (c, Ok tt) /\ stored_key e = None)
  \/ (exists x, fetch_peer e c = (c, Raise x) /\ remappable e = false)
  \/ (exists k p c', fetch_peer e c = (c', Ok tt)
        /\ stored_key e = Some k /\ well_addressed p = true
        /\ peers_by_id c' = <[k := p]> (peers_by_id c)
        /\ (peers_by_username c' = peers_by_username c
            \/ exists u, peers_by_username c' = <[u := p]> (peers_by_username c))
        /\ (peers_by_phone c' = peers_by_phone c
            \/ exists n, peers_by_phone c' = <[n := p]> (peers_by_phone c))
        /\ channels_pts c' = channels_pts c /\ is_started c' = is_started c
        /\ no_updates c' = no_updates c /\ takeout_id c' = takeout_id c
        /\ requests c' = requests c /\ updates_queue c' = updates_queue c
        /\ errors c' = errors c).
Proof.
  destruct e as [id [h|] name phone|id|id|id h name|id h|].
  - right; right. exists id, (InputPeerUser id (Some h)).
    destruct name, phone; eexists; cbn; repeat split; eauto.
  - left. done.
  - right; right. exists (- id), (InputPeerChat id). eexists; cbn; repeat split; eauto.
  - right; right. exists (- id), (InputPeerChat id). eexists; cbn; repeat split; eauto.
  - destruct (Z.leb_spec 0 id) as [Hid|Hid].
    + destruct (remappable_channel_peer_id id Hid) as [p Hp].
      destruct h as [h|].
      * right; right. exists p, (InputPeerChannel id (Some h)).
        rewrite /fetch_peer /stored_key /= Hp.
        destruct name; eexists; cbn; repeat split; eauto.
      * left. by rewrite /fetch_peer Hp.
    + destruct (channel_peer_id id) as [p|x] eqn:Hp.
      * destruct h as [h|].
        -- right; right. exists p, (InputPeerChannel id (Some h)).
           rewrite /fetch_peer /stored_key /= Hp.
           destruct name; eexists; cbn; repeat split; eauto.
        -- left. by rewrite /fetch_peer Hp.
      * right; left. exists x. rewrite /fetch_peer Hp /=. split; [done|].
        apply Z.leb_gt. lia.
  - destruct (Z.leb_spec 0 id) as [Hid|Hid].
    + destruct (remappable_channel_peer_id id Hid) as [p Hp].
      destruct h as [h|].
      * right; right. exists p, (InputPeerChannel id (Some h)).
        rewrite /fetch_peer /stored_key /= Hp.
        eexists; cbn; repeat split; eauto.
      * left. by rewrite /fetch_peer Hp.
    + destruct (channel_peer_id id) as [p|x] eqn:Hp.
      * destruct h as [h|].
        -- right; right. exists p, (InputPeerChannel id (Some h)).
           rewrite /fetch_peer /stored_key /= Hp.
           eexists; cbn; repeat split; eauto.
        -- left. by rewrite /fetch_peer Hp.
      * right; left. exists x. rewrite /fetch_peer Hp /=. split; [done|].
        apply Z.leb_gt. lia.
  - left. done.
Qed.

(** [fetch_peers] touches nothing but the three maps. *)
Lemma fetch_peers_frame (l : list entity) (c : client) :
  let c' := fst (fetch_peers l c) in
  channels_pts c' = channels_pts c /\ is_started c' = is_started c
  /\ no_updates c' = no_updates c /\ takeout_id c' = takeout_id c
  /\ requests c' = requests c /\ updates_queue c' = updates_queue c
  /\ errors c' = errors c.
Proof.
  revert c. induction l as [|e l IH]; intros c; [done|].
  cbn [fetch_peers]. rewrite /bind.
  destruct (fetch_peer_cases e c) as [[-> _]|[(x & -> & _)|(k & p & c1 & -> & Hc1)]].
  - apply IH.
  - done.
  - destruct Hc1 as (_ & _ & _ & _ & _ & F1 & F2 & F3 & F4 & F5 & F6 & F7).
    specialize (IH c1). cbn zeta in IH.
    rewrite -F1 -F2 -F3 -F4 -F5 -F6 -F7. exact IH.
Qed.

(** Entities that are all remappable never make [fetch_peers] raise. *)
Lemma fetch_peers_returns (l : list entity) (c : client) :
  Forall (fun e => remappable e = true) l -> snd (fetch_peers l c) = Ok tt.
Proof.
  revert c. induction l as [|e l IH]; intros c Hl; [done|].
  apply Forall_cons in Hl as [He Hl].
  cbn [fetch_peers]. rewrite /bind.
  destruct (fetch_peer_cases e c) as [[-> _]|[(x & _ & Hx)|(k & p & c1 & -> & _)]].
  - by apply IH.
  - congruence.
  - by apply IH.
Qed.




Section ResolveFacts.

Variable session_send : list request -> request -> result response.

(** A cached id is answered from the directory, with no request. *)
Lemma resolve_peer_cached (k : Z) (p : input_peer) (c : client) :
  peers_by_id c !! k = Some p ->
  resolve_peer session_send (PeerInt k) c = (c, Ok p).
Proof. intros Hk. by rewrite /resolve_peer /bind /get /= Hk. Qed.

End ResolveFacts.


Lemma str_of_int_roundtrip (K : Z) : Py.int (Py.str K) = Some K.
Proof.
  rewrite /Py.str /Py.int.
  assert (Hparse : NilZero.int_of_string (NilZero.string_of_int (Z.to_int K))
                   = Some (Z.to_int K)).
  { apply NilZero.isi.
    - destruct K; cbn; try discriminate.
      intros [=H]. by apply DecimalPos.Unsigned.to_uint_nonnil in H.
    - destruct K; cbn; try discriminate.
      intros [=H]. by apply DecimalPos.Unsigned.to_uint_nonnil in H. }
  assert (Hplus : forall s, NilZero.string_of_int (Z.to_int K) <> String "+" s).
  { intros s Hs. rewrite Hs in Hparse. cbn in Hparse.
    destruct (NilEmpty.uint_of_string s); discriminate. }
  destruct (NilZero.string_of_int (Z.to_int K)) as [|a s] eqn:Hstr.
  - by rewrite Hparse /= DecimalZ.of_to.
  - destruct (Ascii.ascii_dec a "+") as [->|Ha].
    + by destruct (Hplus s).
    + transitivity (option_map Z.of_int (NilZero.int_of_string (String a s))).
      * destruct a as [[] [] [] [] [] [] [] []]; try done.
      * by rewrite Hparse /= DecimalZ.of_to.
Qed.








(** ** Short envelopes *)

Section ShortEnvelopes.

Variable session_send : list request -> request -> result response.

(** [send] on a started client: the query is logged; an answer whose
    entities are remappable is returned once they are cached, an error is
    raised as it is. *)
Lemma send_started (data : request) (c : client) :
  is_started c = true ->
  (forall r, session_send (requests c) (wrap_query c data) = Ok r ->
             Forall (fun e => remappable e = true)
               (default [] (r_users r) ++ default [] (r_chats r))) ->
  exists c1,
    send session_send data c
      = (c1, session_send (requests c) (wrap_query c data))
    /\ requests c1 = requests c ++ [wrap_query c data]
    /\ updates_queue c1 = updates_queue c
    /\ errors c1 = errors c.
Proof.
  intros Hs Hok. rewrite /send /bind /get /modify /= Hs /=.
  destruct (session_send (requests c) (wrap_query c data)) as [r|x] eqn:Hans.
  - specialize (Hok r eq_refl).
    set (c0 := set_requests (requests c ++ [wrap_query c data]) c).
    pose proof (fetch_peers_returns _ c0 Hok) as Hret.
    destruct (fetch_peers_frame (default [] (r_users r) ++ default [] (r_chats r)) c0)
      as (_ & _ & _ & _ & F5 & F6 & F7).
    rewrite fetch_peers_app in Hret F5 F6 F7 |- *.
    destruct (fetch_peers (default [] (r_users r)) c0) as [c1 [[]|x]]; [|done].
    destruct (fetch_peers (default [] (r_chats r)) c1) as [c2 [[]|x]]; [|done].
    exists c2. done.
  - eexists. split; [reflexivity|]. done.
Qed.

End ShortEnvelopes.

(** C8: for a short-message or short-chat-message envelope the worker of a
    started client sends [GetDifference] with [pts - pts_count], the
    envelope's date and [qts = -1], and delivers the first new message of
    the answer if there is one, else its first other update if there is
    one, else nothing; nothing either when the request fails. *)
Theorem short_envelope_difference
    (session_send : list request -> request -> result response)
    (c : client) (chat : bool) (pts pts_count date : Z) :
  let query := GetDifference (pts - pts_count) date (-1) in
  let answer := session_send (requests c) (wrap_query c query) in
  let envelope :=
    if chat then UpdateShortChatMessage pts pts_count date
    else UpdateShortMessage pts pts_count date in
  let c' := updates_worker_step session_send envelope c in
  is_started c = true ->
  (forall diff, answer = Ok diff ->
     difference_shaped diff = true
     /\ Forall (fun e => remappable e = true)
          (default [] (r_users diff) ++ default [] (r_chats diff))) ->
  requests c' = requests c ++ [wrap_query c query]
  /\ updates_queue c' =
       updates_queue c ++
         match answer with
         | Ok diff => expected_short_delivery pts pts_count diff
         | Raise _ => []
         end.
Proof.
  intros query answer envelope c' Hs Hshape.
  destruct (send_started session_send query c Hs) as (c1 & Hsend & Hreq & Hqueue & _).
  { intros r Hr. by destruct (Hshape r Hr). }
  assert (Hstep : c' = match handle_envelope session_send
                               (UpdateShortMessage pts pts_count date) c with
                       | (c2, Ok _) => c2
                       | (c2, Raise x) => set_errors (errors c2 ++ [x]) c2
                       end).
  { rewrite /c' /envelope. by destruct chat. }
  rewrite Hstep /handle_envelope /bind. fold query. rewrite Hsend. fold answer.
  destruct answer as [diff|x] eqn:Hans; [|by rewrite app_nil_r].
  destruct (Hshape diff eq_refl) as [Hd _].
  rewrite /expected_short_delivery /difference_shaped in Hd |- *.
  destruct (r_new_messages diff) as [[|m nm]|], (r_other_updates diff) as [[|o ou]|],
    (r_users diff) as [us|], (r_chats diff) as [cs|]; try discriminate;
    cbn; rewrite ?Hreq ?Hqueue ?app_nil_r; done.
Qed.

Lemma short_envelope_difference_witness :
  let m := {| msg_empty := false; msg_id := 41; msg_to_channel_id := None |} in
  let diff := difference_response [m] [channel_update 3 9] [User 8 (Some 80) None None] [] in
  let c := started new_client in
  let c' := updates_worker_step (always diff) (UpdateShortMessage 10 1 1700000000) c in
  requests c' = [GetDifference 9 1700000000 (-1)]
  /\ updates_queue c' = [(new_message_update m 10 1, [User 8 (Some 80) None None], [])].
Proof.
  apply (short_envelope_difference
           (always (difference_response
                      [{| msg_empty := false; msg_id := 41; msg_to_channel_id := None |}]
                      [channel_update 3 9] [User 8 (Some 80) None None] []))
           (started new_client) false 10 1 1700000000).
  - reflexivity.
  - intros diff [= <-]. split; [reflexivity|].
    apply (bool_decide_unpack _). vm_compute. exact I.
Defined.

(** ** Base64 round trip *)

(** A property checked on every number below a bound holds below it. *)
Lemma N_forall_below (k : nat) (f : N -> bool) :
  forallb f (map N.of_nat (seq 0 k)) = true ->
  forall n, (n < N.of_nat k)%N -> f n = true.
Proof.
  intros Hall n Hn. rewrite forallb_forall in Hall. apply Hall.
  apply in_map_iff. exists (N.to_nat n). split; [lia|].
  apply in_seq. lia.
Qed.

Lemma sextet_of_char_of_sextet (v : N) :
  (v < 64)%N ->
  Base64.sextet_of_char (Base64.char_of_sextet v) = Some v
  /\ Ascii.eqb (Base64.char_of_sextet v) Base64.pad = false.
Proof.
  intros Hv.
  pose (check := fun v : N =>
    match Base64.sextet_of_char (Base64.char_of_sextet v) with
    | Some w => N.eqb w v
    | None => false
    end && negb (Ascii.eqb (Base64.char_of_sextet v) Base64.pad)).
  assert (Hcheck : check v = true).
  { apply (N_forall_below 64); [by vm_compute | exact Hv]. }
  rewrite /check in Hcheck. apply andb_prop in Hcheck as [H1 H2].
  destruct (Base64.sextet_of_char _) as [w|]; [|done].
  apply N.eqb_eq in H1 as ->. split; [done|]. by apply negb_true_iff.
Qed.

(** One step of the decoder on a character of the alphabet. *)
Lemma decode_loop_sextet (v : N) (s : string) (q : nat) (l : N) (p : nat) (out : bytes) :
  (v < 64)%N ->
  Base64.decode_loop (String (Base64.char_of_sextet v) s) q l p out =
    match q with
    | 0%nat => Base64.decode_loop s 1 v 0 out
    | 1%nat =>
        Base64.decode_loop s 2 (N.land v 15) 0
          (out ++ [Base64.byte_of_N (N.lor (N.shiftl l 2) (N.shiftr v 4))])
    | 2%nat =>
        Base64.decode_loop s 3 (N.land v 3) 0
          (out ++ [Base64.byte_of_N (N.lor (N.shiftl l 4) (N.shiftr v 2))])
    | _ =>
        Base64.decode_loop s 0 0 0
          (out ++ [Base64.byte_of_N (N.lor (N.shiftl l 6) v)])
    end.
Proof.
  intros Hv. destruct (sextet_of_char_of_sextet v Hv) as [Hs Hp].
  cbn [Base64.decode_loop]. by rewrite Hp Hs.
Qed.

Lemma byte_of_N_to_N (a : byte) : Base64.byte_of_N (Byte.to_N a) = a.
Proof.
  rewrite /Base64.byte_of_N N.mod_small.
  - pose proof (Byte.to_N_bounded a). lia.
  - by rewrite Byte.of_to_N.
Qed.

(** The three regrouping identities of the decoder, each checked on the
    whole range of its arguments. *)
Lemma regroup_first (a hb : N) :
  (a < 256)%N -> (hb < 16)%N ->
  (a / 4 < 64)%N /\ ((a mod 4) * 16 + hb < 64)%N
  /\ N.lor (N.shiftl (a / 4) 2) (N.shiftr ((a mod 4) * 16 + hb) 4) = a
  /\ N.land ((a mod 4) * 16 + hb) 15 = hb.
Proof.
  intros Ha Hb.
  pose (check := fun a hb : N =>
    (a / 4 <? 64)%N && ((a mod 4) * 16 + hb <? 64)%N
    && (N.lor (N.shiftl (a / 4) 2) (N.shiftr ((a mod 4) * 16 + hb) 4) =? a)%N
    && (N.land ((a mod 4) * 16 + hb) 15 =? hb)%N).
  assert (Hcheck : check a hb = true).
  { apply (N_forall_below 16 (check a)); [|exact Hb].
    revert a Ha. apply (N_forall_below 256). by vm_compute. }
  rewrite /check in Hcheck.
  repeat (apply andb_prop in Hcheck as [Hcheck ?]).
  repeat split; first [by apply N.ltb_lt | by apply N.eqb_eq].
Qed.

Lemma regroup_second (b hc : N) :
  (b < 256)%N -> (hc < 4)%N ->
  (b / 16 < 16)%N /\ ((b mod 16) * 4 + hc < 64)%N
  /\ N.lor (N.shiftl (b / 16) 4) (N.shiftr ((b mod 16) * 4 + hc) 2) = b
  /\ N.land ((b mod 16) * 4 + hc) 3 = hc.
Proof.
  intros Hb Hc.
  pose (check := fun b hc : N =>
    (b / 16 <? 16)%N && ((b mod 16) * 4 + hc <? 64)%N
    && (N.lor (N.shiftl (b / 16) 4) (N.shiftr ((b mod 16) * 4 + hc) 2) =? b)%N
    && (N.land ((b mod 16) * 4 + hc) 3 =? hc)%N).
  assert (Hcheck : check b hc = true).
  { apply (N_forall_below 4 (check b)); [|exact Hc].
    revert b Hb. apply (N_forall_below 256). by vm_compute. }
  rewrite /check in Hcheck.
  repeat (apply andb_prop in Hcheck as [Hcheck ?]).
  repeat split; first [by apply N.ltb_lt | by apply N.eqb_eq].
Qed.

Lemma regroup_third (c : N) :
  (c < 256)%N ->
  (c / 64 < 4)%N /\ (c mod 64 < 64)%N
  /\ N.lor (N.shiftl (c / 64) 6) (c mod 64) = c.
Proof.
  intros Hc.
  pose (check := fun c : N =>
    (c / 64 <? 4)%N && (c mod 64 <? 64)%N
    && (N.lor (N.shiftl (c / 64) 6) (c mod 64) =? c)%N).
  assert (Hcheck : check c = true).
  { revert c Hc. apply (N_forall_below 256). by vm_compute. }
  rewrite /check in Hcheck.
  repeat (apply andb_prop in Hcheck as [Hcheck ?]).
  repeat split; first [by apply N.ltb_lt | by apply N.eqb_eq].
Qed.

Lemma to_N_lt_256 (a : byte) : (Byte.to_N a < 256)%N.
Proof. pose proof (Byte.to_N_bounded a). lia. Qed.

(** The decoder reads back a full group of three bytes. *)
Lemma decode_encode3 (a b c : byte) (rest : string) (l : N) (p : nat) (out : bytes) :
  Base64.decode_loop
    (Base64.encode3 (Byte.to_N a) (Byte.to_N b) (Byte.to_N c) rest) 0 l p out
  = Base64.decode_loop rest 0 0 0 (out ++ [a; b; c]).
Proof.
  pose proof (to_N_lt_256 a) as Ha. pose proof (to_N_lt_256 b) as Hb.
  pose proof (to_N_lt_256 c) as Hc.
  destruct (regroup_third _ Hc) as (Hc1 & Hc2 & Hc3).
  destruct (regroup_second _ _ Hb Hc1) as (Hb1 & Hb2 & Hb3 & Hb4).
  destruct (regroup_first _ _ Ha Hb1) as (Ha1 & Ha2 & Ha3 & Ha4).
  rewrite /Base64.encode3.
  rewrite decode_loop_sextet // decode_loop_sextet // decode_loop_sextet //
          decode_loop_sextet //.
  rewrite Ha3 Ha4 Hb3 Hb4 Hc3 !byte_of_N_to_N -!app_assoc. reflexivity.
Qed.

Lemma decode_encode2 (a b : byte) (l : N) (p : nat) (out : bytes) :
  Base64.decode_loop (Base64.encode2 (Byte.to_N a) (Byte.to_N b)) 0 l p out
  = Some (out ++ [a; b]).
Proof.
  pose proof (to_N_lt_256 a) as Ha. pose proof (to_N_lt_256 b) as Hb.
  destruct (regroup_second _ 0%N Hb ltac:(lia)) as (Hb1 & Hb2 & Hb3 & Hb4).
  destruct (regroup_first _ _ Ha Hb1) as (Ha1 & Ha2 & Ha3 & Ha4).
  rewrite N.add_0_r in Hb2 Hb3 Hb4.
  rewrite /Base64.encode2.
  rewrite decode_loop_sextet // decode_loop_sextet // decode_loop_sextet //.
  rewrite Ha3 Ha4 Hb3 !byte_of_N_to_N -!app_assoc. reflexivity.
Qed.

Lemma decode_encode1 (a : byte) (l : N) (p : nat) (out : bytes) :
  Base64.decode_loop (Base64.encode1 (Byte.to_N a)) 0 l p out = Some (out ++ [a]).
Proof.
  pose proof (to_N_lt_256 a) as Ha.
  destruct (regroup_first _ 0%N Ha ltac:(lia)) as (Ha1 & Ha2 & Ha3 & Ha4).
  rewrite N.add_0_r in Ha2 Ha3 Ha4.
  rewrite /Base64.encode1.
  rewrite decode_loop_sextet // decode_loop_sextet //.
  rewrite Ha3 !byte_of_N_to_N. reflexivity.
Qed.

Lemma decode_loop_b64encode (n : nat) :
  forall (data out : bytes), (length data <= n)%nat ->
    Base64.decode_loop (Base64.b64encode data) 0 0 0 out = Some (out ++ data).
Proof.
  induction n as [n IH] using lt_wf_ind. intros data out Hlen.
  destruct data as [|a [|b [|c rest]]].
  - by rewrite app_nil_r.
  - apply decode_encode1.
  - apply decode_encode2.
  - change (Base64.b64encode (a :: b :: c :: rest))
      with (Base64.encode3 (Byte.to_N a) (Byte.to_N b) (Byte.to_N c)
              (Base64.b64encode rest)).
    rewrite decode_encode3 (IH (length rest)); [cbn in Hlen; lia | done |].
    by rewrite -app_assoc.
Qed.

(** Decoding what was encoded gives the bytes back. *)
Lemma b64decode_b64encode (data : bytes) :
  Base64.b64decode (Base64.b64encode data) = Some data.
Proof. exact (decode_loop_b64encode (length data) data [] (le_n _)). Qed.

(** ** The session file *)

Lemma substring_split (s : string) (a b : nat) :
  substring 0 (a + b) s = (substring 0 a s +:+ substring a b s)%string.
Proof.
  revert s. induction a as [|a IH]; intros s.
  - cbn. by destruct b, s.
  - destruct s as [|c s]; [done|].
    change (String c (substring 0 (a + b) s)
            = String c (substring 0 a s +:+ substring a b s)).
    by rewrite IH.
Qed.

Lemma substring_all (s : string) (n : nat) :
  (String.length s <= n)%nat -> substring 0 n s = s.
Proof.
  revert n. induction s as [|c s IH]; intros n Hn.
  - by destruct n.
  - destruct n as [|n]; [cbn in Hn; lia|]. cbn. rewrite IH; [cbn in Hn; lia | done].
Qed.

Lemma substring_length_le (s : string) (i w : nat) :
  (String.length (substring i w s) <= w)%nat.
Proof.
  revert i w. induction s as [|c s IH]; intros i w.
  - destruct i, w; cbn; lia.
  - destruct i as [|i].
    + destruct w as [|w]; cbn; [lia|]. specialize (IH 0%nat w). lia.
    + cbn. apply IH.
Qed.

Lemma append_empty_r (s : string) : (s +:+ "")%string = s.
Proof.
  induction s as [|c s IH]; [done|].
  change (String c (s +:+ "") = String c s). by rewrite IH.
Qed.

Lemma append_assoc (s1 s2 s3 : string) :
  ((s1 +:+ s2) +:+ s3)%string = (s1 +:+ (s2 +:+ s3))%string.
Proof.
  induction s1 as [|c s1 IH]; [done|].
  change (String c ((s1 +:+ s2) +:+ s3) = String c (s1 +:+ (s2 +:+ s3))).
  by rewrite IH.
Qed.

Lemma join_cons (x : string) (xs : list string) : join (x :: xs) = (x +:+ join xs)%string.
Proof. rewrite /join. destruct xs; cbn; [by rewrite append_empty_r | done]. Qed.

Lemma join_snoc (xs : list string) (x : string) : join (xs ++ [x]) = (join xs +:+ x)%string.
Proof.
  induction xs as [|y xs IH].
  - done.
  - change ((y :: xs) ++ [x]) with (y :: (xs ++ [x])).
    by rewrite !join_cons IH append_assoc.
Qed.

Lemma join_slices (w : nat) (s : string) (n : nat) :
  join (map (fun i => Py.slice i (i + w) s) (map (fun k => (k * w)%nat) (seq 0 n)))
  = substring 0 (n * w) s.
Proof.
  induction n as [|n IH].
  - cbn. by destruct s.
  - rewrite seq_S !map_app join_snoc IH /= /Py.slice.
    replace (n * w + w - n * w)%nat with w by lia.
    replace (w + n * w)%nat with (n * w + w)%nat by lia.
    by rewrite substring_split.
Qed.

(** Joining the lines gives back the text that was wrapped. *)
Lemma join_wrap (w : nat) (s : string) : (0 < w)%nat -> join (wrap w s) = s.
Proof.
  intros Hw. rewrite /wrap /Py.range_step join_slices. apply substring_all.
  pose proof (Nat.div_mod_eq (String.length s + w - 1) w) as Hdiv.
  pose proof (Nat.mod_upper_bound (String.length s + w - 1) w ltac:(lia)) as Hmod.
  nia.
Qed.

(** No line is longer than the width. *)
Lemma wrap_width (w : nat) (s : string) :
  Forall (fun line => (String.length line <= w)%nat) (wrap w s).
Proof.
  rewrite /wrap. apply Forall_map, Forall_forall. intros i _. rewrite /Py.slice /=.
  replace (i + w - i)%nat with w by lia. apply substring_length_le.
Qed.

Lemma join_items_strings (parts : list string) :
  join_items (map JStr parts) = Ok (join parts).
Proof.
  induction parts as [|x xs IH]; [done|].
  cbn [map join_items]. by rewrite IH join_cons.
Qed.

Section SessionFacts.

Variable get_input_peer : Z -> json -> result input_peer.
Variable create_auth_key : Z -> result bytes.

(** Loading a record made of the six attributes and of one entry in each
    peer map. *)
Lemma load_record (s s0 : session) (extra : list (string * json)) :
  forall record, session_record s = JDict record ->
  forall files, files !! session_path s0 = Some (JDict (record ++ extra)) ->
  let s1 :=
    {| workdir := workdir s0; session_name := session_name s0;
       dc_id := dc_id s; test_mode := test_mode s; auth_key := auth_key s;
       user_id := user_id s; date := date s; is_bot := is_bot s;
       stored_by_id := stored_by_id s0;
       stored_by_username := stored_by_username s0;
       stored_by_phone := stored_by_phone s0 |} in
  load_session get_input_peer create_auth_key files s0 =
    match items_of "peers_by_id" extra with
    | Raise e => (s1, Raise e)
    | Ok ids =>
        match load_peers_by_id get_input_peer ids s1 with
        | (s2, Raise e) => (s2, Raise e)
        | (s2, Ok _) =>
            match items_of "peers_by_username" extra with
            | Raise e => (s2, Raise e)
            | Ok names =>
                match load_secondary store_username names s2 with
                | (s3, Raise e) => (s3, Raise e)
                | (s3, Ok _) =>
                    match items_of "peers_by_phone" extra with
                    | Raise e => (s3, Raise e)
                    | Ok phones => load_secondary store_phone phones s3
                    end
                end
            end
        end
    end.
Proof.
  intros record [= <-] files Hfile. rewrite /load_session Hfile.
  cbn [app dict_get String.eqb Ascii.eqb Bool.eqb join_json default with_keys
       dc_id test_mode auth_key user_id date is_bot workdir session_name
       stored_by_id stored_by_username stored_by_phone].
  rewrite join_items_strings join_wrap; [lia|]. rewrite b64decode_b64encode.
  cbn [items_of app dict_get String.eqb Ascii.eqb Bool.eqb default with_keys
       dc_id test_mode auth_key user_id date is_bot workdir session_name
       stored_by_id stored_by_username stored_by_phone].
  reflexivity.
Qed.

End SessionFacts.

(** An auth key has 256 bytes: its base64 text has 344 characters, which
    makes eight lines of 43. *)
Example auth_key_lines :
  map String.length (wrap 43 (Base64.b64encode (replicate 256 x00)))
  = replicate 8 43%nat.
Proof. by vm_compute. Qed.

(** C6: [save_session] followed by [load_session] in a client with the same
    working directory and session name gives back [dc_id], [test_mode],
    [user_id], [date], [is_bot] and the bytes of the auth key: the key is
    written as its base64 text cut into lines of at most 43 characters, and
    the lines joined again are that text. Nothing else of the loading client
    changes. *)
Theorem session_round_trip
    (get_input_peer : Z -> json -> result input_peer)
    (create_auth_key : Z -> result bytes)
    (s s0 : session) (files : disk) :
  workdir s0 = workdir s -> session_name s0 = session_name s ->
  let text := Base64.b64encode (auth_key s) in
  let loaded := load_session get_input_peer create_auth_key (save_session s files) s0 in
  snd loaded = Ok tt
  /\ dc_id (fst loaded) = dc_id s
  /\ test_mode (fst loaded) = test_mode s
  /\ auth_key (fst loaded) = auth_key s
  /\ user_id (fst loaded) = user_id s
  /\ date (fst loaded) = date s
  /\ is_bot (fst loaded) = is_bot s
  /\ stored_by_id (fst loaded) = stored_by_id s0
  /\ stored_by_username (fst loaded) = stored_by_username s0
  /\ stored_by_phone (fst loaded) = stored_by_phone s0
  /\ (exists record, save_session s files !! session_path s = Some (JDict record)
        /\ dict_get "auth_key" record = Some (JList (map JStr (wrap 43 text))))
  /\ Forall (fun line => (String.length line <= 43)%nat) (wrap 43 text)
  /\ join (wrap 43 text) = text
  /\ Base64.b64decode text = Some (auth_key s).
Proof.
  intros Hdir Hname text loaded.
  assert (Hpath : session_path s0 = session_path s)
    by (by rewrite /session_path Hdir Hname).
  assert (Hfile : save_session s files !! session_path s0
                  = Some (JDict ([("dc_id"%string, dc_id s);
                                  ("test_mode"%string, test_mode s);
                                  ("auth_key"%string, JList (map JStr (wrap 43 text)));
                                  ("user_id"%string, user_id s);
                                  ("date"%string, date s);
                                  ("is_bot"%string, is_bot s)] ++ []))).
  { rewrite Hpath /save_session lookup_insert_eq app_nil_r. reflexivity. }
  pose proof (load_record get_input_peer create_auth_key s s0 [] _ eq_refl _ Hfile) as Hload.
  cbn in Hload. fold loaded in Hload. rewrite Hload. cbn.
  repeat split.
  - exists [("dc_id"%string, dc_id s); ("test_mode"%string, test_mode s);
            ("auth_key"%string, JList (map JStr (wrap 43 text)));
            ("user_id"%string, user_id s); ("date"%string, date s);
            ("is_bot"%string, is_bot s)].
    split; [|reflexivity]. by rewrite /save_session lookup_insert_eq.
  - apply wrap_width.
  - apply join_wrap. lia.
  - apply b64decode_b64encode.
Qed.

Lemma session_round_trip_witness :
  let text := Base64.b64encode (auth_key example_session) in
  let loaded := load_session user_peer_of no_negotiation
                  (save_session example_session ∅) blank_session in
  snd loaded = Ok tt
  /\ dc_id (fst loaded) = JInt 2
  /\ test_mode (fst loaded) = JBool false
  /\ auth_key (fst loaded) = [x00; x01; xfe; xff; x10; x20; x30]
  /\ user_id (fst loaded) = JInt 23122162
  /\ date (fst loaded) = JInt 1554000000
  /\ is_bot (fst loaded) = JBool false
  /\ stored_by_id (fst loaded) = ∅
  /\ stored_by_username (fst loaded) = ∅
  /\ stored_by_phone (fst loaded) = ∅
  /\ (exists record,
        save_session example_session ∅ !! session_path example_session
          = Some (JDict record)
        /\ dict_get "auth_key" record = Some (JList (map JStr (wrap 43 text))))
  /\ Forall (fun line => (String.length line <= 43)%nat) (wrap 43 text)
  /\ join (wrap 43 text) = text
  /\ Base64.b64decode text = Some (auth_key example_session).
Proof.
  apply (session_round_trip user_peer_of no_negotiation example_session blank_session ∅).
  - reflexivity.
  - reflexivity.
Defined.

(** C2 as stated fails: the record [save_session] writes has no
    [peers_by_id], [peers_by_username] or [peers_by_phone] entry, even for a
    client whose directory is not empty. *)
Lemma saved_record_has_no_peer_maps :
  stored_by_id example_session !! 23122162 = Some (InputPeerUser 23122162 (Some 77))
  /\ exists record,
       save_session example_session ∅ !! session_path example_session
         = Some (JDict record)
       /\ dict_get "peers_by_id" record = None
       /\ dict_get "peers_by_username" record = None
       /\ dict_get "peers_by_phone" record = None.
Proof.
  split; [by vm_compute|]. eexists. split.
  - rewrite /save_session lookup_insert_eq. reflexivity.
  - by vm_compute.
Qed.

(** C2 (amended): the record [save_session] writes has exactly the entries
    [dc_id], [test_mode], [auth_key], [user_id], [date] and [is_bot], the
    auth key being the lines, at most 43 characters wide, of its base64
    text; it holds no peer map. [load_session] reloads the peer maps of a
    session file that has them: an entry of [peers_by_id] is rebuilt from
    its key and value, and an entry of [peers_by_username] or
    [peers_by_phone] is bound to the reference cached under the id it
    names. *)
Theorem session_file_contents
    (get_input_peer : Z -> json -> result input_peer)
    (create_auth_key : Z -> result bytes)
    (s s0 : session) (files : disk)
    (key name phone : string) (blob : json) (id : Z) (peer : input_peer) :
  Py.int key = Some id -> get_input_peer id blob = Ok peer ->
  files !! session_path s0 = Some (record_with_peers s key blob name phone id) ->
  (exists record,
     save_session s files !! session_path s = Some (JDict record)
     /\ map fst record = ["dc_id"; "test_mode"; "auth_key"; "user_id"; "date"; "is_bot"]%string
     /\ dict_get "dc_id" record = Some (dc_id s)
     /\ dict_get "test_mode" record = Some (test_mode s)
     /\ dict_get "auth_key" record
          = Some (JList (map JStr (wrap 43 (Base64.b64encode (auth_key s)))))
     /\ dict_get "user_id" record = Some (user_id s)
     /\ dict_get "date" record = Some (date s)
     /\ dict_get "is_bot" record = Some (is_bot s))
  /\ Forall (fun line => (String.length line <= 43)%nat)
       (wrap 43 (Base64.b64encode (auth_key s)))
  /\ (let loaded := load_session get_input_peer create_auth_key files s0 in
      snd loaded = Ok tt
      /\ stored_by_id (fst loaded) !! id = Some peer
      /\ stored_by_username (fst loaded) !! name = Some peer
      /\ stored_by_phone (fst loaded) !! phone = Some peer).
Proof.
  intros Hkey Hpeer Hfile. split; [|split].
  - eexists. split; [by rewrite /save_session lookup_insert_eq|]. by repeat split.
  - apply wrap_width.
  - pose proof (load_record get_input_peer create_auth_key s s0 _ _ eq_refl _ Hfile) as Hload.
    cbn [items_of dict_get String.eqb Ascii.eqb Bool.eqb] in Hload.
    cbn zeta. rewrite Hload.
    cbn [load_peers_by_id]. rewrite Hkey Hpeer.
    cbn [load_secondary get_by_value stored_by_id with_directory].
    rewrite lookup_insert_eq.
    cbn [load_secondary get_by_value stored_by_id with_directory store_username].
    rewrite lookup_insert_eq.
    cbn. rewrite !lookup_insert_eq. done.
Qed.

Lemma session_file_contents_witness :
  let s := example_session in
  let files : disk :=
    {[ session_path blank_session
         := record_with_peers s "23122162" (JInt 77) "dan" "391234567890" 23122162 ]} in
  (exists record,
     save_session s files !! session_path s = Some (JDict record)
     /\ map fst record = ["dc_id"; "test_mode"; "auth_key"; "user_id"; "date"; "is_bot"]%string
     /\ dict_get "dc_id" record = Some (dc_id s)
     /\ dict_get "test_mode" record = Some (test_mode s)
     /\ dict_get "auth_key" record
          = Some (JList (map JStr (wrap 43 (Base64.b64encode (auth_key s)))))
     /\ dict_get "user_id" record = Some (user_id s)
     /\ dict_get "date" record = Some (date s)
     /\ dict_get "is_bot" record = Some (is_bot s))
  /\ Forall (fun line => (String.length line <= 43)%nat)
       (wrap 43 (Base64.b64encode (auth_key s)))
  /\ (let loaded :=
        load_session user_peer_of no_negotiation files blank_session in
      snd loaded = Ok tt
      /\ stored_by_id (fst loaded) !! 23122162 = Some (InputPeerUser 23122162 (Some 77))
      /\ stored_by_username (fst loaded) !! "dan"%string
           = Some (InputPeerUser 23122162 (Some 77))
      /\ stored_by_phone (fst loaded) !! "391234567890"%string
           = Some (InputPeerUser 23122162 (Some 77))).
Proof.
  apply (session_file_contents user_peer_of no_negotiation example_session blank_session
           {[ session_path blank_session
                := record_with_peers example_session "23122162" (JInt 77) "dan"
                     "391234567890" 23122162 ]}
           "23122162" "dan" "391234567890" (JInt 77) 23122162
           (InputPeerUser 23122162 (Some 77))).
  - reflexivity.
  - reflexivity.
  - apply lookup_singleton_eq.
Defined.

(** ** Uploads *)

Lemma iterate_app_advance {T S : Type} (step : T -> S -> step_result S)
    (pre rest : list T) (s s' : S) :
  advance step pre s = Some s' ->
  iterate step (pre ++ rest) s = iterate step rest s'.
Proof.
  revert s. induction pre as [|turn pre IH]; intros s Hadv.
  - by injection Hadv as ->.
  - cbn in Hadv |- *. destruct (step turn s); try discriminate. by apply IH.
Qed.

Lemma start_pool_all (failure : nat -> option exn) (n i : nat) (events : list upload_event) :
  (forall j, failure j = None) ->
  start_pool failure i (replicate n Created) events
  = (replicate n Running, events ++ map SessionStarted (seq i n), Ok tt).
Proof.
  intros Hok. revert i events. induction n as [|n IH]; intros i events.
  - cbn. by rewrite app_nil_r.
  - cbn [replicate start_pool]. rewrite Hok. cbn [session_start].
    rewrite IH. cbn [seq map]. by rewrite -app_assoc.
Qed.

Lemma stop_pool_all (n i : nat) (events : list upload_event) :
  stop_pool i (replicate n Running) events
  = (replicate n Stopped, events ++ map SessionStopped (seq i n), Ok tt).
Proof.
  revert i events. induction n as [|n IH]; intros i events.
  - cbn. by rewrite app_nil_r.
  - cbn [replicate stop_pool session_stop].
    rewrite IH. cbn [seq map]. by rewrite -app_assoc.
Qed.

Lemma part_size_pos : 0 < part_size.
Proof. by vm_compute. Qed.

(** From here on the sizes are compared, not computed. *)
Opaque part_size limit.

(** A read inside the file gets at least one byte. *)
Lemma read_inside (data : bytes) (position : Z) :
  0 <= position < Z.of_nat (length data) ->
  take (Z.to_nat part_size) (drop (Z.to_nat position) data) <> [].
Proof.
  intros Hpos Hnil. apply (f_equal length) in Hnil.
  rewrite length_take length_drop /= in Hnil.
  pose proof part_size_pos. lia.
Qed.

Section UploadFacts.

Variable md5 : bytes -> bytes.

(** The turn of a resumed part: the part is read and put on the queue, and
    the function returns. *)
Lemma upload_step_resumed (data : bytes) (file_size file_id total : Z) (is_big : bool)
    (progress : option (Z -> Z -> option exn)) (s : upload_loop) :
  0 <= ul_position s < Z.of_nat (length data) ->
  let chunk := take (Z.to_nat part_size) (drop (Z.to_nat (ul_position s)) data) in
  upload_step data file_size is_big true file_id total progress tt s
  = Break {| ul_position := ul_position s + Z.of_nat (length chunk);
             ul_file_part := ul_file_part s; ul_md5 := ul_md5 s; ul_returned := true;
             ul_events :=
               (ul_events s ++ [ReadAt (ul_position s) part_size (length chunk)])
               ++ [Put (Some (if is_big
                              then SaveBigFilePart file_id (ul_file_part s) total chunk
                              else SaveFilePart file_id (ul_file_part s) chunk))] |}.
Proof.
  intros Hpos chunk. pose proof (read_inside data _ Hpos) as Hne.
  rewrite /upload_step. fold chunk. fold chunk in Hne.
  destruct chunk as [|b chunk]; [done|]. reflexivity.
Qed.

(** With a resumed part the loop takes one turn; when it ends without the
    early return, the file is a big one. *)
Lemma resumed_loop_end (data : bytes) (file_size file_id total : Z) (is_big : bool)
    (progress : option (Z -> Z -> option exn)) (n : nat) (s : upload_loop) :
  ul_md5 s = None ->
  let run := iterate (upload_step data file_size is_big true file_id total progress)
               (replicate (S n) tt) s in
  snd run = Done -> ul_returned (fst run) = false -> is_big = true.
Proof.
  intros Hmd5. cbn [replicate iterate]. rewrite /upload_step Hmd5.
  destruct (take _ _) as [|b chunk]; destruct is_big; cbn; done.
Qed.

(** The reading loop of a small upload that is not a resumed part: every
    byte from the position on is fed to the digest. *)
Lemma small_loop_feeds (data : bytes) (file_size file_id total : Z)
    (progress : option (Z -> Z -> option exn)) (n : nat) :
  (forall callback, progress = Some callback -> forall c t, callback c t = None) ->
  forall (s : upload_loop) (fed : bytes),
    ul_md5 s = Some fed -> 0 <= ul_position s ->
    Z.of_nat (length (drop (Z.to_nat (ul_position s)) data)) + part_size
      <= Z.of_nat n * part_size ->
    let run := iterate (upload_step data file_size false false file_id total progress)
                 (replicate n tt) s in
    snd run = Done /\ ul_returned (fst run) = false
    /\ ul_md5 (fst run) = Some (fed ++ drop (Z.to_nat (ul_position s)) data).
Proof.
  intros Hquiet. pose proof part_size_pos as HP.
  induction n as [|n IH]; intros s fed Hmd5 Hpos Hfuel; [lia|].
  cbn [replicate iterate]. rewrite /upload_step Hmd5.
  set (rest := drop (Z.to_nat (ul_position s)) data) in *.
  destruct (take (Z.to_nat part_size) rest) as [|b chunk] eqn:Hchunk.
  - cbn. assert (rest = []) as ->.
    { apply (f_equal length) in Hchunk. rewrite length_take /= in Hchunk.
      destruct rest; [done|]. cbn in Hchunk. lia. }
    by rewrite app_nil_r.
  - set (chunk' := b :: chunk) in *.
    assert (Hrest : rest = chunk' ++ drop (length chunk') rest).
    { rewrite -Hchunk. rewrite length_take.
      rewrite -{1}(take_drop (Z.to_nat part_size) rest). f_equal.
      destruct (Nat.le_ge_cases (Z.to_nat part_size) (length rest)) as [Hle|Hge].
      - by rewrite Nat.min_l.
      - rewrite Nat.min_r // !drop_ge //. }
    assert (Hlen : (length chunk' <= Z.to_nat part_size)%nat)
      by (rewrite -Hchunk length_take; lia).
    assert (Hdrop : drop (Z.to_nat (ul_position s + Z.of_nat (length chunk'))) data
                    = drop (length chunk') rest).
    { rewrite /rest drop_drop. f_equal. lia. }
    assert (Hnext : forall events,
      let s' := {| ul_position := ul_position s + Z.of_nat (length chunk');
                   ul_file_part := ul_file_part s + 1; ul_md5 := Some (fed ++ chunk');
                   ul_returned := false; ul_events := events |} in
      let run := iterate (upload_step data file_size false false file_id total progress)
                   (replicate n tt) s' in
      snd run = Done /\ ul_returned (fst run) = false
      /\ ul_md5 (fst run) = Some (fed ++ rest)).
    { intros events s' run.
      destruct (IH s' (fed ++ chunk')) as (H1 & H2 & H3).
      - done.
      - cbn. lia.
      - cbn [ul_position s']. rewrite Hdrop.
        apply (f_equal length) in Hrest. rewrite length_app in Hrest.
        assert (length chunk' = Z.to_nat part_size \/ drop (length chunk') rest = []) as [Hfull|Hend].
        { destruct (Nat.le_ge_cases (Z.to_nat part_size) (length rest)) as [Hle|Hge].
          - left. rewrite -Hchunk length_take. lia.
          - right. apply drop_ge. rewrite -Hchunk length_take. lia. }
        + lia.
        + rewrite Hend /=. assert (0 < length chunk')%nat by (cbn; lia).
          destruct n; [lia|]. lia.
      - split; [done|]. split; [done|].
        cbn [ul_position s'] in H3. rewrite H3 Hdrop -app_assoc -Hrest. done. }
    cbn [negb andb option_map bool_decide]. rewrite bool_decide_eq_true_2; [by eexists|].
    cbn [negb andb]. destruct progress as [callback|].
    + rewrite (Hquiet callback eq_refl). apply Hnext.
    + apply Hnext.
Qed.

(** The reading loop always ends by itself: it is given one turn more than
    the file has parts left. *)
Lemma upload_loop_ends (data : bytes) (file_size file_id total : Z)
    (is_big is_missing_part : bool) (progress : option (Z -> Z -> option exn)) (n : nat) :
  forall (s : upload_loop),
    0 <= ul_position s ->
    Z.of_nat (length (drop (Z.to_nat (ul_position s)) data)) + part_size
      <= Z.of_nat n * part_size ->
    snd (iterate (upload_step data file_size is_big is_missing_part file_id total progress)
           (replicate n tt) s) <> Waiting.
Proof.
  pose proof part_size_pos as HP.
  induction n as [|n IH]; intros s Hpos Hfuel; [lia|].
  cbn [replicate iterate]. rewrite /upload_step.
  set (rest := drop (Z.to_nat (ul_position s)) data) in *.
  destruct (take (Z.to_nat part_size) rest) as [|b chunk] eqn:Hchunk.
  - destruct is_big, (ul_md5 s); cbn; discriminate.
  - set (chunk' := b :: chunk) in *.
    assert (Hlen : length chunk' = Nat.min (Z.to_nat part_size) (length rest))
      by (by rewrite -Hchunk length_take).
    assert (Hnext : forall s', ul_position s' = ul_position s + Z.of_nat (length chunk') ->
              snd (iterate (upload_step data file_size is_big is_missing_part file_id
                              total progress) (replicate n tt) s') <> Waiting).
    { intros s' Hs'. apply IH; rewrite Hs'; [lia|].
      replace (Z.to_nat (ul_position s + Z.of_nat (length chunk')))
        with (Z.to_nat (ul_position s) + length chunk')%nat by lia.
      rewrite -drop_drop -/rest length_drop.
      assert (0 < length chunk')%nat by (cbn; lia).
      destruct n; lia. }
    destruct is_missing_part; [cbn; discriminate|].
    destruct (negb is_big && negb (bool_decide (is_Some (ul_md5 s)))); [cbn; discriminate|].
    destruct progress as [callback|]; [|by apply Hnext].
    destruct (callback _ _); [cbn; discriminate | by apply Hnext].
Qed.

(** So the loop of [save_file] is never left waiting. *)
Lemma save_file_loop_ends (data : bytes) (file_id : Z) (is_big is_missing_part : bool)
    (progress : option (Z -> Z -> option exn)) (s : upload_loop) :
  let file_size := Z.of_nat (length data) in
  let total := (file_size + part_size - 1) / part_size in
  0 <= ul_position s ->
  snd (iterate (upload_step data file_size is_big is_missing_part file_id total progress)
         (replicate (S (Z.to_nat total)) tt) s) <> Waiting.
Proof.
  intros file_size total Hpos. pose proof part_size_pos as HP.
  apply upload_loop_ends; [done|].
  assert (file_size <= total * part_size).
  { rewrite /total.
    pose proof (Z.div_mod (file_size + part_size - 1) part_size ltac:(lia)).
    pose proof (Z.mod_pos_bound (file_size + part_size - 1) part_size HP). nia. }
  assert (0 <= total) by (apply Z.div_pos; lia).
  rewrite length_drop. fold file_size. lia.
Qed.

End UploadFacts.

(** Whatever the final [stop] of the pool does, the goal is settled by the
    shape of the value. *)
Ltac stop_cases :=
  cbn [exn_eqb];
  repeat match goal with
         | |- context [stop_pool ?i ?p ?ev] =>
             destruct (stop_pool i p ev) as [[? ?] [[]|?]]
         end;
  cbn [snd]; try (intros; discriminate).

(** C9: with an explicit [file_id] and a [file_part] that lies inside the
    file, [save_file] seeks to that part, reads it once, puts that one
    request on the queue and returns (nothing), after releasing its workers
    and sessions; the progress callback is not called and nothing else is
    read. The digest is left out for a resumed part and for a big file: a
    result that carries an MD5 checksum comes from a small file uploaded
    without [file_id]; and a small file uploaded from its first part gets
    the digest of all its bytes. *)
Theorem resumed_upload_sends_one_part
    (md5 : bytes -> bytes) (env : upload_env) (data : bytes)
    (file_id file_part : Z) (progress : option (Z -> Z -> option exn)) :
  let file_size := Z.of_nat (length data) in
  let is_big := 10 * 1024 * 1024 <? file_size in
  let total := (file_size + part_size - 1) / part_size in
  let pool_size := if is_big then 3%nat else 1%nat in
  let workers := if is_big then 12%nat else 1%nat in
  let chunk := take (Z.to_nat part_size) (drop (Z.to_nat (part_size * file_part)) data) in
  let id := if file_id =? 0 then fresh_id env else file_id in
  let rpc :=
    if is_big then SaveBigFilePart id file_part total chunk
    else SaveFilePart id file_part chunk in
  file_content env = Some data ->
  0 < file_size <= 1500 * 1024 * 1024 ->
  (forall i, pool_start env i = None) ->
  0 <= file_part -> part_size * file_part < file_size ->
  (forall callback, progress = Some callback -> forall c t, callback c t = None) ->
  save_file md5 env (Some file_id) file_part progress
    = (replicate pool_size Stopped,
       map SessionStarted (seq 0 pool_size)
       ++ [Sought (part_size * file_part);
           ReadAt (part_size * file_part) part_size (length chunk);
           Put (Some rpc)]
       ++ replicate workers (Put None) ++ [WorkersGathered]
       ++ map SessionStopped (seq 0 pool_size),
       Ok None)
  /\ chunk <> []
  /\ (forall fid part prog id' parts name checksum,
        snd (save_file md5 env fid part prog)
          = Ok (Some (InputFile id' parts name checksum)) ->
        fid = None /\ is_big = false)
  /\ (is_big = false ->
      snd (save_file md5 env None 0 progress)
        = Ok (Some (InputFile (fresh_id env) total (file_basename env)
                      (hexlify (md5 data))))).
Proof.
  intros file_size is_big total pool_size workers chunk id rpc
         Hfile Hsize Hstart Hpart Hinside Hquiet.
  pose proof part_size_pos as HP.
  assert (Hzero : (file_size =? 0) = false) by (apply Z.eqb_neq; lia).
  assert (Hmax : (1500 * 1024 * 1024 <? file_size) = false) by (apply Z.ltb_ge; lia).
  assert (Hseek : (part_size * file_part <? 0) = false) by (apply Z.ltb_ge; nia).
  split; [|split; [|split]].
  - rewrite /save_file Hfile. fold file_size. rewrite Hzero Hmax. fold is_big.
    rewrite bool_decide_eq_true_2; [by eexists|].
    rewrite start_pool_all // Hseek. cbn [replicate iterate].
    rewrite upload_step_resumed; [cbn [ul_position]; lia|].
    cbn [ul_position ul_file_part ul_events ul_returned exn_eqb].
    rewrite stop_pool_all. fold total chunk id.
    rewrite /pool_size /workers /rpc. destruct is_big; cbn [Nat.mul];
      rewrite -!app_assoc; reflexivity.
  - apply read_inside. nia.
  - intros fid part prog id' parts name checksum.
    rewrite /save_file Hfile. fold file_size. rewrite Hzero Hmax. fold is_big.
    set (missing := bool_decide (is_Some fid)).
    destruct (start_pool (pool_start env) 0 _ []) as [[pool events] [[]|e]].
    + destruct (part_size * part <? 0).
      * stop_cases.
      * match goal with
        | |- context [iterate ?step ?turns ?s] =>
            assert (Hend : missing = true -> snd (iterate step turns s) = Done ->
                           ul_returned (fst (iterate step turns s)) = false ->
                           is_big = true);
            [ intros Hm; rewrite Hm; apply resumed_loop_end; cbn [ul_md5];
              by rewrite andb_false_r
            | destruct (iterate step turns s) as [loop ending] ]
        end.
        cbn [fst snd] in Hend.
        destruct ending as [|e|]; [|destruct (exn_eqb e StopTransmission) eqn:?; stop_cases
                                   |stop_cases].
        destruct (ul_returned loop) eqn:Hret; [stop_cases|].
        destruct is_big eqn:Hbig; [stop_cases|].
        intros _. split; [|done].
        destruct fid as [fid|]; [|done]. exfalso.
        assert (missing = true) as Hm by (by apply bool_decide_eq_true_2).
        by specialize (Hend Hm eq_refl eq_refl).
    + destruct (exn_eqb e StopTransmission) eqn:?; stop_cases.
  - intros Hsmall.
    rewrite /save_file Hfile. fold file_size. rewrite Hzero Hmax. fold is_big.
    rewrite Hsmall. rewrite bool_decide_eq_false_2; [by intros []|].
    cbn [negb andb]. rewrite start_pool_all //.
    replace (part_size * 0 <? 0) with false by (symmetry; apply Z.ltb_ge; lia).
    fold total.
    match goal with
    | |- context [iterate ?step (replicate (S (Z.to_nat total)) tt) ?s] =>
        pose proof (small_loop_feeds data file_size (fresh_id env) total progress
                      (S (Z.to_nat total)) Hquiet s [] eq_refl) as Hloop;
        destruct (iterate step (replicate (S (Z.to_nat total)) tt) s) as [loop ending]
    end.
    cbn [ul_position fst snd] in Hloop.
    destruct Hloop as (-> & Hret & Hmd5).
    + lia.
    + replace (Z.to_nat (part_size * 0)) with 0%nat by lia. rewrite drop_0.
      assert (file_size <= total * part_size).
      { rewrite /total.
        pose proof (Z.div_mod (file_size + part_size - 1) part_size ltac:(lia)).
        pose proof (Z.mod_pos_bound (file_size + part_size - 1) part_size HP). nia. }
      assert (0 <= total) by (apply Z.div_pos; lia).
      fold file_size. lia.
    + rewrite Hret Hmd5. replace (Z.to_nat (part_size * 0)) with 0%nat by lia.
      rewrite drop_0 stop_pool_all. reflexivity.
Qed.


Lemma resumed_upload_sends_one_part_witness :
  let env := small_file_env in
  let data := [x61; x62; x63] in
  let file_id := 7 in
  let file_part := 0 in
  let progress : option (Z -> Z -> option exn) := None in
  let file_size := Z.of_nat (length data) in
  let is_big := 10 * 1024 * 1024 <? file_size in
  let total := (file_size + part_size - 1) / part_size in
  let pool_size := if is_big then 3%nat else 1%nat in
  let workers := if is_big then 12%nat else 1%nat in
  let chunk := take (Z.to_nat part_size) (drop (Z.to_nat (part_size * file_part)) data) in
  let id := if file_id =? 0 then fresh_id env else file_id in
  let rpc :=
    if is_big then SaveBigFilePart id file_part total chunk
    else SaveFilePart id file_part chunk in
  save_file toy_digest env (Some file_id) file_part progress
    = (replicate pool_size Stopped,
       map SessionStarted (seq 0 pool_size)
       ++ [Sought (part_size * file_part);
           ReadAt (part_size * file_part) part_size (length chunk);
           Put (Some rpc)]
       ++ replicate workers (Put None) ++ [WorkersGathered]
       ++ map SessionStopped (seq 0 pool_size),
       Ok None)
  /\ chunk <> []
  /\ (forall fid part prog id' parts name checksum,
        snd (save_file toy_digest env fid part prog)
          = Ok (Some (InputFile id' parts name checksum)) ->
        fid = None /\ is_big = false)
  /\ (is_big = false ->
      snd (save_file toy_digest env None 0 progress)
        = Ok (Some (InputFile (fresh_id env) total (file_basename env)
                      (hexlify (toy_digest data))))).
Proof.
  apply (resumed_upload_sends_one_part toy_digest small_file_env [x61; x62; x63] 7 0 None).
  - reflexivity.
  - cbn. lia.
  - reflexivity.
  - lia.
  - cbn. lia.
  - intros callback. discriminate.
Defined.

(** The same run, spelled out. *)
Example resumed_upload_trace :
  save_file toy_digest small_file_env (Some 7) 0 None
  = ([Stopped],
     [SessionStarted 0; Sought 0; ReadAt 0 524288 3;
      Put (Some (SaveFilePart 7 0 [x61; x62; x63]));
      Put None; WorkersGathered; SessionStopped 0],
     Ok None).
Proof. by vm_compute. Qed.

(** ** Downloads *)

Section DownloadFacts.

Variable ctr256_decrypt : bytes -> bytes -> bytes -> bytes.
Variable sha256 : bytes -> bytes.

(** Once the media session is there, [get_file] raises nothing: every
    exception of its [try] block ends in the empty path. *)
Lemma get_file_does_not_raise (env : download_env) (dc_id : Z) (size : option Z)
    (progress : option (Z -> Z -> option exn)) (t t1 : transfer) :
  media_session (sessions env) dc_id t = (t1, Ok tt) ->
  forall e, snd (get_file ctr256_decrypt sha256 env dc_id size progress t) <> Raised e.
Proof.
  intros Hsession e. rewrite /get_file Hsession.
  destruct (get_file_try _ _ _ _ _ _) as [[t2 file_name] [|e'|]]; discriminate.
Qed.

(** A [try] block that fails leaves nothing behind. *)
Lemma get_file_failed (env : download_env) (dc_id : Z) (size : option Z)
    (progress : option (Z -> Z -> option exn)) (t t1 t2 : transfer)
    (file_name : string) (e : exn) :
  media_session (sessions env) dc_id t = (t1, Ok tt) ->
  get_file_try ctr256_decrypt sha256 env size progress t1 = (t2, file_name, Failed e) ->
  let t3 := if exn_eqb e StopTransmission then t2 else with_logged (logged t2 ++ [e]) t2 in
  get_file ctr256_decrypt sha256 env dc_id size progress t
    = (remove_temp file_name t3, Returned EmptyString)
  /\ temp_files (remove_temp file_name t3) !! file_name = None.
Proof.
  intros Hsession Htry t3. rewrite /get_file Hsession Htry. split; [done|].
  apply lookup_delete_eq.
Qed.


(** The CDN loop fails where a part of a chunk does not match its hash. *)
Lemma cdn_loop_rejects (name : string) (progress : option (Z -> Z -> option exn))
    (size : option Z) (key encryption_iv iv : bytes)
    (pre post : list cdn_turn) (turn : cdn_turn) (chunk : bytes) (hashes : list file_hash)
    (s0 : Z * transfer) (offset : Z) (t : transfer) :
  advance (cdn_step ctr256_decrypt sha256 name progress size key encryption_iv) pre s0
    = Some (offset, t) ->
  turn_file turn = Ok (CdnFile chunk) ->
  turn_hashes turn = Ok hashes ->
  counter_iv encryption_iv offset = Ok iv ->
  verify_parts sha256 0 hashes (ctr256_decrypt chunk key iv) = false ->
  iterate (cdn_step ctr256_decrypt sha256 name progress size key encryption_iv)
    (pre ++ turn :: post) s0
    = ((offset, t), Failed AssertionError).
Proof.
  intros Hadv Hfile Hhashes Hiv Hverify. rewrite (iterate_app_advance _ _ _ _ _ Hadv).
  cbn [iterate]. by rewrite /cdn_step Hfile Hiv Hhashes Hverify.
Qed.

(** A failed verification means some part has another digest than the
    server announced. *)
Lemma verify_parts_false (hashes : list file_hash) (decrypted : bytes) (i : nat) :
  verify_parts sha256 i hashes decrypted = false <->
  exists j h, hashes !! j = Some h
    /\ fh_hash h <> sha256 (take (fh_limit h * (i + j + 1) - fh_limit h * (i + j))
                              (drop (fh_limit h * (i + j)) decrypted)).
Proof.
  revert i. induction hashes as [|h hashes IH]; intros i.
  - split; [done|]. by intros (j & h & Hj & _).
  - cbn [verify_parts]. case_bool_decide as Hh.
    + rewrite IH. split.
      * intros (j & h' & Hj & Hne). exists (S j), h'. split; [done|].
        by replace (i + S j)%nat with (S i + j)%nat by lia.
      * intros (j & h' & Hj & Hne). destruct j as [|j].
        -- injection Hj as <-. rewrite Nat.add_0_r in Hne. done.
        -- exists j, h'. split; [done|].
           by replace (S i + j)%nat with (i + S j)%nat by lia.
    + split; [|done]. intros _. exists 0%nat, h. split; [done|].
      by rewrite Nat.add_0_r.
Qed.

End DownloadFacts.

(** C7: when, at any turn the CDN loop reaches, some part of the decrypted
    chunk has another SHA-256 digest than the hash the server gave for it,
    [get_file] stops there: the assertion error is logged, the temporary
    file is removed and the empty path is returned. *)
Theorem cdn_hash_mismatch_aborts
    (ctr256_decrypt : bytes -> bytes -> bytes -> bytes) (sha256 : bytes -> bytes)
    (sessions : session_env) (name : string) (dc dc_id : Z)
    (file_token key encryption_iv iv : bytes)
    (pre post : list cdn_turn) (turn : cdn_turn) (chunk : bytes) (hashes : list file_hash)
    (size : option Z) (progress : option (Z -> Z -> option exn))
    (t t1 t2 t3 : transfer) (offset : Z) (j : nat) (h : file_hash) :
  let env := cdn_download sessions name dc file_token key encryption_iv
               (pre ++ turn :: post) in
  let final := get_file ctr256_decrypt sha256 env dc_id size progress t in
  media_session sessions dc_id t = (t1, Ok tt) ->
  cdn_session sessions dc t1 = (t2, Ok tt) ->
  advance (cdn_step ctr256_decrypt sha256 name progress size key encryption_iv) pre
    (0, create_temp name t2) = Some (offset, t3) ->
  turn_file turn = Ok (CdnFile chunk) ->
  turn_hashes turn = Ok hashes ->
  counter_iv encryption_iv offset = Ok iv ->
  hashes !! j = Some h ->
  fh_hash h <> sha256 (take (fh_limit h * (j + 1) - fh_limit h * j)
                         (drop (fh_limit h * j) (ctr256_decrypt chunk key iv))) ->
  snd final = Returned EmptyString
  /\ temp_files (fst final) !! name = None
  /\ logged (fst final) = logged t3 ++ [AssertionError].
Proof.
  intros env final Hmedia Hcdn Hadv Hfile Hhashes Hiv Hj Hne.
  assert (Hverify : verify_parts sha256 0 hashes (ctr256_decrypt chunk key iv) = false).
  { apply verify_parts_false. exists j, h. split; [done|]. by rewrite Nat.add_0_l. }
  pose proof (cdn_loop_rejects ctr256_decrypt sha256 name progress size key encryption_iv
                iv pre post turn chunk hashes _ offset t3 Hadv Hfile Hhashes Hiv Hverify)
    as Hloop.
  assert (Htry : get_file_try ctr256_decrypt sha256 env size progress t1
                 = (t3, name, Failed AssertionError)).
  { rewrite /get_file_try /env /cdn_download /= Hcdn. by rewrite Hloop. }
  destruct (get_file_failed ctr256_decrypt sha256 env dc_id size progress t t1 t3 name
              AssertionError Hmedia Htry) as [Hget Hgone].
  rewrite /final Hget. cbn [exn_eqb] in Hgone |- *. done.
Qed.

Lemma cdn_hash_mismatch_aborts_witness :
  let turns := [reupload_turn [x09];
                chunk_turn [x61; x62] [{| fh_limit := 2; fh_hash := [x61; x61] |}]] in
  let env := cdn_download reliable_sessions "/tmp/tmpq1" 203 [x07] [x01]
               [x00; x00; x00; x00; x00; x00] turns in
  let final := get_file toy_decrypt toy_digest env 4 (Some 2) None idle_transfer in
  snd final = Returned EmptyString
  /\ temp_files (fst final) !! "/tmp/tmpq1"%string = None
  /\ logged (fst final) = [AssertionError].
Proof.
  apply (cdn_hash_mismatch_aborts toy_decrypt toy_digest reliable_sessions "/tmp/tmpq1"
           203 4 [x07] [x01] [x00; x00; x00; x00; x00; x00] [x00; x00; x00; x00; x00; x00]
           [reupload_turn [x09]] []
           (chunk_turn [x61; x62] [{| fh_limit := 2; fh_hash := [x61; x61] |}])
           [x61; x62] [{| fh_limit := 2; fh_hash := [x61; x61] |}]
           (Some 2) None idle_transfer
           (with_media_sessions {[4]} idle_transfer)
           (with_media_sessions {[203; 4]} idle_transfer)
           (create_temp "/tmp/tmpq1" (with_media_sessions {[203; 4]} idle_transfer))
           0 0 {| fh_limit := 2; fh_hash := [x61; x61] |}).
  - vm_compute. reflexivity.
  - vm_compute. reflexivity.
  - vm_compute. reflexivity.
  - reflexivity.
  - reflexivity.
  - vm_compute. reflexivity.
  - reflexivity.
  - vm_compute. discriminate.
Defined.




(** ** The client life cycle *)


(** Case analysis on a term, where the goal inspects it. *)
Ltac split_on t :=
  match goal with
  | |- context [t] => destruct t as [[]|]; cbn
  | |- context [t] => destruct t; cbn
  | _ => idtac
  end.



(** ** The directory as a last-writer-wins store *)

(** An entity that can be remapped writes its reference under the keys it
    is stored under, and nothing else. *)
Lemma fetch_peer_writes (e : entity) (c : client) :
  remappable e = true ->
  fetch_peer e c =
    (with_directory_maps
       (store (stored_key e) (cached_peer e) (peers_by_id c))
       (store (stored_username e) (cached_peer e) (peers_by_username c))
       (store (stored_phone e) (cached_peer e) (peers_by_phone c)) c, Ok tt).
Proof.
  intros He. destruct c.
  destruct e as [id [h|] [name|] [phone|]|id|id|id [h|] [name|]|id [h|]|]; try done;
    cbn in He; rewrite /stored_key /directory_id /=.
  all: destruct (remappable_channel_peer_id id) as [peer Hpeer]; [lia|];
    rewrite /fetch_peer /= Hpeer //.
Qed.

(** Storing into a map is storing into the empty map and laying the result
    over the map. *)
Lemma store_union {K} `{Countable K} {V} (key : option K) (value : V) (m : gmap K V) :
  store key value m = store key value ∅ ∪ m.
Proof.
  destruct key as [k|]; cbn; [|by rewrite left_id_L].
  by rewrite insert_empty -insert_union_singleton_l.
Qed.

Section Writes.

Context {K : Type} `{Countable K} {V E : Type}.
Variable key : E -> option K.
Variable value : E -> V.

Local Abbreviation written := (written key value).

Lemma written_union (l : list E) (m : gmap K V) :
  written m l = written ∅ l ∪ m.
Proof.
  revert m. induction l as [|e l IH]; intros m; cbn; [by rewrite left_id_L|].
  rewrite /written /= in IH |- *.
  rewrite IH (IH (store _ _ ∅)) (store_union _ _ m) assoc_L //.
Qed.

(** Writing the same run twice is writing it once. *)
Lemma written_twice (l : list E) (m : gmap K V) :
  written (written m l) l = written m l.
Proof.
  rewrite (written_union l (written m l)) (written_union l m) assoc_L.
  by rewrite (idemp (∪) (written ∅ l)).
Qed.

Lemma written_app (l1 l2 : list E) (m : gmap K V) :
  written m (l1 ++ l2) = written (written m l1) l2.
Proof. by rewrite /written foldl_app. Qed.

(** A key none of the writes goes to keeps its entry. *)
Lemma written_other (k : K) (l : list E) (m : gmap K V) :
  Forall (fun e => key e <> Some k) l -> written m l !! k = m !! k.
Proof.
  revert m. induction l as [|e l IH]; intros m Hl; [done|].
  apply Forall_cons in Hl as [He Hl]. cbn. rewrite /written in IH. rewrite IH //.
  destruct (key e) as [k'|]; cbn; [|done].
  rewrite lookup_insert_ne //. congruence.
Qed.

(** The last write to a key is what the key holds. *)
Lemma written_last (k : K) (pre post : list E) (e : E) (m : gmap K V) :
  key e = Some k -> Forall (fun e' => key e' <> Some k) post ->
  written m (pre ++ e :: post) !! k = Some (value e).
Proof.
  intros He Hpost. rewrite written_app. cbn.
  change (foldl _ ?m0 post) with (written m0 post).
  rewrite written_other // He /=. by rewrite lookup_insert_eq.
Qed.

End Writes.

(** [fetch_peers] on entities that can be remapped is three runs of
    writes, one per map. *)
Lemma fetch_peers_writes (l : list entity) (c : client) :
  Forall (fun e => remappable e = true) l ->
  fetch_peers l c =
    (with_directory_maps
       (written stored_key cached_peer (peers_by_id c) l)
       (written stored_username cached_peer (peers_by_username c) l)
       (written stored_phone cached_peer (peers_by_phone c) l) c, Ok tt).
Proof.
  revert c. induction l as [|e l IH]; intros c Hl.
  - by destruct c.
  - apply Forall_cons in Hl as [He Hl].
    cbn [fetch_peers]. rewrite /bind fetch_peer_writes // IH //.
Qed.

(** [send] on a started client hands exactly one query to the session,
    whatever the answer. *)
Lemma send_logs_one_query (session_send : list request -> request -> result response)
    (data : request) (c : client) :
  is_started c = true ->
  requests (fst (send session_send data c)) = requests c ++ [wrap_query c data].
Proof.
  intros Hs. rewrite /send /bind /get /modify /= Hs /=.
  destruct (session_send _ _) as [r|x]; [|done]. cbn.
  set c1 := set_requests _ c.
  destruct (fetch_peers_frame (default [] (r_users r)) c1) as (_ & _ & _ & _ & F1 & _).
  destruct (fetch_peers (default [] (r_users r)) c1) as [c2 [[]|x]] eqn:E1; cbn in *; [|done].
  destruct (fetch_peers_frame (default [] (r_chats r)) c2) as (_ & _ & _ & _ & F2 & _).
  destruct (fetch_peers (default [] (r_chats r)) c2) as [c3 [[]|x]] eqn:E2; cbn in *;
    by rewrite F2 F1.
Qed.

(** X1: the directory is a last-writer-wins store. Handing [fetch_peers]
    a list of entities a second time changes nothing, and the reference
    kept under an id is the one of the last entity stored under it. *)
Theorem directory_is_last_writer_wins (l : list entity) (c : client) :
  Forall (fun e => remappable e = true) l ->
  fetch_peers (l ++ l) c = fetch_peers l c
  /\ fetch_peers l (fst (fetch_peers l c)) = fetch_peers l c
  /\ forall pre e post k,
       l = pre ++ e :: post -> stored_key e = Some k ->
       Forall (fun e' => stored_key e' <> Some k) post ->
       peers_by_id (fst (fetch_peers l c)) !! k = Some (cached_peer e).
Proof.
  intros Hl.
  assert (fetch_peers l (fst (fetch_peers l c)) = fetch_peers l c) as Htwice.
  { rewrite (fetch_peers_writes l c) // fetch_peers_writes //.
    destruct c; cbn. by rewrite !written_twice. }
  split; [|split; [done|]].
  - rewrite fetch_peers_app. rewrite -{2}Htwice.
    by rewrite (fetch_peers_writes l c).
  - intros pre e post k -> He Hpost.
    rewrite fetch_peers_writes //. destruct c; cbn.
    by apply written_last.
Qed.

Lemma directory_is_last_writer_wins_witness :
  let l := [User 5 (Some 7) (Some "Bob"%string) None; Chat 3;
            User 5 (Some 8) None (Some "3912"%string)] in
  fetch_peers (l ++ l) new_client = fetch_peers l new_client
  /\ fetch_peers l (fst (fetch_peers l new_client)) = fetch_peers l new_client
  /\ forall pre e post k,
       l = pre ++ e :: post -> stored_key e = Some k ->
       Forall (fun e' => stored_key e' <> Some k) post ->
       peers_by_id (fst (fetch_peers l new_client)) !! k = Some (cached_peer e).
Proof.
  apply (directory_is_last_writer_wins
           [User 5 (Some 7) (Some "Bob"%string) None; Chat 3;
            User 5 (Some 8) None (Some "3912"%string)] new_client).
  apply (bool_decide_unpack _). vm_compute. exact I.
Defined.



(** X3: an id that is not in the directory is asked of the server under
    the entity's own id. On a started client [resolve_peer] sends exactly
    one query: [users.GetUsers] with the id for a positive id, and
    [channels.GetChannels] with [K] for the id a channel [K] is remapped
    to. *)
Theorem missing_peer_is_asked_by_its_own_id
    (session_send : list request -> request -> result response)
    (c : client) (id K peer : Z) :
  is_started c = true ->
  0 < id -> peers_by_id c !! id = None ->
  0 <= K -> channel_peer_id K = Ok peer -> peers_by_id c !! peer = None ->
  requests (fst (resolve_peer session_send (PeerInt id) c))
    = requests c ++ [wrap_query c (GetUsers [(id, 0)])]
  /\ requests (fst (resolve_peer session_send (PeerInt peer) c))
       = requests c ++ [wrap_query c (GetChannels [(K, 0)])].
Proof.
  intros Hs Hid Hnone HK Hpeer Hnone'. split.
  - rewrite /resolve_peer /bind /get /= Hnone.
    assert ((0 <? id) = true) as -> by lia.
    pose proof (send_logs_one_query session_send (GetUsers [(id, 0)]) c Hs) as Hlog.
    destruct (send session_send (GetUsers [(id, 0)]) c) as [c1 [r|x]]; cbn in *; [|done].
    destruct (r_items r) as [users|]; cbn; [|done].
    destruct (fetch_peers_frame users c1) as (_ & _ & _ & _ & F & _).
    destruct (fetch_peers users c1) as [c2 [[]|x]]; cbn in *; rewrite -?F in Hlog; [|done].
    by destruct (peers_by_id c2 !! id).
  - destruct (channel_peer_id_ok K HK) as (peer' & Hpeer' & Hstr & Hneg).
    assert (peer' = peer) as -> by congruence.
    rewrite /resolve_peer /bind /get /= Hnone'.
    assert ((0 <? peer) = false) as -> by lia.
    rewrite Hstr.
    change ("-100" +:+ Py.str K)%string
      with (String "-" (String "1" (String "0" (String "0" (Py.str K))))).
    assert (forall s, String.prefix "-100" (String "-" (String "1" (String "0" (String "0" s))))
                      = true) as -> by (by intros []).
    cbn [Py.drop].
    rewrite str_of_int_roundtrip.
    pose proof (send_logs_one_query session_send (GetChannels [(K, 0)]) c Hs) as Hlog.
    destruct (send session_send (GetChannels [(K, 0)]) c) as [c1 [r|x]]; cbn in *; [|done].
    by destruct (peers_by_id c1 !! peer).
Qed.

Lemma missing_peer_is_asked_by_its_own_id_witness :
  requests (fst (resolve_peer offline (PeerInt 42) (started new_client)))
    = [GetUsers [(42, 0)]]
  /\ requests (fst (resolve_peer offline (PeerInt (-1001234)) (started new_client)))
       = [GetChannels [(1234, 0)]].
Proof.
  apply (missing_peer_is_asked_by_its_own_id offline (started new_client) 42 1234 (-1001234)).
  - reflexivity.
  - lia.
  - reflexivity.
  - lia.
  - reflexivity.
  - reflexivity.
Defined.

(** ** The reconciler only adds *)

#[local] Instance grows_preorder : PreOrder grows.
Proof.
  split.
  - by intros c.
  - intros c1 c2 c3 (A1 & A2 & A3 & A4 & A5 & A6) (B1 & B2 & B3 & B4 & B5 & B6).
    repeat split; try (by etrans); congruence.
Qed.

#[local] Instance tame_preorder : PreOrder tame.
Proof.
  split.
  - by intros c.
  - intros c1 c2 c3 [A1 A2] [B1 B2]. split; [by etrans|auto].
Qed.

Section Keeps.

Context {A B : Type}.
Variable R : client -> client -> Prop.
Context `{!PreOrder R}.

Lemma keeps_ret (a : A) : keeps R (ret a).
Proof. by intros c. Qed.

Lemma keeps_raise (e : exn) : keeps R (raise (A := A) e).
Proof. by intros c. Qed.

Lemma keeps_get (f : client -> A) : keeps R (get f).
Proof. by intros c. Qed.

Lemma keeps_attr (o : option A) : keeps R (attr o).
Proof. by destruct o; intros c. Qed.

Lemma keeps_bind (m : M A) (k : A -> M B) :
  keeps R m -> (forall a, keeps R (k a)) -> keeps R (bind m k).
Proof.
  intros Hm Hk c. specialize (Hm c). rewrite /bind.
  destruct (m c) as [c1 [a|e]]; cbn in *; [|done].
  etrans; [exact Hm|apply Hk].
Qed.

Lemma keeps_try_except (m : M A) (catches : exn -> bool) (handler : exn -> M A) :
  keeps R m -> (forall e, keeps R (handler e)) -> keeps R (try_except m catches handler).
Proof.
  intros Hm Hh c. specialize (Hm c). rewrite /try_except.
  destruct (m c) as [c1 [a|e]]; cbn in *; [done|].
  destruct (catches e); [|done].
  etrans; [exact Hm|apply Hh].
Qed.

End Keeps.

Create HintDb keeps.

(** One step through a computation written with the monad's operations. *)
Ltac keeps_step :=
  try (match goal with H : _ |- keeps _ _ => solve [apply H] end);
  lazymatch goal with
  | |- keeps _ (ret _) => apply: keeps_ret
  | |- keeps _ (raise _) => apply: keeps_raise
  | |- keeps _ (get _) => apply: keeps_get
  | |- keeps _ (attr _) => apply: keeps_attr
  | |- keeps _ (bind _ _) => apply: keeps_bind; [|intros ?]
  | |- keeps _ (try_except _ _ _) => apply: keeps_try_except; [|intros ?]
  | |- keeps _ (if ?b then _ else _) => destruct b
  | |- keeps _ (match ?x with _ => _ end) => destruct x
  | |- keeps _ _ => solve [eauto with keeps]
  end.

Ltac keeps_all := repeat keeps_step.

Lemma tame_of_frame (c c' : client) :
  channels_pts c' = channels_pts c /\ is_started c' = is_started c
  /\ no_updates c' = no_updates c /\ takeout_id c' = takeout_id c
  /\ requests c' = requests c /\ updates_queue c' = updates_queue c
  /\ errors c' = errors c ->
  tame c c'.
Proof.
  intros (F1 & F2 & F3 & F4 & F5 & F6 & F7).
  rewrite /tame /grows /histories_bounded F1 F2 F3 F4 F5 F6 F7. done.
Qed.

Lemma fetch_peers_tame (l : list entity) : keeps tame (fetch_peers l).
Proof. intros c. apply tame_of_frame, fetch_peers_frame. Qed.

#[local] Hint Resolve fetch_peers_tame : keeps.

Lemma log_request_tame (l : list request) :
  keeps tame (fun c => modify (set_requests (requests c ++ l)) c).
Proof.
  intros c. split; [|done]. repeat split; try done. by apply prefix_app_r.
Qed.

Section ReconcilerKeeps.

Variable session_send : list request -> request -> result response.

Lemma send_tame (data : request) : keeps tame (send session_send data).
Proof.
  intros c. rewrite /send /bind /get /modify /=.
  destruct (is_started c); cbn; [|done].
  set c1 := set_requests _ c.
  assert (tame c c1) as H1.
  { split; [|done]. repeat split; try done. by apply prefix_app_r. }
  destruct (session_send _ _) as [r|x]; [|done].
  etrans; [exact H1|].
  assert (keeps tame (fetch_peers (default [] (r_users r));;
                      fetch_peers (default [] (r_chats r));; ret r)) as H2
    by keeps_all.
  apply H2.
Qed.

#[local] Hint Resolve send_tame : keeps.

Lemma resolve_peer_tame (peer : peer_id) : keeps tame (resolve_peer session_send peer).
Proof.
  rewrite /resolve_peer. keeps_all.
Qed.

#[local] Hint Resolve resolve_peer_tame : keeps.

Lemma refetch_tame (u : update) (channel_id pts pts_count : option Z)
    (users chats : list entity) :
  keeps tame (refetch_channel_difference session_send u channel_id pts pts_count users chats).
Proof.
  rewrite /refetch_channel_difference /remapped_channel /pts_before. keeps_all.
Qed.

Lemma track_pts_bounded (history history' : list Z) (pts : Z) :
  NoDup history -> (length history <= 50)%nat ->
  track_pts history pts = Some history' ->
  NoDup history' /\ (length history' <= 50)%nat.
Proof.
  intros Hnd Hlen. rewrite /track_pts.
  case_bool_decide as Hin; [done|]. intros [= <-].
  assert (NoDup (history ++ [pts])) as Hnd'.
  { apply NoDup_app. split; [done|]. split; [|apply NoDup_singleton].
    intros x Hx ->%list_elem_of_singleton. done. }
  destruct (50 <? length (history ++ [pts]))%nat eqn:E.
  - split.
    + eapply sublist_NoDup; [exact Hnd'|]. apply sublist_drop.
    + rewrite length_drop length_app /=. lia.
  - split; [done|]. apply Nat.ltb_ge in E. done.
Qed.

Lemma put_tame (item : dispatched) :
  keeps tame (let* queue := get updates_queue in
              modify (set_updates_queue (queue ++ [item]))).
Proof.
  intros c. split; [|done]. repeat split; try done. by apply prefix_app_r.
Qed.

Lemma handle_update_tame (u : update) (users chats : list entity) :
  keeps tame (handle_update session_send u users chats).
Proof.
  rewrite /handle_update. apply: keeps_bind.
  { destruct (upd_class u); first [apply refetch_tame | apply: keeps_ret]. }
  intros [users' chats']. apply: keeps_bind.
  - destruct (update_channel_id u) as [cid|]; [|apply: keeps_ret].
    destruct (upd_pts u) as [p|]; [|apply: keeps_ret].
    destruct (negb (cid =? 0) && negb (p =? 0)); [|apply: keeps_ret].
    intros c. rewrite /bind /get /modify /=.
    destruct (track_pts _ p) as [h'|] eqn:E; cbn.
    + split; [done|]. intros Hb. apply map_Forall_insert_2; [|done].
      eapply track_pts_bounded; [| |exact E].
      * destruct (channels_pts c !! cid) as [h|] eqn:Eh; cbn; [|apply NoDup_nil_2].
        by destruct (Hb _ _ Eh).
      * destruct (channels_pts c !! cid) as [h|] eqn:Eh; cbn; [|lia].
        by destruct (Hb _ _ Eh).
    + split; [done|]. intros Hb. apply map_Forall_insert_2; [|done].
      destruct (channels_pts c !! cid) as [h|] eqn:Eh; cbn.
      * by destruct (Hb _ _ Eh).
      * split; [apply NoDup_nil_2|cbn; lia].
  - intros deliver. apply: keeps_bind; [|intros ?; apply: keeps_ret].
    destruct deliver; [apply put_tame|apply: keeps_ret].
Qed.

Lemma handle_updates_tame (us : list update) (users chats : list entity) :
  keeps tame (handle_updates session_send us users chats).
Proof.
  revert users chats. induction us as [|u us IH]; intros users chats; cbn.
  - apply: keeps_ret.
  - apply: keeps_bind; [apply handle_update_tame|]. intros [users' chats']. apply IH.
Qed.

Lemma handle_envelope_tame (e : envelope) : keeps tame (handle_envelope session_send e).
Proof.
  pose proof handle_updates_tame. pose proof put_tame.
  destruct e; cbn; rewrite /put_update; keeps_all.
Qed.

(** One turn of the worker keeps what was there. *)
Lemma updates_worker_step_tame (e : envelope) (c : client) :
  tame c (updates_worker_step session_send e c).
Proof.
  rewrite /updates_worker_step.
  pose proof (handle_envelope_tame e c) as H.
  destruct (handle_envelope session_send e c) as [c' [[]|x]]; cbn in H; [done|].
  etrans; [exact H|]. split; [|done]. repeat split; try done. by apply prefix_app_r.
Qed.

(** So does the worker on any queue. *)
Lemma updates_worker_tame (queue : list (option envelope)) (c : client) :
  tame c (fst (updates_worker session_send queue c)).
Proof.
  revert c. induction queue as [|[e|] queue IH]; intros c; cbn; [done| |done].
  etrans; [apply updates_worker_step_tame|apply IH].
Qed.

End ReconcilerKeeps.

(** ** The worker under arbitrary traffic *)

Section RefetchFacts.

Variable session_send : list request -> request -> result response.

(** The defensive re-fetch when the server refuses it: the query is
    logged, [ChannelPrivate] is swallowed, anything else is raised. *)
Lemma refetch_refused (u : update) (m : message) (cid p n peer : Z) (channel : input_peer)
    (users chats : list entity) (e : exn) (c : client) :
  let query := GetChannelDifference channel (msg_id m) (msg_id m) (p - n) p in
  let c1 := set_requests (requests c ++ [wrap_query c query]) c in
  upd_message u = Some m -> msg_empty m = false ->
  channel_peer_id cid = Ok peer -> peers_by_id c !! peer = Some channel ->
  is_started c = true ->
  session_send (requests c) (wrap_query c query) = Raise e ->
  refetch_channel_difference session_send u (Some cid) (Some p) (Some n) users chats c
    = if exn_eqb e ChannelPrivate then (c1, Ok (users, chats)) else (c1, Raise e).
Proof.
  intros query c1 Hm Hempty Hpeer Hchannel Hs Hanswer.
  rewrite /refetch_channel_difference Hm /bind /= Hempty /try_except /bind /=.
  rewrite /remapped_channel Hpeer /= (resolve_peer_cached _ peer channel) //=.
  rewrite /send /bind /get /modify /= Hs /= Hanswer /=.
  by destruct (exn_eqb e ChannelPrivate).
Qed.

End RefetchFacts.

(** X4: whatever the traffic, the sequence tracker stays small. If every
    channel's history is free of duplicates and at most fifty entries long,
    it is so again after the updates worker has gone through any queue of
    envelopes, with any answers from the server. *)
Theorem tracker_histories_stay_bounded
    (session_send : list request -> request -> result response)
    (queue : list (option envelope)) (c : client) :
  histories_bounded c ->
  histories_bounded (fst (updates_worker session_send queue c)).
Proof. intros Hc. by apply (updates_worker_tame session_send queue c). Qed.

Lemma tracker_histories_stay_bounded_witness :
  histories_bounded (fst (updates_worker offline (feed 7 (map Z.of_nat (seq 1 60))) new_client)).
Proof.
  apply (tracker_histories_stay_bounded offline (feed 7 (map Z.of_nat (seq 1 60))) new_client).
  apply map_Forall_empty.
Defined.

(** X5: the updates worker only adds. Going through any queue of
    envelopes, it leaves the updates already handed to the dispatcher, the
    errors already logged and the queries already sent where they were, in
    their order, and it does not touch [is_started], [no_updates] or
    [takeout_id]. *)
Theorem updates_worker_only_appends
    (session_send : list request -> request -> result response)
    (queue : list (option envelope)) (c : client) :
  let c' := fst (updates_worker session_send queue c) in
  delivered c `prefix_of` delivered c'
  /\ errors c `prefix_of` errors c'
  /\ requests c `prefix_of` requests c'
  /\ is_started c' = is_started c
  /\ no_updates c' = no_updates c
  /\ takeout_id c' = takeout_id c.
Proof.
  destruct (updates_worker_tame session_send queue c) as [(G1 & G2 & G3 & G4 & G5 & G6) _].
  repeat split; try done. destruct G2 as [more Hq].
  rewrite /delivered Hq map_app. by apply prefix_app_r.
Qed.

(** X6: when the defensive re-fetch for an [UpdateNewChannelMessage] is
    refused by the server, the query is logged and, unless the error is
    [ChannelPrivate], the worker gives up the envelope: neither this update
    nor the ones after it reach the dispatcher, the sequence number is not
    recorded and the error is logged. A [ChannelPrivate] is swallowed: the
    update, when its sequence number is new, is delivered after those
    already queued. *)
Theorem refused_refetch_gives_up_the_envelope
    (session_send : list request -> request -> result response)
    (c : client) (u : update) (m : message) (cid p n peer : Z) (channel : input_peer)
    (users chats : list entity) (rest : list update) (e : exn) :
  let c0 := fst (fetch_peers chats (fst (fetch_peers users c))) in
  let query := GetChannelDifference channel (msg_id m) (msg_id m) (p - n) p in
  let c' := updates_worker_step session_send (Updates (u :: rest) users chats) c in
  upd_class u = UpdateNewChannelMessage ->
  upd_message u = Some m -> msg_empty m = false ->
  update_channel_id u = Some cid -> upd_pts u = Some p -> upd_pts_count u = Some n ->
  cid <> 0 -> p <> 0 -> p ∉ default [] (channels_pts c !! cid) ->
  is_started c = true ->
  Forall (fun e' => remappable e' = true) (users ++ chats) ->
  channel_peer_id cid = Ok peer -> peers_by_id c0 !! peer = Some channel ->
  session_send (requests c) (wrap_query c query) = Raise e ->
  if exn_eqb e ChannelPrivate
  then (delivered c ++ [u]) `prefix_of` delivered c'
       /\ (requests c ++ [wrap_query c query]) `prefix_of` requests c'
  else c' = set_errors (errors c ++ [e])
              (set_requests (requests c ++ [wrap_query c query]) c0).
Proof.
  intros c0 query c' Hclass Hm Hempty Hcid Hp Hn Hcid0 Hp0 Hfresh Hs Hl Hpeer Hchannel Hanswer.
  apply Forall_app in Hl as [Hu Hc].
  pose proof (fetch_peers_returns users c Hu) as R1.
  pose proof (fetch_peers_frame users c) as F1. cbn zeta in F1.
  destruct (fetch_peers users c) as [cA rA] eqn:EA. cbn in R1, F1. subst rA.
  pose proof (fetch_peers_returns chats cA Hc) as R2.
  pose proof (fetch_peers_frame chats cA) as F2. cbn zeta in F2.
  subst c0. cbn [fst] in *.
  destruct (fetch_peers chats cA) as [c0 r0] eqn:E0. cbn in R2, F2, Hchannel. subst r0.
  destruct F1 as (A1 & A2 & A3 & A4 & A5 & A6 & A7).
  destruct F2 as (B1 & B2 & B3 & B4 & B5 & B6 & B7).
  assert (wrap_query c0 query = wrap_query c query) as Hwrap
    by (rewrite /wrap_query B3 A3 B4 A4 //).
  assert (requests c0 = requests c) as Hreq by congruence.
  assert (is_started c0 = true) as Hs0 by congruence.
  pose proof (refetch_refused session_send u m cid p n peer channel users chats e c0
                Hm Hempty Hpeer Hchannel Hs0) as Href.
  cbn zeta in Href. rewrite Hwrap Hreq in Href. specialize (Href Hanswer).
  subst c'. rewrite /updates_worker_step.
  assert (handle_envelope session_send (Updates (u :: rest) users chats) c
          = let (c1, r) :=
              refetch_channel_difference session_send u (Some cid) (Some p) (Some n)
                users chats c0 in
            match r with
            | Raise x => (c1, Raise x)
            | Ok (users', chats') =>
                match track_pts (default [] (channels_pts c !! cid)) p with
                | None => (c1, Raise e)
                | Some h' =>
                    handle_updates session_send rest users' chats'
                      (set_updates_queue (updates_queue c1 ++ [(u, users', chats')])
                         (set_channels_pts (<[cid := h']> (channels_pts c1)) c1))
                end
            end) as ->.
  { rewrite /handle_envelope {1}/bind EA {1}/bind E0.
    cbn [handle_updates]. rewrite {1}/bind /handle_update Hclass Hcid Hp Hn.
    rewrite {1}/bind Href.
    destruct (exn_eqb e ChannelPrivate); [|done].
    assert ((cid =? 0) = false) as -> by lia.
    assert ((p =? 0) = false) as -> by lia.
    cbn [negb andb].
    rewrite /bind /get /modify. cbn [fst snd set_requests channels_pts].
    rewrite B1 A1.
    destruct (track_pts _ p) as [h'|] eqn:Et; [done|].
    rewrite /track_pts bool_decide_eq_false_2 // in Et. }
  rewrite Href.
  destruct (exn_eqb e ChannelPrivate).
  - destruct (track_pts _ p) as [h'|] eqn:Et.
    2: { rewrite /track_pts bool_decide_eq_false_2 // in Et. }
    set c2 := set_updates_queue _ _.
    pose proof (handle_updates_tame session_send rest users chats c2) as [(G1 & G2 & _) _].
    assert (updates_queue c2 = updates_queue c ++ [(u, users, chats)]) as Hq2
      by (cbn; congruence).
    assert (requests c2 = requests c ++ [wrap_query c query]) as Hr2 by done.
    rewrite Hq2 in G2. rewrite Hr2 in G1.
    assert ((delivered c ++ [u]) `prefix_of`
              delivered (handle_updates session_send rest users chats c2).1) as G3.
    { destruct G2 as [more Hq]. rewrite /delivered Hq !map_app /=. by apply prefix_app_r. }
    by destruct (handle_updates session_send rest users chats c2) as [c3 [[]|x]].
  - cbn. by rewrite B7 A7.
Qed.

Lemma refused_refetch_gives_up_the_envelope_witness :
  let m := {| msg_empty := false; msg_id := 41; msg_to_channel_id := Some 77 |} in
  let u := {| upd_class := UpdateNewChannelMessage; upd_message := Some m;
              upd_channel_id := None; upd_pts := Some 10; upd_pts_count := Some 1 |} in
  let chats := [Channel 77 (Some 5) None] in
  let query := GetChannelDifference (InputPeerChannel 77 (Some 5)) 41 41 9 10 in
  updates_worker_step offline (Updates [u; channel_update 77 11] [] chats) (started new_client)
    = set_errors [ConnectionError]
        (set_requests [query] (fst (fetch_peers chats (started new_client)))).
Proof.
  apply (refused_refetch_gives_up_the_envelope offline (started new_client)
           {| upd_class := UpdateNewChannelMessage;
              upd_message := Some {| msg_empty := false; msg_id := 41;
                                     msg_to_channel_id := Some 77 |};
              upd_channel_id := None; upd_pts := Some 10; upd_pts_count := Some 1 |}
           {| msg_empty := false; msg_id := 41; msg_to_channel_id := Some 77 |}
           77 10 1 (-10077) (InputPeerChannel 77 (Some 5))
           [] [Channel 77 (Some 5) None] [channel_update 77 11] ConnectionError).
  - reflexivity.
  - reflexivity.
  - reflexivity.
  - reflexivity.
  - reflexivity.
  - reflexivity.
  - lia.
  - lia.
  - apply not_elem_of_nil.
  - reflexivity.
  - apply (bool_decide_unpack _). vm_compute. exact I.
  - reflexivity.
  - reflexivity.
  - reflexivity.
Defined.

(** ** More about downloads *)

Lemma write_temp_write_temp (name : string) (a b : bytes) (t : transfer) :
  write_temp name b (write_temp name a t) = write_temp name (a ++ b) t.
Proof.
  rewrite /write_temp /with_temp_files /=. f_equal.
  by rewrite lookup_insert_eq /= insert_insert_eq assoc_L.
Qed.

Lemma write_temp_create_temp (name : string) (data : bytes) (t : transfer) :
  write_temp name data (create_temp name t)
  = with_temp_files (<[name := data]> (temp_files t)) t.
Proof.
  rewrite /write_temp /create_temp /with_temp_files /=. f_equal.
  by rewrite lookup_insert_eq /= insert_insert_eq.
Qed.

Lemma media_session_frame (senv : session_env) (dc_id : Z) (t : transfer) :
  let t1 := fst (media_session senv dc_id t) in
  temp_files t1 = temp_files t /\ logged t1 = logged t /\ own_dc_id t1 = own_dc_id t.
Proof.
  rewrite /media_session.
  repeat first [case_bool_decide | case_match]; done.
Qed.

Lemma cdn_session_frame (senv : session_env) (dc_id : Z) (t : transfer) :
  let t1 := fst (cdn_session senv dc_id t) in
  temp_files t1 = temp_files t /\ logged t1 = logged t /\ own_dc_id t1 = own_dc_id t.
Proof.
  rewrite /cdn_session.
  repeat first [case_bool_decide | case_match]; done.
Qed.

Lemma iterate_cons {T S : Type} (step : T -> S -> step_result S) (turn : T)
    (turns : list T) (s : S) :
  iterate step (turn :: turns) s =
    match step turn s with
    | Continue s' => iterate step turns s'
    | Break s' => (s', Done)
    | Fail e s' => (s', Failed e)
    end.
Proof. done. Qed.

Lemma plain_step_chunk (name : string) (progress : option (Z -> Z -> option exn))
    (size : option Z) (chunk : bytes) (offset : Z) (t : transfer) :
  chunk <> [] -> report progress (offset + limit) size = None ->
  plain_step name progress size (Ok (UploadFile chunk)) (offset, t)
  = Continue (offset + limit, write_temp name chunk t).
Proof. intros Hne Hreport. destruct chunk; [done|]. cbn. by rewrite Hreport. Qed.

(** The plain loop over chunks that are not empty, up to the empty chunk
    that ends the file. *)
Lemma plain_loop_writes (name : string) (progress : option (Z -> Z -> option exn))
    (size : option Z) (rest : list (result file_answer)) (chunks : list bytes) :
  (forall offset, report progress offset size = None) ->
  forall (chunk : bytes) (offset : Z) (t : transfer),
    Forall (fun chunk => chunk <> []) (chunk :: chunks) ->
    iterate (plain_step name progress size)
      (map (fun chunk => Ok (UploadFile chunk)) (chunk :: chunks)
       ++ Ok (UploadFile []) :: rest) (offset, t)
    = ((offset + Z.of_nat (S (length chunks)) * limit,
        write_temp name (chunk ++ concat chunks) t), Done).
Proof.
  intros Hreport. induction chunks as [|next chunks IH]; intros chunk offset t Hne.
  - apply Forall_cons in Hne as [Hne _].
    cbn [map app]. rewrite iterate_cons plain_step_chunk // iterate_cons /=.
    rewrite app_nil_r. do 2 f_equal; lia.
  - apply Forall_cons in Hne as [Hne Hrest].
    change (map _ (chunk :: next :: chunks) ++ _)
      with (Ok (UploadFile chunk)
            :: (map (fun chunk => Ok (UploadFile chunk)) (next :: chunks)
                ++ Ok (UploadFile []) :: rest)).
    rewrite iterate_cons plain_step_chunk //.
    rewrite IH // write_temp_write_temp. cbn [concat length]. rewrite assoc_L.
    do 2 f_equal; lia.
Qed.

(** What [get_file] does with a download the origin serves in chunks
    that are not empty, up to the empty chunk that ends the file. *)
Lemma plain_download_result
    (ctr256_decrypt : bytes -> bytes -> bytes -> bytes) (sha256 : bytes -> bytes)
    (senv : session_env) (name : string) (dc_id : Z)
    (first : bytes) (chunks : list bytes) (rest : list (result file_answer))
    (size : option Z) (progress : option (Z -> Z -> option exn)) (t t1 : transfer) :
  media_session senv dc_id t = (t1, Ok tt) ->
  Forall (fun chunk => chunk <> []) (first :: chunks) ->
  (forall offset, report progress offset size = None) ->
  get_file ctr256_decrypt sha256
    (plain_download senv name first
       (map (fun chunk => Ok (UploadFile chunk)) chunks ++ Ok (UploadFile []) :: rest))
    dc_id size progress t
  = (with_temp_files (<[name := first ++ concat chunks]> (temp_files t)) t1,
     Returned name).
Proof.
  intros Hsession Hne Hreport.
  pose proof (media_session_frame senv dc_id t) as (Hfiles & _).
  rewrite Hsession in Hfiles. cbn in Hfiles.
  rewrite /get_file Hsession /get_file_try.
  cbn [plain_download first_answer temp_name later_answers sessions].
  change (Ok (UploadFile first) :: map _ chunks ++ _)
    with (map (fun chunk => Ok (UploadFile chunk)) (first :: chunks)
          ++ Ok (UploadFile []) :: rest).
  rewrite plain_loop_writes // write_temp_create_temp Hfiles //.
Qed.

(** X7: a download the origin serves itself stores what it was sent. When
    the answers are chunks that are not empty followed by an empty chunk,
    and the progress callback (if any) does not raise, [get_file] returns
    the name of the temporary file, which holds the chunks one after the
    other; nothing is logged, no other file is touched, and the answers
    after the empty chunk are not looked at. *)
Theorem plain_download_stores_the_chunks
    (ctr256_decrypt : bytes -> bytes -> bytes -> bytes) (sha256 : bytes -> bytes)
    (senv : session_env) (name : string) (dc_id : Z)
    (first : bytes) (chunks : list bytes) (rest : list (result file_answer))
    (size : option Z) (progress : option (Z -> Z -> option exn)) (t t1 : transfer) :
  let env := plain_download senv name first
               (map (fun chunk => Ok (UploadFile chunk)) chunks
                ++ Ok (UploadFile []) :: rest) in
  let final := get_file ctr256_decrypt sha256 env dc_id size progress t in
  media_session senv dc_id t = (t1, Ok tt) ->
  Forall (fun chunk => chunk <> []) (first :: chunks) ->
  (forall offset, report progress offset size = None) ->
  snd final = Returned name
  /\ temp_files (fst final) !! name = Some (first ++ concat chunks)
  /\ same_files_but name (temp_files t) (fst final)
  /\ logged (fst final) = logged t
  /\ media_sessions (fst final) = media_sessions t1.
Proof.
  intros env final Hsession Hne Hreport.
  pose proof (media_session_frame senv dc_id t) as (_ & Hlogged & _).
  rewrite Hsession in Hlogged. cbn in Hlogged.
  subst final env. rewrite (plain_download_result _ _ _ _ _ _ _ _ _ _ t t1) //. cbn.
  repeat split; try done.
  - by rewrite lookup_insert_eq.
  - intros k Hk. by rewrite lookup_insert_ne.
Qed.

Lemma plain_download_stores_the_chunks_witness :
  let env := plain_download reliable_sessions "tmp1" [x61; x62]
               (map (fun chunk => Ok (UploadFile chunk)) [[x63]; [x64; x65]]
                ++ Ok (UploadFile []) :: [Raise ConnectionError]) in
  let final := get_file toy_decrypt toy_digest env 2 (Some 5) None idle_transfer in
  snd final = Returned "tmp1"%string
  /\ temp_files (fst final) !! "tmp1"%string
     = Some ([x61; x62] ++ concat [[x63]; [x64; x65]])
  /\ same_files_but "tmp1" (temp_files idle_transfer) (fst final)
  /\ logged (fst final) = logged idle_transfer
  /\ media_sessions (fst final) = media_sessions (with_media_sessions {[2]} idle_transfer).
Proof.
  apply (plain_download_stores_the_chunks toy_decrypt toy_digest reliable_sessions "tmp1" 2
           [x61; x62] [[x63]; [x64; x65]] [Raise ConnectionError] (Some 5) None
           idle_transfer (with_media_sessions {[2]} idle_transfer)).
  - rewrite /media_session /=. rewrite bool_decide_eq_false_2; [set_solver|].
    cbn. by rewrite right_id_L.
  - repeat constructor; discriminate.
  - reflexivity.
Defined.

(** What holds before a loop and after each of its turns holds when it
    ends, however it ends. *)
Lemma iterate_invariant {T S : Type} (I : S -> Prop) (step : T -> S -> step_result S) :
  (forall turn s, I s ->
     match step turn s with Continue s' | Break s' | Fail _ s' => I s' end) ->
  forall turns s, I s -> I (fst (iterate step turns s)).
Proof.
  intros Hstep. induction turns as [|turn turns IH]; intros s Hs; [done|].
  rewrite iterate_cons. specialize (Hstep turn s Hs).
  destruct (step turn s); cbn; auto.
Qed.

Lemma write_temp_only (name : string) (files : gmap string bytes) (chunk : bytes)
    (offset offset' : Z) (t : transfer) :
  writes_only name files (offset, t) ->
  writes_only name files (offset', write_temp name chunk t).
Proof.
  intros [Hsame _]. split; cbn.
  - intros k Hk. rewrite lookup_insert_ne //. by apply Hsame.
  - rewrite lookup_insert_eq. eauto.
Qed.

Section LoopsWriteOnly.

Variable ctr256_decrypt : bytes -> bytes -> bytes -> bytes.
Variable sha256 : bytes -> bytes.

Lemma plain_step_only (name : string) (files : gmap string bytes)
    (progress : option (Z -> Z -> option exn)) (size : option Z)
    (turn : result file_answer) (s : Z * transfer) :
  writes_only name files s ->
  match plain_step name progress size turn s with
  | Continue s' | Break s' | Fail _ s' => writes_only name files s'
  end.
Proof.
  destruct s as [offset t]. intros Hs.
  destruct turn as [[[|b chunk]| |]|e]; cbn; try done.
  destruct (report _ _ _); by eapply write_temp_only.
Qed.

Lemma cdn_step_only (name : string) (files : gmap string bytes)
    (progress : option (Z -> Z -> option exn)) (size : option Z)
    (key encryption_iv : bytes) (turn : cdn_turn) (s : Z * transfer) :
  writes_only name files s ->
  match cdn_step ctr256_decrypt sha256 name progress size key encryption_iv turn s with
  | Continue s' | Break s' | Fail _ s' => writes_only name files s'
  end.
Proof.
  destruct s as [offset t]. intros Hs. rewrite /cdn_step.
  destruct (turn_file turn) as [[chunk|token]|e]; try done.
  - destruct (counter_iv _ _) as [iv|e]; [|done].
    destruct (turn_hashes turn) as [hashes|e]; [|done].
    destruct (verify_parts _ _ _ _); [|done].
    destruct (report _ _ _); [by eapply write_temp_only|].
    destruct (_ <? _); by eapply write_temp_only.
  - destruct (turn_reupload turn) as [[]|e]; [done|].
    by destruct (exn_eqb e VolumeLocNotFound).
Qed.

(** The [try] block of [get_file] leaves every other file alone, and the
    file whose name it gives exists. *)
Lemma get_file_try_only (env : download_env) (size : option Z)
    (progress : option (Z -> Z -> option exn)) (t : transfer) (name : string) :
  temp_name env = Ok name ->
  let '(t', file_name, ending) := get_file_try ctr256_decrypt sha256 env size progress t in
  (file_name = EmptyString /\ temp_files t' = temp_files t)
  \/ (file_name = name /\ writes_only name (temp_files t) (0, t')).
Proof.
  intros Hname. rewrite /get_file_try Hname.
  assert (forall t0, temp_files t0 = temp_files t ->
                     writes_only name (temp_files t) (0, create_temp name t0)) as Hcreate.
  { intros t0 H0. split; cbn.
    - intros k Hk. by rewrite lookup_insert_ne // H0.
    - rewrite lookup_insert_eq. eauto. }
  destruct (first_answer env) as [[data|dc token key iv|]|e]; try (by left).
  - pose proof (iterate_invariant (writes_only name (temp_files t)) _
                  (plain_step_only name (temp_files t) progress size)
                  (Ok (UploadFile data) :: later_answers env) _ (Hcreate t eq_refl)) as H.
    destruct (iterate _ _ _) as [[offset t'] ending]. right. split; [done|].
    destruct H as [H1 H2]. by split.
  - pose proof (cdn_session_frame (sessions env) dc t) as (Hfiles & _).
    destruct (cdn_session _ _ _) as [t0 [[]|e]]; cbn in Hfiles; [|by left].
    pose proof (iterate_invariant (writes_only name (temp_files t)) _
                  (cdn_step_only name (temp_files t) progress size key iv)
                  (cdn_turns env) _ (Hcreate t0 Hfiles)) as H.
    destruct (iterate _ _ _) as [[offset t'] ending]. right. split; [done|].
    destruct H as [H1 H2]. by split.
Qed.

End LoopsWriteOnly.

(** X8: [get_file] hands back a file or cleans up. Given a fresh name for
    its temporary file, it either returns that name, the file exists and no
    other file was touched; or it returns the empty path, or raises because
    the media session could not be set up, and the files are exactly those
    there were before. While it waits for an answer only its own temporary
    file may differ. *)
Theorem get_file_returns_a_file_or_cleans_up
    (ctr256_decrypt : bytes -> bytes -> bytes -> bytes) (sha256 : bytes -> bytes)
    (env : download_env) (dc_id : Z) (size : option Z)
    (progress : option (Z -> Z -> option exn)) (t : transfer) (name : string) :
  let final := get_file ctr256_decrypt sha256 env dc_id size progress t in
  temp_name env = Ok name -> name <> EmptyString ->
  temp_files t !! name = None -> temp_files t !! EmptyString = None ->
  match snd final with
  | Returned EmptyString | Raised _ => temp_files (fst final) = temp_files t
  | Returned path =>
      path = name /\ is_Some (temp_files (fst final) !! name)
      /\ same_files_but name (temp_files t) (fst final)
  | Pending => same_files_but name (temp_files t) (fst final)
  end.
Proof.
  intros final Hname Hne Hfresh Hempty. subst final. rewrite /get_file.
  pose proof (media_session_frame (sessions env) dc_id t) as (Hfiles & _).
  destruct (media_session _ _ _) as [t1 [[]|e]]; cbn in Hfiles; [|done].
  pose proof (get_file_try_only ctr256_decrypt sha256 env size progress t1 name Hname) as H.
  destruct (get_file_try _ _ _ _ _ _) as [[t2 file_name] ending].
  rewrite Hfiles in H.
  assert (forall t3, temp_files t3 = temp_files t2 ->
                     temp_files (remove_temp file_name t3) = temp_files t) as Hremove.
  { intros t3 H3. rewrite /remove_temp /with_temp_files /= H3. destruct H as [[-> ->]|[-> [Hsame _]]].
    - by apply delete_id.
    - apply map_eq. intros k. destruct (decide (k = name)) as [->|Hk].
      + by rewrite lookup_delete_eq.
      + rewrite lookup_delete_ne //. by apply Hsame. }
  destruct ending as [|e|]; cbn [snd fst].
  - destruct H as [[E1 E2]|[E1 [Hsame Hsome]]]; subst file_name; [done|].
    by destruct name.
  - apply Hremove. by destruct (exn_eqb e StopTransmission).
  - destruct H as [[E1 E2]|[E1 [Hsame _]]]; [|done]. intros k _. by rewrite E2.
Qed.

Lemma get_file_returns_a_file_or_cleans_up_witness :
  let env := cdn_download reliable_sessions "tmp1" 4 [x01] [x02] [x00; x00; x00; x00; x00]
               [chunk_turn [x61; x62; x63] [{| fh_limit := 3; fh_hash := [x00] |}]] in
  temp_files (fst (get_file toy_decrypt toy_digest env 2 (Some 3) None idle_transfer))
  = temp_files idle_transfer.
Proof.
  apply (get_file_returns_a_file_or_cleans_up toy_decrypt toy_digest
           (cdn_download reliable_sessions "tmp1" 4 [x01] [x02] [x00; x00; x00; x00; x00]
              [chunk_turn [x61; x62; x63] [{| fh_limit := 3; fh_hash := [x00] |}]])
           2 (Some 3) None idle_transfer "tmp1").
  - reflexivity.
  - discriminate.
  - reflexivity.
  - reflexivity.
Defined.

(** X9: a media session is registered before its authorization is
    imported. When [auth.ImportAuthorization] fails on the session that was
    just created for another data center, [get_file] raises that error and
    the session stays in [media_sessions]: the next [get_file] for the same
    data center finds it there, sets nothing up (no export, no key, no
    start, no import) and raises nothing. *)
Theorem failed_import_leaves_the_session_registered
    (ctr256_decrypt : bytes -> bytes -> bytes -> bytes) (sha256 : bytes -> bytes)
    (env : download_env) (dc_id : Z) (size : option Z)
    (progress : option (Z -> Z -> option exn)) (t : transfer) (e : exn) :
  let first := get_file ctr256_decrypt sha256 env dc_id size progress t in
  dc_id ∉ media_sessions t -> dc_id <> own_dc_id t ->
  export_authorization (sessions env) dc_id = Ok tt ->
  negotiate_key (sessions env) dc_id = Ok tt ->
  start_session (sessions env) dc_id = Ok tt ->
  import_authorization (sessions env) dc_id = Raise e ->
  snd first = Raised e
  /\ dc_id ∈ media_sessions (fst first)
  /\ forall env' size' progress',
       media_session (sessions env') dc_id (fst first) = (fst first, Ok tt)
       /\ forall e', snd (get_file ctr256_decrypt sha256 env' dc_id size' progress' (fst first))
                     <> Raised e'.
Proof.
  intros first Hnew Hother Hexport Hkey Hstart Himport.
  assert (media_session (sessions env) dc_id t
          = (with_media_sessions ({[dc_id]} ∪ media_sessions t) t, Raise e)) as Hm.
  { rewrite /media_session bool_decide_eq_false_2 //.
    assert ((dc_id =? own_dc_id t) = false) as -> by lia.
    by rewrite /= Hexport Hkey Hstart Himport. }
  subst first. rewrite /get_file Hm. cbn [fst snd].
  split; [done|]. split; [cbn; set_solver|].
  intros env' size' progress'.
  assert (media_session (sessions env') dc_id
            (with_media_sessions ({[dc_id]} ∪ media_sessions t) t)
          = (with_media_sessions ({[dc_id]} ∪ media_sessions t) t, Ok tt)) as Hm'.
  { rewrite /media_session bool_decide_eq_true_2 //. cbn. set_solver. }
  split; [done|]. intros e'. by eapply get_file_does_not_raise.
Qed.

Lemma failed_import_leaves_the_session_registered_witness :
  let senv := {| export_authorization := fun _ => Ok tt; negotiate_key := fun _ => Ok tt;
                 start_session := fun _ => Ok tt;
                 import_authorization := fun _ => Raise (RPCError 400) |} in
  let first := get_file toy_decrypt toy_digest (plain_download senv "tmp1" [x61] [])
                 4 None None idle_transfer in
  snd first = Raised (RPCError 400)
  /\ 4 ∈ media_sessions (fst first)
  /\ forall env' size' progress',
       media_session (sessions env') 4 (fst first) = (fst first, Ok tt)
       /\ forall e', snd (get_file toy_decrypt toy_digest env' 4 size' progress' (fst first))
                     <> Raised e'.
Proof.
  apply (failed_import_leaves_the_session_registered toy_decrypt toy_digest
           (plain_download
              {| export_authorization := fun _ => Ok tt; negotiate_key := fun _ => Ok tt;
                 start_session := fun _ => Ok tt;
                 import_authorization := fun _ => Raise (RPCError 400) |} "tmp1" [x61] [])
           4 None None idle_transfer (RPCError 400)).
  - cbn. set_solver.
  - cbn. lia.
  - reflexivity.
  - reflexivity.
  - reflexivity.
  - reflexivity.
Defined.

(** ** More about uploads *)

Lemma sent_parts_app (l1 l2 : list upload_event) :
  sent_parts (l1 ++ l2) = sent_parts l1 ++ sent_parts l2.
Proof. apply omap_app. Qed.

Lemma sent_parts_started (l : list nat) : sent_parts (map SessionStarted l) = [].
Proof. by induction l. Qed.

Lemma sent_parts_stopped (l : list nat) : sent_parts (map SessionStopped l) = [].
Proof. by induction l. Qed.

Lemma sent_parts_sentinels (n : nat) : sent_parts (replicate n (Put None)) = [].
Proof. by induction n. Qed.

Lemma take_add {A} (n m : nat) (l : list A) :
  take (n + m) l = take n l ++ take m (drop n l).
Proof.
  revert l. induction n as [|n IH]; intros [|x l]; cbn; try done.
  - by rewrite take_nil.
  - by rewrite IH.
Qed.

(** The parts of a file, one after the other, are the file. *)
Lemma concat_file_parts (data : bytes) (count first : nat) :
  concat (file_parts data first count)
  = take (count * Z.to_nat part_size) (drop (first * Z.to_nat part_size) data).
Proof.
  rewrite /file_parts. generalize (Z.to_nat part_size). intros P.
  revert first. induction count as [|count IH]; intros first; [done|].
  cbn [seq map concat]. rewrite IH. cbn [Nat.mul]. rewrite take_add drop_drop.
  do 3 f_equal. lia.
Qed.

Section UploadSends.

Variable md5 : bytes -> bytes.
Variable data : bytes.
Variables file_size file_id total : Z.
Variable is_big : bool.
Variable progress : option (Z -> Z -> option exn).
Hypothesis Hquiet : quiet progress.

(** The reading loop of an upload that is not a resumed part, from part
    [i] on, when [k] parts are left: each is put on the queue under its
    number, a small file is fed to the digest, and the loop ends on the
    empty read that follows the last part. *)
Lemma upload_loop_sends (k : nat) :
  forall (n i : nat) (s : upload_loop),
    0 <= ul_position s ->
    drop (Z.to_nat (ul_position s)) data = drop (i * Z.to_nat part_size) data ->
    ul_file_part s = Z.of_nat i ->
    (is_big = false -> is_Some (ul_md5 s)) ->
    (length data <= (i + k) * Z.to_nat part_size)%nat ->
    (k = 0 \/ (i + k - 1) * Z.to_nat part_size < length data)%nat ->
    (k < n)%nat ->
    let run := iterate (upload_step data file_size is_big false file_id total progress)
                 (replicate n tt) s in
    snd run = Done /\ ul_returned (fst run) = false
    /\ sent_parts (ul_events (fst run))
       = sent_parts (ul_events s) ++ map (part_rpc is_big file_id total data) (seq i k)
    /\ ul_md5 (fst run)
       = if is_big then ul_md5 s
         else option_map (fun fed => fed ++ drop (i * Z.to_nat part_size) data) (ul_md5 s).
Proof.
  pose proof part_size_pos as HP.
  induction k as [|k IH]; intros n i s Hpos Hdrop Hpart Hmd5 Hall Hne Hfuel.
  - destruct n as [|n]; [lia|]. cbn [replicate]. rewrite iterate_cons /upload_step Hdrop.
    rewrite (drop_ge data); [lia|]. rewrite take_nil. cbv zeta.
    destruct is_big; cbn [negb fst snd ul_returned ul_events ul_md5].
    + rewrite sent_parts_app. cbn [seq map sent_parts omap]. by rewrite !app_nil_r.
    + destruct (Hmd5 eq_refl) as [fed ->]. cbn [negb fst snd ul_returned ul_events ul_md5].
      rewrite sent_parts_app. cbn [seq map sent_parts omap option_map]. by rewrite !app_nil_r.
  - destruct n as [|n]; [lia|]. cbn [replicate]. rewrite iterate_cons /upload_step Hdrop.
    set (rest := drop (i * Z.to_nat part_size) data) in *.
    assert (i * Z.to_nat part_size < length data)%nat as Hin.
    { destruct Hne as [|Hne]; [done|]. nia. }
    destruct (take (Z.to_nat part_size) rest) as [|b chunk] eqn:Hchunk.
    { apply (f_equal length) in Hchunk. rewrite length_take length_drop /= in Hchunk. lia. }
    set (chunk' := b :: chunk) in *.
    assert (chunk' ++ drop ((i + 1) * Z.to_nat part_size) data = rest) as Hrest.
    { transitivity (take (Z.to_nat part_size) rest ++ drop (Z.to_nat part_size) rest);
        [|apply take_drop].
      rewrite Hchunk. f_equal. rewrite /rest drop_drop. f_equal. lia. }
    assert (drop (Z.to_nat (ul_position s + Z.of_nat (length chunk'))) data
            = drop ((i + 1) * Z.to_nat part_size) data) as Hdrop'.
    { replace (Z.to_nat (ul_position s + Z.of_nat (length chunk')))
        with (Z.to_nat (ul_position s) + length chunk')%nat by lia.
      rewrite -drop_drop Hdrop -/rest.
      assert (length chunk' = Nat.min (Z.to_nat part_size) (length rest)) as Hlen
        by (by rewrite -Hchunk length_take).
      destruct (Nat.le_ge_cases (Z.to_nat part_size) (length rest)) as [Hle|Hge].
      - rewrite Hlen Nat.min_l // /rest drop_drop. f_equal. lia.
      - rewrite (drop_ge rest) ?Hlen; [lia|]. rewrite drop_ge //.
        rewrite /rest length_drop in Hge. lia. }
    assert (forall events fed',
      (is_big = false -> is_Some fed') ->
      (fed' = if is_big then ul_md5 s else option_map (fun fed => fed ++ chunk') (ul_md5 s)) ->
      let s' := {| ul_position := ul_position s + Z.of_nat (length chunk');
                   ul_file_part := ul_file_part s + 1; ul_md5 := fed';
                   ul_returned := false; ul_events := events |} in
      sent_parts events
        = sent_parts (ul_events s) ++ [part_rpc is_big file_id total data i] ->
      let run := iterate (upload_step data file_size is_big false file_id total progress)
                   (replicate n tt) s' in
      snd run = Done /\ ul_returned (fst run) = false
      /\ sent_parts (ul_events (fst run))
         = sent_parts (ul_events s) ++ map (part_rpc is_big file_id total data) (seq i (S k))
      /\ ul_md5 (fst run)
         = if is_big then ul_md5 s
           else option_map (fun fed => fed ++ rest) (ul_md5 s)) as Hnext.
    { intros events fed' Hsome Hfed s' Hsent run.
      destruct (IH n (i + 1)%nat s') as (H1 & H2 & H3 & H4); cbn [s' ul_position ul_file_part ul_md5].
      - lia.
      - done.
      - lia.
      - done.
      - by replace (i + 1 + k)%nat with (i + S k)%nat by lia.
      - destruct Hne as [|Hne]; [done|]. destruct k; [by left|right].
        by replace (i + 1 + S k - 1)%nat with (i + S (S k) - 1)%nat by lia.
      - lia.
      - split; [done|]. split; [done|]. split.
        + rewrite H3. cbn [s' ul_events]. rewrite Hsent -app_assoc. cbn [seq map app].
          by replace (i + 1)%nat with (S i) by lia.
        + rewrite H4. cbn [s' ul_md5]. rewrite Hfed. destruct is_big; [done|].
          destruct (ul_md5 s) as [fed|]; [|done]. cbn. by rewrite -app_assoc Hrest. }
    assert (sent_parts
              ((ul_events s ++ [ReadAt (ul_position s) part_size (length chunk')])
               ++ [Put (Some (if is_big
                              then SaveBigFilePart file_id (ul_file_part s) total chunk'
                              else SaveFilePart file_id (ul_file_part s) chunk'))])
            = sent_parts (ul_events s) ++ [part_rpc is_big file_id total data i]) as Hsent.
    { rewrite !sent_parts_app /= app_nil_r. f_equal.
      rewrite /part_rpc -/rest Hchunk Hpart. done. }
    assert ((negb is_big && negb (bool_decide (is_Some (ul_md5 s)))) = false) as ->.
    { destruct is_big; [done|]. cbn. rewrite bool_decide_eq_true_2; auto. }
    destruct progress as [callback|] eqn:Hprogress.
    + rewrite (Hquiet callback eq_refl). apply Hnext.
      * intros Hsmall. rewrite Hsmall /=. destruct (Hmd5 Hsmall) as [fed ->]. by eexists.
      * by destruct is_big.
      * by rewrite sent_parts_app /= app_nil_r.
    + apply Hnext.
      * intros Hsmall. rewrite Hsmall /=. destruct (Hmd5 Hsmall) as [fed ->]. by eexists.
      * by destruct is_big.
      * done.
Qed.

End UploadSends.

(** The number of parts covers the file, and the last part is inside it. *)
Lemma total_parts_covers (data : bytes) :
  data <> [] ->
  (length data <= Z.to_nat (total_parts data) * Z.to_nat part_size)%nat
  /\ ((Z.to_nat (total_parts data) - 1) * Z.to_nat part_size < length data)%nat
  /\ 0 < total_parts data.
Proof.
  intros Hne. pose proof part_size_pos as HP.
  assert (0 < Z.of_nat (length data)) as Hlen by (destruct data; [done|cbn; lia]).
  rewrite /total_parts. set (size := Z.of_nat (length data)) in *.
  pose proof (Z.div_mod (size + part_size - 1) part_size ltac:(lia)) as Hdiv.
  pose proof (Z.mod_pos_bound (size + part_size - 1) part_size HP) as Hmod.
  set (q := (size + part_size - 1) / part_size) in *.
  assert (0 < q) by nia.
  split; [|split; [|done]].
  - apply Nat2Z.inj_le. rewrite Nat2Z.inj_mul !Z2Nat.id; [lia..|]. fold size. nia.
  - apply Nat2Z.inj_lt. rewrite Nat2Z.inj_mul Nat2Z.inj_sub; [lia|].
    rewrite !Z2Nat.id; [lia..|]. fold size. nia.
Qed.

(** X10: an upload that is not a resumed part sends the whole file. With
    sessions that start and a progress callback that does not raise,
    [save_file] puts on the queue one request for each part of the file, in
    order and numbered from 0, each carrying the next [part_size] bytes;
    the parts put together are the file, none is empty, and the value
    returned names that many parts under the id drawn for the file. *)
Theorem fresh_upload_sends_every_part
    (md5 : bytes -> bytes) (env : upload_env) (data : bytes)
    (progress : option (Z -> Z -> option exn)) :
  let file_size := Z.of_nat (length data) in
  let is_big := 10 * 1024 * 1024 <? file_size in
  let total := total_parts data in
  let run := save_file md5 env None 0 progress in
  file_content env = Some data ->
  0 < file_size <= 1500 * 1024 * 1024 ->
  (forall i, pool_start env i = None) ->
  quiet progress ->
  sent_parts (snd (fst run))
    = map (part_rpc is_big (fresh_id env) total data) (seq 0 (Z.to_nat total))
  /\ concat (file_parts data 0 (Z.to_nat total)) = data
  /\ Forall (fun chunk => chunk <> []) (file_parts data 0 (Z.to_nat total))
  /\ snd run
     = Ok (Some (if is_big
                 then InputFileBig (fresh_id env) total (file_basename env)
                 else InputFile (fresh_id env) total (file_basename env)
                        (hexlify (md5 data)))).
Proof.
  intros file_size is_big total run Hfile Hsize Hstart Hquiet.
  pose proof part_size_pos as HP.
  assert (data <> []) as Hne by (intros ->; cbn in *; lia).
  destruct (total_parts_covers data Hne) as (Hcover & Hlast & Htotal). fold total in Hcover, Hlast, Htotal.
  assert (Hzero : (file_size =? 0) = false) by (apply Z.eqb_neq; lia).
  assert (Hmax : (1500 * 1024 * 1024 <? file_size) = false) by (apply Z.ltb_ge; lia).
  assert (run = save_file md5 env None 0 progress) as Hrun by done.
  clearbody run. rewrite /save_file Hfile in Hrun. fold file_size in Hrun.
  rewrite Hzero Hmax in Hrun. fold is_big in Hrun.
  rewrite bool_decide_eq_false_2 in Hrun; [by intros []|].
  rewrite start_pool_all // in Hrun.
  replace (part_size * 0 <? 0) with false in Hrun by (symmetry; apply Z.ltb_ge; lia).
  change ((file_size + part_size - 1) / part_size) with total in Hrun.
  match type of Hrun with
  | context [iterate ?step (replicate (S (Z.to_nat total)) tt) ?s] =>
      pose proof (upload_loop_sends data file_size (fresh_id env) total is_big progress
                    Hquiet (Z.to_nat total) (S (Z.to_nat total)) 0 s) as Hloop;
      destruct (iterate step (replicate (S (Z.to_nat total)) tt) s) as [loop ending]
  end.
  cbn [ul_position ul_file_part ul_md5 ul_events fst snd] in Hloop.
  destruct Hloop as (-> & Hret & Hsent & Hmd5).
  - lia.
  - by replace (Z.to_nat (part_size * 0)) with 0%nat by lia.
  - done.
  - intros ->. cbn. by eexists.
  - done.
  - right. done.
  - lia.
  - rewrite Hret in Hrun. rewrite concat_file_parts drop_0 take_ge //.
    assert (Forall (fun chunk : bytes => chunk <> []) (file_parts data 0 (Z.to_nat total)))
      as Hparts.
    { apply Forall_forall. intros chunk (i & -> & Hi)%list_elem_of_fmap.
      apply elem_of_seq in Hi. intros Hnil. apply (f_equal length) in Hnil.
      rewrite length_take length_drop /= in Hnil. nia. }
    clearbody is_big. destruct is_big; rewrite stop_pool_all in Hrun; subst run;
      cbn [fst snd].
    + split; [|split; [done|split; [done|done]]].
      rewrite !sent_parts_app sent_parts_stopped sent_parts_sentinels Hsent.
      rewrite sent_parts_app sent_parts_started.
      change (sent_parts [Sought _]) with (@nil upload_rpc).
      change (sent_parts [WorkersGathered]) with (@nil upload_rpc).
      by rewrite !app_nil_r.
    + split; [|split; [done|split; [done|]]].
      * rewrite !sent_parts_app sent_parts_stopped sent_parts_sentinels Hsent.
        rewrite sent_parts_app sent_parts_started.
        change (sent_parts [Sought _]) with (@nil upload_rpc).
        change (sent_parts [WorkersGathered]) with (@nil upload_rpc).
        by rewrite !app_nil_r.
      * by rewrite Hmd5 /= drop_0.
Qed.

Lemma fresh_upload_sends_every_part_witness :
  let run := save_file toy_digest small_file_env None 0 (Some (fun _ _ => None)) in
  let data := [x61; x62; x63] in
  sent_parts (snd (fst run))
    = map (part_rpc false 4242 (total_parts data) data) (seq 0 (Z.to_nat (total_parts data)))
  /\ concat (file_parts data 0 (Z.to_nat (total_parts data))) = data
  /\ Forall (fun chunk => chunk <> []) (file_parts data 0 (Z.to_nat (total_parts data)))
  /\ snd run = Ok (Some (InputFile 4242 (total_parts data) "abc.txt" (hexlify (toy_digest data)))).
Proof.
  apply (fresh_upload_sends_every_part toy_digest small_file_env [x61; x62; x63]
           (Some (fun _ _ => None))).
  - reflexivity.
  - cbn. lia.
  - reflexivity.
  - by intros callback [= <-].
Defined.

(** X11: resuming a part that lies beyond the end of the file sends
    nothing. The read is empty, so no request is put on the queue; for a
    small file the digest that does not exist is asked for, the
    [AttributeError] is logged and [save_file] returns nothing; for a big
    file [save_file] returns the [InputFileBig] of a complete upload. The
    workers and sessions are released either way. *)
Theorem resumed_part_beyond_the_end_sends_nothing
    (md5 : bytes -> bytes) (env : upload_env) (data : bytes)
    (file_id file_part : Z) (progress : option (Z -> Z -> option exn)) :
  let file_size := Z.of_nat (length data) in
  let is_big := 10 * 1024 * 1024 <? file_size in
  let id := if file_id =? 0 then fresh_id env else file_id in
  let run := save_file md5 env (Some file_id) file_part progress in
  file_content env = Some data ->
  0 < file_size <= 1500 * 1024 * 1024 ->
  (forall i, pool_start env i = None) ->
  file_size <= part_size * file_part ->
  sent_parts (snd (fst run)) = []
  /\ snd run
     = (if is_big
        then Ok (Some (InputFileBig id (total_parts data) (file_basename env)))
        else Ok None)
  /\ (is_big = false -> ErrorLogged AttributeError ∈ snd (fst run))
  /\ Forall (fun s => s = Stopped) (fst (fst run)).
Proof.
  intros file_size is_big id run Hfile Hsize Hstart Hbeyond.
  pose proof part_size_pos as HP.
  assert (Hzero : (file_size =? 0) = false) by (apply Z.eqb_neq; lia).
  assert (Hmax : (1500 * 1024 * 1024 <? file_size) = false) by (apply Z.ltb_ge; lia).
  assert (Hseek : (part_size * file_part <? 0) = false) by (apply Z.ltb_ge; lia).
  subst run. rewrite /save_file Hfile. fold file_size. rewrite Hzero Hmax. fold is_big.
  rewrite bool_decide_eq_true_2; [by eexists|].
  rewrite start_pool_all // Hseek. cbn [replicate]. rewrite iterate_cons /upload_step.
  cbn [ul_position ul_md5 ul_events ul_file_part].
  rewrite (drop_ge data); [lia|]. rewrite take_nil andb_false_r.
  fold id. change ((file_size + part_size - 1) / part_size) with (total_parts data).
  destruct is_big; cbn [negb exn_eqb ul_returned ul_events fst snd].
  - rewrite stop_pool_all. cbn [fst snd].
    split; [|split; [done|split; [done|]]].
    + rewrite !sent_parts_app sent_parts_stopped sent_parts_sentinels sent_parts_started //.
    + by apply Forall_replicate.
  - rewrite stop_pool_all. cbn [fst snd].
    split; [|split; [done|split]].
    + rewrite !sent_parts_app sent_parts_stopped sent_parts_sentinels sent_parts_started //.
    + intros _. rewrite !elem_of_app. left. left. right. apply list_elem_of_singleton. done.
    + by apply Forall_replicate.
Qed.

Lemma resumed_part_beyond_the_end_sends_nothing_witness :
  let run := save_file toy_digest small_file_env (Some 7) 1 None in
  sent_parts (snd (fst run)) = []
  /\ snd run = Ok None
  /\ (false = false -> ErrorLogged AttributeError ∈ snd (fst run))
  /\ Forall (fun s => s = Stopped) (fst (fst run)).
Proof.
  apply (resumed_part_beyond_the_end_sends_nothing toy_digest small_file_env
           [x61; x62; x63] 7 1 None).
  - reflexivity.
  - cbn. lia.
  - reflexivity.
  - by vm_compute.
Defined.

(** ** Starting, stopping, restarting *)









(** X15: a [stop] that fails leaves the client marked as started. On a
    started client whose session is running, whenever [stop] raises or is
    left waiting, [is_started] is still set and the session still runs,
    whatever was torn down before the failure. *)
Theorem failed_stop_leaves_the_client_started
    (senv : stop_env) (c : lifecycle) (media : list session_state) :
  let stopped := stop senv c media in
  lc_is_started c = true -> lc_session c = Running ->
  snd stopped <> Returned tt ->
  lc_is_started (fst (fst stopped)) = true
  /\ lc_session (fst (fst stopped)) = Running.
Proof.
  intros stopped Hs Hsession. subst stopped. rewrite /stop Hs. cbn [negb].
  destruct (match lc_takeout_id c with Some _ => _ | None => _ end); [done|].
  destruct (syncer_remove senv); [done|]. destruct (dispatcher_stop senv); [done|].
  destruct (download_workers_join senv) as [[]| |]; [|done..].
  destruct (updates_worker_join senv) as [[]| |]; [|done..].
  destruct (stop_media media) as [media1 [[]|e]]; [|done].
  cbn [lc_session lc_set_started lc_update lc_launch]. by rewrite Hsession.
Qed.

Lemma failed_stop_leaves_the_client_started_witness :
  let c1 := fst (start plain_login fresh_lifecycle) in
  let stopped := stop stuck_dispatcher c1 [] in
  lc_is_started (fst (fst stopped)) = true
  /\ lc_session (fst (fst stopped)) = Running.
Proof.
  apply (failed_stop_leaves_the_client_started stuck_dispatcher
           (fst (start plain_login fresh_lifecycle)) []).
  - vm_compute. reflexivity.
  - vm_compute. reflexivity.
  - discriminate.
Defined.





(** ** Configuration *)

Section CfgKeeps.

Context {A B : Type}.
Variable R : settings -> settings -> Prop.
Context `{!PreOrder R}.

Lemma cfg_keeps_ret (a : A) : cfg_keeps R (cfg_ret a).
Proof. by intros s. Qed.

Lemma cfg_keeps_lift (r : result A) : cfg_keeps R (cfg_lift r).
Proof. by intros s. Qed.

Lemma cfg_keeps_bind (m : CFG A) (k : A -> CFG B) :
  cfg_keeps R m -> (forall a, cfg_keeps R (k a)) -> cfg_keeps R (cfg_bind m k).
Proof.
  intros Hm Hk s. specialize (Hm s). rewrite /cfg_bind.
  destruct (m s) as [s1 [a|e]]; cbn in *; [|done].
  etrans; [exact Hm|apply Hk].
Qed.

End CfgKeeps.

#[local] Instance same_api_key_preorder : PreOrder same_api_key.
Proof.
  split; [by intros s|].
  intros s1 s2 s3 [A1 A2] [B1 B2]. split; congruence.
Qed.

#[local] Instance same_plugins_preorder : PreOrder same_plugins.
Proof.
  split; [by intros s|]. rewrite /same_plugins. intros s1 s2 s3 A1 B1. congruence.
Qed.



(** One step through a computation on the settings. *)
Ltac cfg_step :=
  try (match goal with H : _ |- cfg_keeps _ _ => solve [apply H] end);
  lazymatch goal with
  | |- cfg_keeps _ (cfg_ret _) => apply: cfg_keeps_ret
  | |- cfg_keeps _ (cfg_lift _) => apply: cfg_keeps_lift
  | |- cfg_keeps _ (cfg_bind _ _) => apply: cfg_keeps_bind; [|intros ?]
  | |- cfg_keeps _ (if ?b then _ else _) => destruct b
  | |- cfg_keeps _ (match ?x with _ => _ end) => destruct x
  end.

Section ConfigKeeps.

Variable parser : config_parser.
Variable class_constant : string -> string.
Variable R : settings -> settings -> Prop.
Context `{!PreOrder R}.

(** What the setter of an option leaves alone, the loading of that option
    leaves alone. *)
Lemma load_option_keeps (name : string) (getter : settings -> option string)
    (setter : option string -> settings -> settings) :
  (forall v s, R s (setter v s)) ->
  cfg_keeps R (load_option parser class_constant name getter setter).
Proof.
  intros Hset s. rewrite /load_option.
  repeat case_match; cbn; first [done | apply Hset].
Qed.

(** What [set_proxy] leaves alone, the loading of the proxy leaves alone. *)
Lemma load_proxy_keeps :
  (forall v s, R s (set_proxy v s)) -> cfg_keeps R (load_proxy parser).
Proof.
  intros Hset.
  assert (forall key value, cfg_keeps R (proxy_store key value)) as Hstore
    by (intros key value s; apply Hset).
  assert (cfg_keeps R (cfg_set (set_proxy (Some ∅)))) as Hclear
    by (intros s; apply Hset).
  intros s. rewrite /load_proxy. destruct (dict_truthy (_proxy s)); [apply Hstore|].
  revert s. change (cfg_keeps R
    (cfg_set (set_proxy (Some ∅));+
     if has_section parser "proxy" then
       let+ enabled := cfg_lift (parser_getboolean_fallback parser "proxy" "enabled") in
       proxy_store "enabled" (JBool (default true enabled));+
       let+ hostname := cfg_lift (parser_get parser "proxy" "hostname") in
       proxy_store "hostname" (JStr hostname);+
       let+ port := cfg_lift (parser_getint parser "proxy" "port") in
       proxy_store "port" (JInt port);+
       let+ username := cfg_lift (parser_get_fallback parser "proxy" "username") in
       proxy_store "username" (str_or_none (default EmptyString username));+
       let+ password := cfg_lift (parser_get_fallback parser "proxy" "password") in
       proxy_store "password" (str_or_none (default EmptyString password))
     else cfg_ret tt)).
  repeat cfg_step.
Qed.

(** What [set_plugins] leaves alone, the blocks about plugins leave
    alone. *)
Lemma join_plugin_option_keeps (key : string) :
  (forall v s, R s (set_plugins v s)) -> cfg_keeps R (join_plugin_option key).
Proof.
  intros Hset s. rewrite /join_plugin_option.
  destruct (join_lines _); [apply Hset|done].
Qed.

Lemma load_plugins_settings_keeps :
  (forall v s, R s (set_plugins v s)) -> cfg_keeps R (load_plugins_settings parser).
Proof.
  intros Hset.
  assert (forall key value, cfg_keeps R (plugins_store key value)) as Hstore
    by (intros key value s; apply Hset).
  pose proof (fun key => join_plugin_option_keeps key Hset) as Hjoin.
  intros s. rewrite /load_plugins_settings. destruct (dict_truthy (plugins s)).
  - revert s.
    assert (forall v, cfg_keeps R
              (plugins_store "enabled" v;+
               join_plugin_option "include";+ join_plugin_option "exclude")) as Hk
      by (intros v; repeat cfg_step).
    intros s. apply Hk.
  - destruct (parser_section parser "plugins") as [section|]; [|apply Hset].
    destruct (plugins_of_section section) as [d|e]; [apply Hset|].
    destruct (exn_eqb e KeyError); [apply Hset|done].
Qed.

Lemma parse_plugin_list_keeps (key : string) :
  (forall v s, R s (set_plugins v s)) -> cfg_keeps R (parse_plugin_list key).
Proof.
  intros Hset s. rewrite /parse_plugin_list.
  destruct (default ∅ (plugins s) !! key) as [[]|]; try done.
  destruct (parse_plugin_option _); [apply Hset|done].
Qed.

End ConfigKeeps.

Section ConfigFacts.

Variable parser : config_parser.
Variable class_constant : string -> string.

(** After its first block, [load_config] leaves the API key alone. *)
Lemma load_config_api (s : settings) :
  read_failure parser = None ->
  same_api_key (fst (load_api_key parser s)) (fst (load_config parser class_constant s)).
Proof.
  intros Hread. rewrite /load_config Hread {1}/cfg_bind /cfg_lift {1}/cfg_bind.
  destruct (load_api_key parser s) as [s1 [[]|e]]; [|done]. cbn [fst].
  pose proof (load_proxy_keeps parser same_api_key ltac:(done)).
  pose proof (load_plugins_settings_keeps parser same_api_key ltac:(done)).
  pose proof (fun key => parse_plugin_list_keeps same_api_key key ltac:(done)).
  match goal with
  | |- same_api_key s1 (fst (?m s1)) =>
      assert (cfg_keeps same_api_key m) as Hk; [|apply Hk]
  end.
  repeat cfg_step; try (apply load_option_keeps; [tc_solve|by intros v s']).
  intros s'. destruct (dict_truthy (plugins s')); [|done].
  revert s'.
  assert (cfg_keeps same_api_key
            (parse_plugin_list "include";+ parse_plugin_list "exclude")) as Hk
    by repeat cfg_step.
  apply Hk.
Qed.

(** The blocks before the one about plugins leave [plugins] alone: a
    [load_config] that returns went through them and through the rest. *)
Lemma load_config_reaches_plugins (s s' : settings) :
  load_config parser class_constant s = (s', Ok tt) ->
  exists s6,
    plugins s6 = plugins s
    /\ (load_plugins_settings parser;+
        fun s =>
          if dict_truthy (plugins s) then
            (parse_plugin_list "include";+ parse_plugin_list "exclude") s
          else (s, Ok tt)) s6 = (s', Ok tt).
Proof.
  rewrite /load_config. destruct (read_failure parser); [done|].
  rewrite {1}/cfg_bind /cfg_lift.
  assert (cfg_keeps same_plugins (load_api_key parser)) as K1.
  { intros s0. rewrite /load_api_key. by repeat case_match. }
  pose proof (load_option_keeps parser class_constant same_plugins "app_version"
                app_version set_app_version ltac:(done)) as K2.
  pose proof (load_option_keeps parser class_constant same_plugins "device_model"
                device_model set_device_model ltac:(done)) as K3.
  pose proof (load_option_keeps parser class_constant same_plugins "system_version"
                system_version set_system_version ltac:(done)) as K4.
  pose proof (load_option_keeps parser class_constant same_plugins "lang_code"
                lang_code set_lang_code ltac:(done)) as K5.
  pose proof (load_proxy_keeps parser same_plugins ltac:(done)) as K6.
  rewrite {1}/cfg_bind. specialize (K1 s).
  destruct (load_api_key parser s) as [s1 [[]|e]]; [|done].
  rewrite {1}/cfg_bind. specialize (K2 s1).
  destruct (load_option _ _ "app_version" _ _ s1) as [s2 [[]|e]]; [|done].
  rewrite {1}/cfg_bind. specialize (K3 s2).
  destruct (load_option _ _ "device_model" _ _ s2) as [s3 [[]|e]]; [|done].
  rewrite {1}/cfg_bind. specialize (K4 s3).
  destruct (load_option _ _ "system_version" _ _ s3) as [s4 [[]|e]]; [|done].
  rewrite {1}/cfg_bind. specialize (K5 s4).
  destruct (load_option _ _ "lang_code" _ _ s4) as [s5 [[]|e]]; [|done].
  rewrite {1}/cfg_bind. specialize (K6 s5).
  destruct (load_proxy parser s5) as [s6 [[]|e]]; [|done].
  intros H. exists s6. split; [|done].
  rewrite /same_plugins /= in K1, K2, K3, K4, K5, K6. congruence.
Qed.

End ConfigFacts.

(** X19: the API key comes from the arguments only when both halves were
    given. With an [api_id] and an [api_hash] that are both set,
    [load_config] keeps them, whatever the configuration file holds. When
    either is missing, both are read from the [pyrogram] section of the file,
    replacing the one that was given; and without that section
    [load_config] raises [AttributeError] and changes nothing. *)
Theorem api_key_needs_both_halves
    (parser : config_parser) (class_constant : string -> string) (s : settings) :
  let loaded := load_config parser class_constant s in
  read_failure parser = None ->
  if int_truthy (api_id s) && str_truthy (api_hash s)
  then api_id (fst loaded) = api_id s /\ api_hash (fst loaded) = api_hash s
  else if has_section parser "pyrogram"
       then forall id h,
              parser_getint parser "pyrogram" "api_id" = Ok id ->
              parser_get parser "pyrogram" "api_hash" = Ok h ->
              api_id (fst loaded) = Some id /\ api_hash (fst loaded) = Some h
       else loaded = (s, Raise AttributeError).
Proof.
  intros loaded Hread.
  pose proof (load_config_api parser class_constant s Hread) as [H1 H2].
  fold loaded in H1, H2. rewrite /load_api_key in H1, H2.
  destruct (int_truthy (api_id s) && str_truthy (api_hash s)) eqn:Hboth; [done|].
  destruct (has_section parser "pyrogram") eqn:Hsection.
  - intros id h Hid Hh. by rewrite Hid Hh in H1, H2.
  - subst loaded. rewrite /load_config Hread /cfg_bind /cfg_lift /load_api_key.
    by rewrite Hboth Hsection.
Qed.

Lemma api_key_needs_both_halves_witness :
  let loaded := load_config key_parser example_constants lone_id_settings in
  api_id lone_id_settings = Some 777
  /\ api_id (fst loaded) = Some 12345
  /\ api_hash (fst loaded) = Some "0123456789abcdef0123456789abcdef"%string.
Proof.
  split; [reflexivity|].
  exact (api_key_needs_both_halves key_parser example_constants lone_id_settings
           eq_refl 12345 "0123456789abcdef0123456789abcdef" eq_refl eq_refl).
Defined.

(** ** Plugin lists *)

Lemma append_cons (c : ascii) (s t : string) :
  (String c s +:+ t)%string = String c (s +:+ t)%string.
Proof. done. Qed.

Lemma append_nil (t : string) : (EmptyString +:+ t)%string = t.
Proof. done. Qed.

Lemma join_two (sep x y : string) (l : list string) :
  PyText.join sep (x :: y :: l) = (x +:+ sep +:+ PyText.join sep (y :: l))%string.
Proof. done. Qed.

Lemma no_space_is_word (c : ascii) (w : string) :
  is_word (String c w) = true -> PyText.is_space c = false /\ no_space w = true.
Proof. cbn. intros [H1 H2]%andb_prop. split; [by destruct (PyText.is_space c)|done]. Qed.

(** [split] takes a word off the front of a string that goes on with white
    space, or ends. *)
Lemma split_word_app (w rest : string) :
  is_word w = true -> starts_tight rest = false ->
  PyText.split (w +:+ rest) = w :: PyText.split rest.
Proof.
  intros Hw Hrest. induction w as [|c w IH]; [done|].
  apply no_space_is_word in Hw as [Hc Hw].
  destruct w as [|c' w'].
  - rewrite append_cons append_nil. cbn [PyText.split]. rewrite Hc.
    destruct rest as [|c1 r]; [done|]. cbn in Hrest.
    by destruct (PyText.is_space c1).
  - assert (is_word (String c' w') = true) as Hw' by done.
    specialize (IH Hw'). apply no_space_is_word in Hw' as [Hc' _].
    rewrite !append_cons. rewrite append_cons in IH.
    change (PyText.split (String c (String c' (w' +:+ rest))))
      with (if PyText.is_space c then PyText.split (String c' (w' +:+ rest))
            else if PyText.is_space c'
                 then String c EmptyString :: PyText.split (String c' (w' +:+ rest))
                 else match PyText.split (String c' (w' +:+ rest)) with
                      | word :: words => String c word :: words
                      | [] => [String c EmptyString]
                      end).
    by rewrite Hc Hc' IH.
Qed.

Lemma split_words (words : list string) :
  forallb is_word words = true ->
  PyText.split (PyText.join " " words) = words.
Proof.
  induction words as [|w [|w2 ws] IH]; intros Hall; [done| |].
  - cbn in Hall. apply andb_prop in Hall as [Hw _].
    change (PyText.join " " [w]) with w. rewrite -{1}(append_empty_r w).
    by rewrite split_word_app.
  - cbn [forallb] in Hall. apply andb_prop in Hall as [Hw Hall].
    rewrite join_two split_word_app //.
    change (" " +:+ ?s)%string with (String " " s).
    cbn [PyText.split]. change (PyText.is_space " ") with true. cbn iota.
    by rewrite IH.
Qed.

(** A line that names a well-formed entry is read back as that entry. *)
Lemma plugin_entry_line (entry : plugin_spec) :
  well_formed entry = true -> plugin_entry (plugin_line entry) = Ok (plugin_tuple entry).
Proof.
  destruct entry as [path handlers]. rewrite /well_formed /=. intros Hwf.
  rewrite /plugin_entry /plugin_line. cbn [fst snd].
  rewrite split_words; [done|]. by destruct handlers.
Qed.

Lemma split_on_free (sep : ascii) (s : string) :
  free_of sep s = true -> PyText.split_on sep s = [s].
Proof.
  induction s as [|c s IH]; [done|]. cbn. intros [Hc Hs]%andb_prop.
  destruct (Ascii.eqb c sep); [done|]. by rewrite IH.
Qed.

Lemma split_on_app (sep : ascii) (s rest : string) :
  free_of sep s = true ->
  PyText.split_on sep (s +:+ String sep rest) = s :: PyText.split_on sep rest.
Proof.
  induction s as [|c s IH]; intros Hs.
  - rewrite append_nil. cbn. by rewrite Ascii.eqb_refl.
  - cbn in Hs. apply andb_prop in Hs as [Hc Hs]. rewrite append_cons. cbn.
    destruct (Ascii.eqb c sep); [done|]. by rewrite IH.
Qed.

Lemma split_on_lines (lines : list string) :
  lines <> [] -> forallb tight_line lines = true ->
  PyText.split_on PyText.newline (PyText.join (String PyText.newline EmptyString) lines)
  = lines.
Proof.
  induction lines as [|l [|l2 ls] IH]; intros Hne Hall; [done| |].
  - cbn in Hall. rewrite andb_true_r in Hall.
    apply andb_prop in Hall as [_ Hfree]. by apply split_on_free.
  - cbn [forallb] in Hall. apply andb_prop in Hall as [Hl Hall].
    apply andb_prop in Hl as [_ Hfree].
    rewrite join_two.
    change (String PyText.newline "" +:+ ?s)%string with (String PyText.newline s).
    rewrite split_on_app // IH //.
Qed.

Lemma lstrip_tight (s : string) : starts_tight s = true -> PyText.lstrip s = s.
Proof. destruct s as [|c s]; [done|]. cbn. by destruct (PyText.is_space c). Qed.

Lemma rstrip_tight (s : string) : ends_tight s = true -> PyText.rstrip s = s.
Proof.
  induction s as [|c s IH]; [done|]. destruct s as [|c' s'].
  - cbn. by destruct (PyText.is_space c).
  - intros Hs. change (ends_tight (String c (String c' s'))) with (ends_tight (String c' s')) in Hs.
    specialize (IH Hs). cbn [PyText.rstrip] in IH |- *. by rewrite IH.
Qed.

Lemma ends_tight_app (a : string) (c : ascii) (b : string) :
  ends_tight (a +:+ String c b) = ends_tight (String c b).
Proof.
  induction a as [|x a IH]; [done|]. rewrite append_cons.
  destruct a as [|y a']; [done|].
  rewrite append_cons in IH |- *. done.
Qed.

(** Tight lines joined by newlines make a text [strip] leaves whole. *)
Lemma joined_lines_tight (lines : list string) :
  lines <> [] -> forallb tight_line lines = true ->
  let text := PyText.join (String PyText.newline EmptyString) lines in
  starts_tight text = true /\ ends_tight text = true.
Proof.
  induction lines as [|l [|l2 ls] IH]; intros Hne Hall; [done| |].
  - cbn in Hall. rewrite andb_true_r in Hall.
    apply andb_prop in Hall as [[H1 H2]%andb_prop _]. done.
  - cbn [forallb] in Hall. apply andb_prop in Hall as [Hl Hall].
    apply andb_prop in Hl as [[H1 H2]%andb_prop _].
    destruct (IH ltac:(done) Hall) as [S1 S2]. cbn zeta in *.
    rewrite join_two.
    change (String PyText.newline "" +:+ ?s)%string with (String PyText.newline s).
    split.
    + destruct l as [|c l]; [done|]. done.
    + rewrite ends_tight_app.
      destruct (PyText.join (String PyText.newline "") (l2 :: ls)) as [|c r]; [done|].
      done.
Qed.

Lemma strip_joined_lines (lines : list string) :
  lines <> [] -> forallb tight_line lines = true ->
  PyText.strip (PyText.join (String PyText.newline EmptyString) lines)
  = PyText.join (String PyText.newline EmptyString) lines.
Proof.
  intros Hne Hall. destruct (joined_lines_tight lines Hne Hall) as [H1 H2].
  rewrite /PyText.strip lstrip_tight // rstrip_tight //.
Qed.

(** Words and the blanks between them make a tight line. *)
Lemma word_tight (w : string) :
  no_space w = true -> ends_tight w = true /\ free_of PyText.newline w = true.
Proof.
  induction w as [|c w IH]; [done|]. cbn [no_space]. intros [Hc Hw]%andb_prop.
  destruct (IH Hw) as [E F]. split.
  - destruct w; [done|]. done.
  - cbn. rewrite F andb_true_r.
    destruct (Ascii.eqb_spec c PyText.newline) as [->|]; [done|done].
Qed.

Lemma free_of_app (c0 : ascii) (a b : string) :
  free_of c0 (a +:+ b) = free_of c0 a && free_of c0 b.
Proof.
  induction a as [|c a IH]; [done|]. rewrite append_cons /= IH. by rewrite andb_assoc.
Qed.

Lemma words_tight (words : list string) :
  words <> [] -> forallb is_word words = true ->
  tight_line (PyText.join " " words) = true.
Proof.
  induction words as [|w [|w2 ws] IH]; intros Hne Hall; [done| |].
  - cbn in Hall. rewrite andb_true_r in Hall.
    change (PyText.join " " [w]) with w.
    destruct w as [|c w]; [done|]. apply no_space_is_word in Hall as [Hc Hw].
    destruct (word_tight (String c w)) as [E F]; [by rewrite /= Hc Hw|].
    rewrite /tight_line E F. cbn [starts_tight]. by rewrite Hc.
  - cbn [forallb] in Hall. apply andb_prop in Hall as [Hw Hall].
    specialize (IH ltac:(done) Hall).
    apply andb_prop in IH as [[S1 S2]%andb_prop S3].
    rewrite join_two. change (" " +:+ ?s)%string with (String " " s).
    destruct w as [|c w]; [done|]. apply no_space_is_word in Hw as [Hc Hw].
    destruct (word_tight (String c w)) as [E F]; [by rewrite /= Hc Hw|].
    rewrite /tight_line. apply andb_true_intro. split; [apply andb_true_intro; split|].
    + by rewrite append_cons /= Hc.
    + rewrite ends_tight_app.
      destruct (PyText.join " " (w2 :: ws)) as [|c2 r]; [done|]. done.
    + rewrite free_of_app F /=. done.
Qed.

Lemma plugin_line_tight (entry : plugin_spec) :
  well_formed entry = true -> tight_line (plugin_line entry) = true.
Proof.
  destruct entry as [path handlers]. rewrite /well_formed /plugin_line. cbn [fst snd].
  intros Hwf. by apply words_tight.
Qed.

Lemma plugin_entries_lines (entries : list plugin_spec) :
  forallb well_formed entries = true ->
  plugin_entries (map plugin_line entries) = Ok (map plugin_tuple entries).
Proof.
  induction entries as [|entry entries IH]; [done|]. cbn [forallb map plugin_entries].
  intros [Hwf Hall]%andb_prop. by rewrite plugin_entry_line // IH.
Qed.

(** The text of a list of well-formed entries, one a line, is parsed into
    those entries. *)
Lemma parse_plugin_lines (entries : list plugin_spec) :
  entries <> [] -> forallb well_formed entries = true ->
  parse_plugin_option
    (PyText.join (String PyText.newline EmptyString) (map plugin_line entries))
  = Ok (JList (map plugin_tuple entries)).
Proof.
  intros Hne Hall.
  assert (forallb tight_line (map plugin_line entries) = true) as Htight.
  { clear Hne. induction entries as [|entry entries IH]; [done|].
    cbn [forallb map] in Hall |- *. apply andb_prop in Hall as [Hwf Hall].
    by rewrite plugin_line_tight // IH. }
  assert (map plugin_line entries <> []) as Hne' by (by destruct entries).
  rewrite /parse_plugin_option strip_joined_lines // split_on_lines //.
  by rewrite plugin_entries_lines.
Qed.

Lemma strings_of_strings (parts : list string) : strings_of (map JStr parts) = Ok parts.
Proof. induction parts as [|x parts IH]; [done|]. cbn. by rewrite IH. Qed.

Lemma str_or_none_tight (text : string) :
  starts_tight text = true -> str_or_none text = JStr text.
Proof. by destruct text. Qed.

Lemma dict_truthy_lookup (d : pydict) (k : string) (v : json) :
  d !! k = Some v -> dict_truthy (Some d) = true.
Proof.
  intros Hk. cbn. rewrite bool_decide_eq_false_2 //. intros ->.
  by rewrite lookup_empty in Hk.
Qed.

Lemma plugins_store_given (key : string) (value : json) (s : settings) (d : pydict) :
  plugins s = Some d ->
  plugins_store key value s = (set_plugins (Some (<[key := value]> d)) s, Ok tt).
Proof. intros Hd. by rewrite /plugins_store /cfg_set Hd. Qed.

Lemma join_plugin_option_given (key : string) (s s' : settings) (d : pydict) :
  plugins s = Some d ->
  join_plugin_option key s = (s', Ok tt) ->
  exists text,
    join_lines (default (JList []) (d !! key)) = Ok text
    /\ plugins s' = Some (<[key := str_or_none text]> d).
Proof.
  intros Hd. rewrite /join_plugin_option Hd /=.
  destruct (join_lines _) as [text|e]; [|done].
  rewrite (plugins_store_given _ _ _ d) //. intros [= <-]. by exists text.
Qed.

Lemma parse_plugin_list_given (key : string) (s s' : settings) (d : pydict) :
  plugins s = Some d ->
  parse_plugin_list key s = (s', Ok tt) ->
  match d !! key with
  | Some (JStr text) =>
      exists parsed, parse_plugin_option text = Ok parsed
                     /\ plugins s' = Some (<[key := parsed]> d)
  | _ => plugins s' = Some d
  end.
Proof.
  intros Hd. rewrite /parse_plugin_list Hd /=.
  destruct (d !! key) as [[| | |text| |]|]; try done; try (by intros [= <-]).
  destruct (parse_plugin_option text) as [parsed|e]; [|done].
  rewrite (plugins_store_given _ _ _ d) //. intros [= <-]. by exists parsed.
Qed.

Section PluginsFacts.

Variable parser : config_parser.

(** The block that settles on a [plugins] dictionary, for a client that
    was given one: the lists under ["include"] and ["exclude"] are joined
    into texts. *)
Lemma load_plugins_settings_given (s s' : settings) (d : pydict) (v : json) :
  plugins s = Some d -> d !! "include"%string = Some v ->
  load_plugins_settings parser s = (s', Ok tt) ->
  exists text d',
    join_lines v = Ok text
    /\ plugins s' = Some d'
    /\ d' !! "include"%string = Some (str_or_none text)
    /\ exists text', d' !! "exclude"%string = Some (str_or_none text').
Proof.
  intros Hd Hv. rewrite /load_plugins_settings Hd (dict_truthy_lookup d _ _ Hv).
  rewrite {1}/cfg_bind (plugins_store_given _ _ _ d) //.
  set (sA := set_plugins _ s). set (dA := <["enabled"%string := _]> d) in sA.
  rewrite {1}/cfg_bind.
  destruct (join_plugin_option "include" sA) as [sB [[]|e]] eqn:EB; [|done].
  assert (plugins sA = Some dA) as HA by done.
  destruct (join_plugin_option_given _ _ _ dA HA EB) as (text & Htext & HB).
  rewrite /dA lookup_insert_ne // Hv /= in Htext.
  intros EC.
  destruct (join_plugin_option_given _ _ _ _ HB EC) as (text' & _ & HC).
  exists text, (<["exclude"%string := str_or_none text']>
                  (<["include"%string := str_or_none text]> dA)).
  split; [done|]. split; [done|]. split.
  - by rewrite lookup_insert_ne // lookup_insert_eq.
  - exists text'. by rewrite lookup_insert_eq.
Qed.

End PluginsFacts.

(** X20: a list of plugins given to the client as lines is turned into
    pairs. When the [plugins] dictionary of the client holds under
    ["include"] a list of lines, each a module path followed by the names of
    handlers, all separated by single blanks, a [load_config] that returns
    leaves under ["include"] the list of the pairs (path, handlers), in
    order, the handlers being [None] for a line that names none. *)
Theorem plugin_lines_become_pairs
    (parser : config_parser) (class_constant : string -> string) (s : settings)
    (d : pydict) (entries : list plugin_spec) :
  let loaded := load_config parser class_constant s in
  plugins s = Some d ->
  d !! "include"%string = Some (JList (map JStr (map plugin_line entries))) ->
  entries <> [] -> forallb well_formed entries = true ->
  snd loaded = Ok tt ->
  default ∅ (plugins (fst loaded)) !! "include"%string
    = Some (JList (map plugin_tuple entries)).
Proof.
  intros loaded Hplugins Hinclude Hne Hall Hok.
  destruct loaded as [s' r] eqn:Hloaded. cbn in Hok. subst r loaded. cbn [fst].
  destruct (load_config_reaches_plugins parser class_constant s s' Hloaded)
    as (s6 & H6 & Hrest).
  rewrite Hplugins in H6. clear Hloaded.
  set (text := PyText.join (String PyText.newline EmptyString) (map plugin_line entries)).
  assert (forallb tight_line (map plugin_line entries) = true) as Htight.
  { clear Hne Hinclude. induction entries as [|entry entries IH]; [done|].
    cbn [forallb map] in Hall |- *. apply andb_prop in Hall as [Hwf Hall].
    by rewrite plugin_line_tight // IH. }
  assert (map plugin_line entries <> []) as Hne' by (by destruct entries).
  destruct (joined_lines_tight _ Hne' Htight) as [Hstart _]. fold text in Hstart.
  pose proof (parse_plugin_lines entries Hne Hall) as Hparse. fold text in Hparse.
  rewrite {1}/cfg_bind in Hrest.
  destruct (load_plugins_settings parser s6) as [s9 [[]|e]] eqn:E9; [|done].
  destruct (load_plugins_settings_given parser s6 s9 d _ H6 Hinclude E9)
    as (text0 & d9 & Htext & H9 & Hinc & text' & Hexc).
  rewrite /= strings_of_strings in Htext. injection Htext as <-. fold text in Hinc.
  rewrite str_or_none_tight // in Hinc.
  rewrite H9 (dict_truthy_lookup d9 _ _ Hinc) {1}/cfg_bind in Hrest.
  destruct (parse_plugin_list "include" s9) as [sD [[]|e]] eqn:ED; [|done].
  pose proof (parse_plugin_list_given _ _ _ d9 H9 ED) as HD.
  rewrite Hinc in HD. destruct HD as (parsed & Hparsed & HD).
  rewrite Hparse in Hparsed. injection Hparsed as <-.
  pose proof (parse_plugin_list_given _ _ _ _ HD Hrest) as HE.
  rewrite lookup_insert_ne // Hexc in HE.
  destruct (str_or_none text') as [| | |text3| |].
  all: try (rewrite HE /= lookup_insert_eq //).
  destruct HE as (parsed' & _ & ->). cbn.
  by rewrite lookup_insert_ne // lookup_insert_eq.
Qed.

Lemma plugin_lines_become_pairs_witness :
  let s := example_settings (JList [JStr "handlers"; JStr "admin.tools ban kick"]) in
  default ∅ (plugins (fst (load_config empty_parser example_constants s))) !! "include"%string
  = Some (JList [JList [JStr "handlers"; JNull];
                 JList [JStr "admin.tools"; JList [JStr "ban"; JStr "kick"]]]).
Proof.
  apply (plugin_lines_become_pairs empty_parser example_constants
           (example_settings (JList [JStr "handlers"; JStr "admin.tools ban kick"]))
           {[ "root"%string := JStr "plugins";
              "include"%string := JList [JStr "handlers"; JStr "admin.tools ban kick"] ]}
           [("handlers"%string, []); ("admin.tools"%string, ["ban"%string; "kick"%string])]).
  - reflexivity.
  - vm_compute. reflexivity.
  - discriminate.
  - vm_compute. reflexivity.
  - vm_compute. reflexivity.
Defined.

(** ** Loading the configuration again *)

Lemma split_on_not_nil (sep : ascii) (s : string) : PyText.split_on sep s <> [].
Proof.
  induction s as [|c s IH]; [done|]. cbn.
  destruct (Ascii.eqb c sep); [done|]. by destruct (PyText.split_on sep s).
Qed.

(** A parsed plugin list is a list that is not empty and whose first item
    is a tuple, not a string. *)
Lemma parse_plugin_option_shape (text : string) (parsed : json) :
  parse_plugin_option text = Ok parsed ->
  exists items rest, parsed = JList (JList items :: rest).
Proof.
  rewrite /parse_plugin_option.
  pose proof (split_on_not_nil PyText.newline (PyText.strip text)) as Hne.
  destruct (PyText.split_on _ _) as [|line lines]; [done|].
  cbn [plugin_entries]. rewrite /plugin_entry.
  destruct (PyText.split line) as [|path handlers]; [done|].
  destruct (plugin_entries lines) as [entries|e]; [|done].
  intros [= <-]. by eexists _, _.
Qed.

Lemma join_lines_unjoinable (v : json) :
  unjoinable v -> join_lines v = Raise TypeError.
Proof. by intros [->|(items & rest & ->)]. Qed.

Lemma str_or_none_cases (text : string) :
  str_or_none text = JNull \/ str_or_none text = JStr text.
Proof. destruct text; by [left|right]. Qed.

Section RepeatFacts.

Variable parser : config_parser.

(** The block that settles on a [plugins] dictionary leaves one that is
    empty or has a text or [None] under ["include"]. *)
Lemma load_plugins_settings_leaves (s s' : settings) :
  load_plugins_settings parser s = (s', Ok tt) ->
  exists d, plugins s' = Some d
            /\ (d = ∅ \/ exists text, d !! "include"%string = Some (str_or_none text)).
Proof.
  rewrite /load_plugins_settings.
  destruct (dict_truthy (plugins s)) eqn:Htruthy.
  - destruct (plugins s) as [d|] eqn:Hd; [|done].
    rewrite {1}/cfg_bind (plugins_store_given _ _ _ d) //.
    set (sA := set_plugins _ s). set (dA := <["enabled"%string := _]> d) in sA.
    assert (plugins sA = Some dA) as HA by done.
    rewrite {1}/cfg_bind.
    destruct (join_plugin_option "include" sA) as [sB [[]|e]] eqn:EB; [|done].
    destruct (join_plugin_option_given _ _ _ dA HA EB) as (text & _ & HB).
    intros EC.
    destruct (join_plugin_option_given _ _ _ _ HB EC) as (text' & _ & HC).
    eexists. split; [exact HC|]. right. exists text.
    by rewrite lookup_insert_ne // lookup_insert_eq.
  - destruct (parser_section parser "plugins") as [section|].
    2: { intros [= <-]. exists ∅. by split; [|left]. }
    destruct (plugins_of_section section) as [d|e] eqn:Hsection.
    + intros [= <-]. exists d. split; [done|]. right.
      revert Hsection. rewrite /plugins_of_section.
      destruct (section_getboolean _ _ _) as [enabled|]; [|done].
      destruct (section_get section "root") as [root|]; [|done].
      destruct (section_get section "include") as [include|]; [|done].
      destruct (section_get section "exclude") as [exclude|]; [|done].
      intros [= <-]. exists (default EmptyString include).
      do 2 (rewrite lookup_insert_ne; [done|]). by rewrite lookup_insert_eq.
    + destruct (exn_eqb e KeyError); [|done].
      intros [= <-]. exists ∅. by split; [|left].
Qed.

End RepeatFacts.

(** After [load_config] the entry under ["include"] of a [plugins]
    dictionary that is not empty cannot be joined again. *)
Lemma loaded_include_unjoinable
    (parser : config_parser) (class_constant : string -> string) (s s1 : settings) :
  load_config parser class_constant s = (s1, Ok tt) ->
  dict_truthy (plugins s1) = true ->
  exists d1 v, plugins s1 = Some d1 /\ d1 !! "include"%string = Some v /\ unjoinable v.
Proof.
  intros Hload Htruthy.
  destruct (load_config_reaches_plugins parser class_constant s s1 Hload)
    as (s6 & _ & Hrest).
  rewrite {1}/cfg_bind in Hrest.
  destruct (load_plugins_settings parser s6) as [s9 [[]|e]] eqn:E9; [|done].
  destruct (load_plugins_settings_leaves parser s6 s9 E9) as (d9 & H9 & Hd9).
  destruct (dict_truthy (plugins s9)) eqn:Ht9.
  2: { injection Hrest as <-. by rewrite Ht9 in Htruthy. }
  destruct Hd9 as [->|(text & Hinc)].
  { by rewrite H9 /= bool_decide_eq_true_2 in Ht9. }
  rewrite {1}/cfg_bind in Hrest.
  destruct (parse_plugin_list "include" s9) as [sD [[]|e]] eqn:ED; [|done].
  pose proof (parse_plugin_list_given _ _ _ d9 H9 ED) as HD. rewrite Hinc in HD.
  assert (exists dD v, plugins sD = Some dD /\ dD !! "include"%string = Some v
                       /\ unjoinable v) as (dD & v & HsD & Hv & Hun).
  { destruct (str_or_none_cases text) as [Hnone|Hstr].
    - rewrite Hnone in HD, Hinc. exists d9, JNull. by split; [|split; [|left]].
    - rewrite Hstr in HD. destruct HD as (parsed & Hparsed & HD).
      exists (<["include"%string := parsed]> d9), parsed.
      split; [done|]. split; [by rewrite lookup_insert_eq|].
      right. by eapply parse_plugin_option_shape. }
  pose proof (parse_plugin_list_given _ _ _ dD HsD Hrest) as HE.
  destruct (dD !! "exclude"%string) as [[| | |text3| |]|];
    try (by exists dD, v).
  destruct HE as (parsed' & _ & HE).
  exists (<["exclude"%string := parsed']> dD), v.
  split; [done|]. split; [by rewrite lookup_insert_ne|done].
Qed.

(** X21: [load_config] cannot be run twice on a client that has plugins.
    Once [load_config] has returned and left a [plugins] dictionary that is
    not empty, the entry under ["include"] is [None] or a list of tuples,
    which the next [load_config] tries to join as a list of strings: its
    block about plugins raises [TypeError], and it never returns, whatever
    the configuration file holds by then. *)
Theorem load_config_cannot_be_repeated
    (parser parser' : config_parser) (class_constant class_constant' : string -> string)
    (s s1 : settings) :
  load_config parser class_constant s = (s1, Ok tt) ->
  dict_truthy (plugins s1) = true ->
  snd (load_config parser' class_constant' s1) <> Ok tt
  /\ forall s6, plugins s6 = plugins s1 ->
                snd (load_plugins_settings parser' s6) = Raise TypeError.
Proof.
  intros Hload Htruthy.
  destruct (loaded_include_unjoinable parser class_constant s s1 Hload Htruthy)
    as (d1 & v & H1 & Hv & Hun).
  assert (forall s6, plugins s6 = plugins s1 ->
                     snd (load_plugins_settings parser' s6) = Raise TypeError) as Hraise.
  { intros s6 H6. rewrite H1 in H6.
    rewrite /load_plugins_settings H6 (dict_truthy_lookup d1 _ _ Hv).
    rewrite {1}/cfg_bind (plugins_store_given _ _ _ d1) //.
    rewrite {1}/cfg_bind /join_plugin_option. cbn [plugins set_plugins default].
    rewrite lookup_insert_ne // Hv. cbn [default].
    by rewrite join_lines_unjoinable. }
  split; [|done].
  destruct (load_config parser' class_constant' s1) as [s2 [[]|e]] eqn:Hagain; [|done].
  destruct (load_config_reaches_plugins parser' class_constant' s1 s2 Hagain)
    as (s6 & H6 & Hrest).
  specialize (Hraise s6 H6). rewrite {1}/cfg_bind in Hrest.
  destruct (load_plugins_settings parser' s6) as [s9 [[]|e]]; [|done].
  done.
Qed.

Lemma load_config_cannot_be_repeated_witness :
  let s := example_settings (JList [JStr "handlers"]) in
  let s1 := fst (load_config empty_parser example_constants s) in
  snd (load_config empty_parser example_constants s1) <> Ok tt
  /\ forall s6, plugins s6 = plugins s1 ->
                snd (load_plugins_settings empty_parser s6) = Raise TypeError.
Proof.
  apply (load_config_cannot_be_repeated empty_parser empty_parser
           example_constants example_constants
           (example_settings (JList [JStr "handlers"]))
           (fst (load_config empty_parser example_constants
                   (example_settings (JList [JStr "handlers"]))))).
  - vm_compute. reflexivity.
  - vm_compute. reflexivity.
Defined.

(** ** The download worker *)

Lemma unpack_file_id_length (decoded : bytes) :
  is_Some (unpack_file_id decoded) <-> length decoded = 24%nat \/ length decoded = 44%nat.
Proof.
  rewrite /unpack_file_id.
  destruct (Nat.ltb_spec 24 (length decoded)).
  - destruct (Nat.eqb_spec (length decoded) 44); split.
    + by right.
    + by eexists.
    + by intros [??].
    + lia.
  - destruct (Nat.eqb_spec (length decoded) 24); split.
    + by left.
    + by eexists.
    + by intros [??].
    + lia.
Qed.

(** X22: a file id of the wrong length is turned down before anything is
    fetched. When the decoded file id has neither the 24 bytes of a
    document id nor the 44 bytes of a photo id, the worker logs
    [FileIdInvalid], sets [done] and leaves the path unassigned; no media
    session is created and no file is written. Ids of those two lengths are
    the only ones that are unpacked. *)
Theorem file_id_of_wrong_length_is_turned_down
    (ctr256_decrypt : bytes -> bytes -> bytes -> bytes) (sha256 : bytes -> bytes)
    (item : download_item) (env : download_env) (size : option Z)
    (progress : option (Z -> Z -> option exn)) (move : option exn)
    (t : transfer) (decoded : bytes) :
  let worked := download_worker_body ctr256_decrypt sha256 item env size progress move t in
  item_decode item = Decoded decoded ->
  length decoded <> 24%nat -> length decoded <> 44%nat ->
  temp_files t !! EmptyString = None ->
  snd worked = {| reported_path := None; done_set := true |}
  /\ logged (fst worked) = logged t ++ [FileIdInvalid]
  /\ media_sessions (fst worked) = media_sessions t
  /\ temp_files (fst worked) = temp_files t
  /\ forall data, is_Some (unpack_file_id data)
                  <-> length data = 24%nat \/ length data = 44%nat.
Proof.
  intros worked Hdecode H24 H44 Hempty.
  assert (unpack_file_id decoded = None) as Hunpack.
  { destruct (unpack_file_id decoded) eqn:E; [|done].
    assert (is_Some (unpack_file_id decoded)) as H%unpack_file_id_length by (by eexists).
    lia. }
  subst worked. rewrite /download_worker_body /plan_download Hdecode Hunpack /=.
  repeat split; try done.
  - by apply delete_id.
  - by apply unpack_file_id_length.
  - by apply unpack_file_id_length.
Qed.

Lemma file_id_of_wrong_length_is_turned_down_witness :
  let item := item_with [x05; x00; x00; x00; x02] "" "clip.mp4" in
  let worked := download_worker_body toy_decrypt toy_digest item
                  (plain_download reliable_sessions "tmp1" [x61] []) None None None
                  idle_transfer in
  snd worked = {| reported_path := None; done_set := true |}
  /\ logged (fst worked) = logged idle_transfer ++ [FileIdInvalid]
  /\ media_sessions (fst worked) = media_sessions idle_transfer
  /\ temp_files (fst worked) = temp_files idle_transfer
  /\ forall data, is_Some (unpack_file_id data)
                  <-> length data = 24%nat \/ length data = 44%nat.
Proof.
  apply (file_id_of_wrong_length_is_turned_down toy_decrypt toy_digest
           (item_with [x05; x00; x00; x00; x02] "" "clip.mp4")
           (plain_download reliable_sessions "tmp1" [x61] []) None None None
           idle_transfer [x05; x00; x00; x00; x02]).
  - reflexivity.
  - cbn. lia.
  - cbn. lia.
  - reflexivity.
Defined.

(** X23: a medium the origin serves itself lands at its final path. When
    the file id unpacks, its media type is known and a name was asked for
    or can be made up, the worker fetches the file from the data center
    the id names; once the chunks have come and the move has gone through,
    the final path holds the chunks one after the other, the temporary file
    is gone, the path is reported and [done] is set. *)
Theorem downloaded_medium_lands_at_its_final_path
    (ctr256_decrypt : bytes -> bytes -> bytes -> bytes) (sha256 : bytes -> bytes)
    (item : download_item) (senv : session_env) (name : string)
    (first : bytes) (chunks : list bytes) (rest : list (result file_answer))
    (size : option Z) (progress : option (Z -> Z -> option exn))
    (t t1 : transfer) (fields : file_id_fields) (directory file_name : string) :
  let env := plain_download senv name first
               (map (fun chunk => Ok (UploadFile chunk)) chunks
                ++ Ok (UploadFile []) :: rest) in
  let final_path := final_path_of item directory file_name in
  let worked := download_worker_body ctr256_decrypt sha256 item env size progress None t in
  plan_download item = Fetch fields directory file_name ->
  media_session senv (fid_dc_id fields) t = (t1, Ok tt) ->
  Forall (fun chunk => chunk <> []) (first :: chunks) ->
  (forall offset, report progress offset size = None) ->
  name <> EmptyString -> final_path <> EmptyString ->
  snd worked = {| reported_path := Some (Some final_path); done_set := true |}
  /\ temp_files (fst worked)
     = <[final_path := first ++ concat chunks]> (delete name (temp_files t))
  /\ logged (fst worked) = logged t.
Proof.
  intros env final_path worked Hplan Hsession Hne Hreport Hname Hfinal.
  pose proof (media_session_frame senv (fid_dc_id fields) t) as (_ & Hlogged & _).
  rewrite Hsession in Hlogged. cbn in Hlogged.
  pose proof (plain_download_result ctr256_decrypt sha256 senv name (fid_dc_id fields)
                first chunks rest size progress t t1 Hsession Hne Hreport) as Hget.
  cbn zeta in Hget.
  subst worked. rewrite /download_worker_body Hplan. fold env. rewrite Hget.
  rewrite /download_worker_finish. fold final_path.
  destruct name as [|c name]; [done|].
  destruct final_path as [|c' final_path]; [done|].
  cbn. rewrite lookup_insert_eq /= delete_insert_eq. done.
Qed.

Lemma downloaded_medium_lands_at_its_final_path_witness :
  let item := item_with document_id_bytes "" "" in
  let env := plain_download reliable_sessions "tmp1" [x61; x62]
               (map (fun chunk => Ok (UploadFile chunk)) [[x63]]
                ++ Ok (UploadFile []) :: []) in
  let final_path := "/home/downloads/document_2019-04-01_12-00-00_42.unknown"%string in
  let worked := download_worker_body toy_decrypt toy_digest item env None None None
                  idle_transfer in
  snd worked = {| reported_path := Some (Some final_path); done_set := true |}
  /\ temp_files (fst worked)
     = <[final_path := [x61; x62] ++ concat [[x63]]]> (delete "tmp1"%string (temp_files idle_transfer))
  /\ logged (fst worked) = logged idle_transfer.
Proof.
  apply (downloaded_medium_lands_at_its_final_path toy_decrypt toy_digest
           (item_with document_id_bytes "" "") reliable_sessions "tmp1"
           [x61; x62] [[x63]] [] None None idle_transfer
           (with_media_sessions {[2]} idle_transfer)
           {| fid_media_type := 5; fid_dc_id := 2; fid_id := 7; fid_access_hash := 9;
              fid_volume_id := None; fid_secret := None; fid_local_id := None |}
           "downloads" "document_2019-04-01_12-00-00_42.unknown").
  - vm_compute. reflexivity.
  - rewrite /media_session /=. rewrite bool_decide_eq_false_2; [set_solver|].
    cbn. by rewrite right_id_L.
  - repeat constructor; discriminate.
  - reflexivity.
  - discriminate.
  - discriminate.
Defined.


(** ** Downloads from a CDN *)

Section CdnLoop.

Variable ctr256_decrypt : bytes -> bytes -> bytes -> bytes.
Variable sha256 : bytes -> bytes.

Lemma cdn_step_chunk (name : string) (progress : option (Z -> Z -> option exn))
    (size : option Z) (key encryption_iv : bytes) (chunk : bytes)
    (hashes : list file_hash) (decrypted : bytes) (offset : Z) (t : transfer) :
  cdn_plain ctr256_decrypt sha256 key encryption_iv offset chunk hashes = Some decrypted ->
  report progress (offset + limit) size = None ->
  cdn_step ctr256_decrypt sha256 name progress size key encryption_iv
    (chunk_turn chunk hashes) (offset, t)
  = (if Z.of_nat (length chunk) <? limit
     then Break (offset + limit, write_temp name decrypted t)
     else Continue (offset + limit, write_temp name decrypted t)).
Proof.
  rewrite /cdn_plain /cdn_step /=. intros Hplain Hreport.
  destruct (counter_iv encryption_iv offset) as [iv|e]; [|done].
  destruct (verify_parts _ _ _ _); [|done]. injection Hplain as <-.
  by rewrite Hreport.
Qed.

(** The CDN loop over chunks that pass, full ones first and a short one
    last. *)
Lemma cdn_loop_writes (name : string) (progress : option (Z -> Z -> option exn))
    (size : option Z) (key encryption_iv : bytes) (post : list cdn_turn)
    (last : bytes * list file_hash) (full : list (bytes * list file_hash)) :
  (forall offset, report progress offset size = None) ->
  Z.of_nat (length last.1) < limit ->
  forall (offset : Z) (t : transfer) (plains : list bytes) (written : bytes),
    Forall (fun served => limit <= Z.of_nat (length served.1)) full ->
    cdn_plains ctr256_decrypt sha256 key encryption_iv offset (full ++ [last])
      = Some plains ->
    temp_files t !! name = Some written ->
    iterate (cdn_step ctr256_decrypt sha256 name progress size key encryption_iv)
      (map (fun served => chunk_turn served.1 served.2) (full ++ [last]) ++ post)
      (offset, t)
    = ((offset + Z.of_nat (S (length full)) * limit,
        with_temp_files (<[name := written ++ concat plains]> (temp_files t)) t), Done).
Proof.
  intros Hreport Hshort. induction full as [|[chunk hashes] full IH];
    intros offset t plains written Hfull Hplains Hwritten.
  - destruct last as [chunk hashes]. cbn [app map cdn_plains fst snd] in *.
    destruct (cdn_plain _ _ _ _ _ _ _) as [decrypted|] eqn:Hplain; [|done].
    injection Hplains as <-.
    rewrite iterate_cons (cdn_step_chunk _ _ _ _ _ _ _ decrypted) //.
    assert ((Z.of_nat (length chunk) <? limit) = true) as -> by lia.
    rewrite /write_temp Hwritten /= app_nil_r. do 2 f_equal; lia.
  - apply Forall_cons in Hfull as [Hchunk Hfull]. cbn [fst] in Hchunk.
    change (((chunk, hashes) :: full) ++ [last]) with ((chunk, hashes) :: (full ++ [last]))
      in Hplains.
    cbn [cdn_plains] in Hplains.
    destruct (cdn_plain _ _ _ _ _ _ _) as [decrypted|] eqn:Hplain; [|done].
    destruct (cdn_plains _ _ _ _ _ _) as [others|] eqn:Hothers; [|done].
    injection Hplains as <-.
    change (map _ (((chunk, hashes) :: full) ++ [last]) ++ post)
      with (chunk_turn chunk hashes
            :: (map (fun served => chunk_turn served.1 served.2) (full ++ [last]) ++ post)).
    rewrite iterate_cons (cdn_step_chunk _ _ _ _ _ _ _ decrypted) //.
    assert ((Z.of_nat (length chunk) <? limit) = false) as -> by lia.
    rewrite (IH _ _ others (written ++ decrypted)) //.
    { by rewrite /write_temp Hwritten /= lookup_insert_eq. }
    rewrite /write_temp /with_temp_files Hwritten /= insert_insert_eq -app_assoc.
    do 2 f_equal. lia.
Qed.

End CdnLoop.

(** X24: a download redirected to a CDN stores the decrypted chunks. When
    every chunk the CDN serves decrypts to parts that match the hashes the
    origin gives for them, the chunks are full up to one that is shorter
    than the request limit, and the progress callback (if any) does not
    raise, [get_file] returns the name of the temporary file, which holds
    the decrypted chunks one after the other; the download ends at the
    short chunk and nothing is logged. *)
Theorem cdn_download_stores_the_decrypted_chunks
    (ctr256_decrypt : bytes -> bytes -> bytes -> bytes) (sha256 : bytes -> bytes)
    (senv : session_env) (name : string) (dc dc_id : Z)
    (file_token key encryption_iv : bytes)
    (full : list (bytes * list file_hash)) (last : bytes * list file_hash)
    (post : list cdn_turn) (plains : list bytes)
    (size : option Z) (progress : option (Z -> Z -> option exn)) (t t1 t2 : transfer) :
  let env := cdn_download senv name dc file_token key encryption_iv
               (map (fun served => chunk_turn served.1 served.2) (full ++ [last]) ++ post) in
  let final := get_file ctr256_decrypt sha256 env dc_id size progress t in
  media_session senv dc_id t = (t1, Ok tt) ->
  cdn_session senv dc t1 = (t2, Ok tt) ->
  cdn_plains ctr256_decrypt sha256 key encryption_iv 0 (full ++ [last]) = Some plains ->
  Forall (fun served => limit <= Z.of_nat (length served.1)) full ->
  Z.of_nat (length last.1) < limit ->
  (forall offset, report progress offset size = None) ->
  snd final = Returned name
  /\ temp_files (fst final) !! name = Some (concat plains)
  /\ same_files_but name (temp_files t) (fst final)
  /\ logged (fst final) = logged t.
Proof.
  intros env final Hsession Hcdn Hplains Hfull Hshort Hreport.
  pose proof (media_session_frame senv dc_id t) as (F1 & L1 & _).
  rewrite Hsession in F1, L1. cbn in F1, L1.
  pose proof (cdn_session_frame senv dc t1) as (F2 & L2 & _).
  rewrite Hcdn in F2, L2. cbn in F2, L2.
  subst final env. rewrite /get_file Hsession /get_file_try.
  cbn [cdn_download first_answer temp_name cdn_turns sessions]. rewrite Hcdn.
  rewrite (cdn_loop_writes _ _ _ _ _ _ _ _ _ _ Hreport Hshort _ _ plains []) //.
  { by rewrite /create_temp /= lookup_insert_eq. }
  cbn. rewrite insert_insert_eq. repeat split.
  - by rewrite lookup_insert_eq.
  - intros k Hk. by rewrite lookup_insert_ne // F2 F1.
  - by rewrite L2 L1.
Qed.

Lemma cdn_download_stores_the_decrypted_chunks_witness :
  let hashes := [{| fh_limit := 2; fh_hash := [x63; x62] |};
                 {| fh_limit := 2; fh_hash := [x61] |}] in
  let env := cdn_download reliable_sessions "tmp1" 4 [x01] [x02]
               [x00; x00; x00; x00; x00]
               (map (fun served => chunk_turn served.1 served.2)
                  ([] ++ [([x61; x62; x63], hashes)]) ++ []) in
  let final := get_file toy_decrypt toy_digest env 2 (Some 3) None idle_transfer in
  snd final = Returned "tmp1"%string
  /\ temp_files (fst final) !! "tmp1"%string = Some (concat [[x63; x62; x61]])
  /\ same_files_but "tmp1" (temp_files idle_transfer) (fst final)
  /\ logged (fst final) = logged idle_transfer.
Proof.
  apply (cdn_download_stores_the_decrypted_chunks toy_decrypt toy_digest
           reliable_sessions "tmp1" 4 2 [x01] [x02] [x00; x00; x00; x00; x00]
           [] ([x61; x62; x63],
               [{| fh_limit := 2; fh_hash := [x63; x62] |};
                {| fh_limit := 2; fh_hash := [x61] |}])
           [] [[x63; x62; x61]] (Some 3) None idle_transfer
           (with_media_sessions {[2]} idle_transfer)
           (with_media_sessions {[4; 2]} idle_transfer)).
  - rewrite /media_session /=. rewrite bool_decide_eq_false_2; [set_solver|].
    cbn. by rewrite right_id_L.
  - rewrite /cdn_session /=. rewrite bool_decide_eq_false_2; [set_solver|].
    cbn. do 2 f_equal. 
  - vm_compute. reflexivity.
  - constructor.
  - by vm_compute.
  - reflexivity.
Defined.

(** ** The first dialogs *)

Section DialogsFacts.

Variable at_once : Z.

Lemma chunk_is_fetched (offset_date : Z) (page : dialogs_page)
    (rest : list dialogs_answer) (floods : list Z) :
  forall events,
    get_initial_dialogs_chunk at_once offset_date
      (chunk_answers (floods, page) ++ rest) events
    = (rest, events ++ chunk_events at_once offset_date (floods, page), Fetched page).
Proof.
  rewrite /chunk_answers /chunk_events. cbn [fst snd].
  induction floods as [|x floods IH]; intros events.
  - cbn. by rewrite -app_assoc.
  - cbn [map app get_initial_dialogs_chunk flat_map]. rewrite IH.
    by rewrite -!app_assoc.
Qed.

Lemma answers_outnumber_pages (pages : list (list Z * dialogs_page))
    (rest : list dialogs_answer) :
  (length pages <= length (flat_map chunk_answers pages ++ rest))%nat.
Proof.
  induction pages as [|[floods page] pages IH]; cbn [flat_map length]; [lia|].
  rewrite length_app in IH. rewrite !length_app. cbn [length]. fold chunk_answers. lia.
Qed.

Lemma paging_runs_to_the_short_page (last : list Z * dialogs_page)
    (rest : list dialogs_answer) :
  Z.of_nat (dialogs_len last.2) <> at_once ->
  forall (full : list (list Z * dialogs_page)) (turns : nat) (dialogs : dialogs_page)
         (offset_date : Z) (events : list dialogs_event),
    Forall (fun served => Z.of_nat (dialogs_len served.2) = at_once) full ->
    Z.of_nat (dialogs_len dialogs) = at_once ->
    (length full < turns)%nat ->
    paging at_once turns dialogs offset_date
      (flat_map chunk_answers (full ++ [last]) ++ rest) events
    = (rest, events ++ paging_events at_once offset_date (full ++ [last]), Fetched tt).
Proof.
  intros Hlast. induction full as [|[floods page] full IH];
    intros turns dialogs offset_date events Hfull Hdialogs Hturns.
  - destruct turns as [|turns]; [cbn in Hturns; lia|].
    destruct last as [floods page]. cbn [app flat_map paging paging_events].
    rewrite bool_decide_eq_true_2 // app_nil_r chunk_is_fetched.
    destruct turns; cbn [paging]; rewrite bool_decide_eq_false_2 //; by rewrite app_nil_r.
  - destruct turns as [|turns]; [cbn in Hturns; lia|].
    apply Forall_cons in Hfull as [Hpage Hfull]. cbn [snd] in Hpage.
    change (flat_map chunk_answers (((floods, page) :: full) ++ [last]) ++ rest)
      with ((chunk_answers (floods, page) ++ flat_map chunk_answers (full ++ [last])) ++ rest).
    rewrite -app_assoc. cbn [paging]. rewrite bool_decide_eq_true_2 // chunk_is_fetched.
    rewrite IH //; [cbn in Hturns; lia|].
    change (paging_events at_once offset_date (((floods, page) :: full) ++ [last]))
      with (chunk_events at_once offset_date (floods, page)
            ++ paging_events at_once (offset_date_of page) (full ++ [last])).
    by rewrite -app_assoc.
Qed.

End DialogsFacts.

(** X25: the first dialogs are fetched page by page, each from where the
    one before ended. Once [GetPinnedDialogs] is answered,
    [get_initial_dialogs] asks for the first page at offset date 0 and for
    every following page at the offset date of the page before, as long as
    the pages come full; after the first page that does not hold
    [DIALOGS_AT_ONCE] dialogs it asks once more for the page at offset date
    0 and returns. Every [FloodWait] on the way is logged and slept out and
    the same request sent again; the answers that follow are not used. *)
Theorem first_dialogs_are_paged_by_offset_date
    (at_once : Z) (pinned : dialogs_page)
    (full : list (list Z * dialogs_page)) (last final : list Z * dialogs_page)
    (rest : list dialogs_answer) (events : list dialogs_event) :
  Forall (fun served => Z.of_nat (dialogs_len served.2) = at_once) full ->
  Z.of_nat (dialogs_len last.2) <> at_once ->
  get_initial_dialogs at_once
    (Answered pinned :: flat_map chunk_answers (full ++ [last])
       ++ chunk_answers final ++ rest) events
  = (rest,
     events ++ [Sent GetPinnedDialogs]
       ++ paging_events at_once 0 (full ++ [last])
       ++ chunk_events at_once 0 final,
     Fetched tt).
Proof.
  intros Hfull Hlast. rewrite /get_initial_dialogs.
  destruct full as [|[floods page] full].
  - destruct last as [floods page]. cbn [app flat_map paging_events].
    rewrite app_nil_r -app_assoc chunk_is_fetched.
    cbn [paging]. rewrite bool_decide_eq_false_2 //.
    destruct final as [floods' page']. rewrite chunk_is_fetched.
    by rewrite -!app_assoc.
  - apply Forall_cons in Hfull as [Hpage Hfull]. cbn [snd] in Hpage.
    change (flat_map chunk_answers (((floods, page) :: full) ++ [last])
            ++ chunk_answers final ++ rest)
      with ((chunk_answers (floods, page) ++ flat_map chunk_answers (full ++ [last]))
            ++ chunk_answers final ++ rest).
    rewrite -app_assoc chunk_is_fetched.
    rewrite (paging_runs_to_the_short_page at_once last (chunk_answers final ++ rest)) //.
    { pose proof (answers_outnumber_pages (full ++ [last]) (chunk_answers final ++ rest)).
      rewrite length_app /= in H. lia. }
    destruct final as [floods' page']. rewrite chunk_is_fetched.
    change (paging_events at_once 0 (((floods, page) :: full) ++ [last]))
      with (chunk_events at_once 0 (floods, page)
            ++ paging_events at_once (offset_date_of page) (full ++ [last])).
    by rewrite -!app_assoc.
Qed.

Lemma first_dialogs_are_paged_by_offset_date_witness :
  let full_page := {| dialogs_len := 2; offset_date_of := 1700 |} in
  let short_page := {| dialogs_len := 1; offset_date_of := 1600 |} in
  get_initial_dialogs 2
    (Answered short_page
     :: flat_map chunk_answers ([([30], full_page)] ++ [([], short_page)])
       ++ chunk_answers ([], full_page) ++ [Refused ValueError]) []
  = ([Refused ValueError],
     [] ++ [Sent GetPinnedDialogs]
       ++ paging_events 2 0 ([([30], full_page)] ++ [([], short_page)])
       ++ chunk_events 2 0 ([], full_page),
     Fetched tt).
Proof.
  apply (first_dialogs_are_paged_by_offset_date 2
           {| dialogs_len := 1; offset_date_of := 1600 |}
           [([30], {| dialogs_len := 2; offset_date_of := 1700 |})]
           ([], {| dialogs_len := 1; offset_date_of := 1600 |})
           ([], {| dialogs_len := 2; offset_date_of := 1700 |})
           [Refused ValueError] []).
  - repeat constructor.
  - cbn. lia.
Defined.

(** ** Logging a bot in *)

Lemma last_after_head {A : Type} (l : list A) (x d : A) :
  List.last (x :: l) d = List.last l x.
Proof.
  revert x d. induction l as [|y l IH]; intros x d; [done|].
  change (List.last (x :: y :: l) d) with (List.last (y :: l) d).
  by rewrite !IH.
Qed.

(** X26: a bot is logged in on the data center the server sends it to.
    On a started client whose session runs, when the server answers with
    any number of [UserMigrate] errors and then lets the bot in, and the
    keys are created and the sessions start, [authorize_bot] returns with
    the bot's user id set, the client on the data center of the last
    migration with the key created for it, and a running session built for
    that data center. [auth.ImportBotAuthorization] was sent once to the
    first data center and once to each one the bot was sent to, in order,
    and one line was printed. *)
Theorem bot_is_logged_in_where_it_was_sent
    (moves : list (Z * bytes)) (id : Z) (username : option string)
    (rest : list bot_turn) (c : bot_login) :
  bl_is_started c = true ->
  bl_session c = Running ->
  let final := authorize_bot (map smooth_migration moves
                              ++ BotAuthorized id username :: rest) c in
  let arrival := List.last moves (bl_dc_id c, bl_auth_key c) in
  snd final = Returned tt
  /\ bl_user_id (fst final) = Some id
  /\ bl_dc_id (fst final) = arrival.1
  /\ bl_auth_key (fst final) = arrival.2
  /\ bl_session (fst final) = Running
  /\ bl_session_dc (fst final) = List.last (map fst moves) (bl_session_dc c)
  /\ bl_imports (fst final) = bl_imports c ++ bl_session_dc c :: map fst moves
  /\ bl_printed (fst final)
     = bl_printed c ++ ["Logged in successfully as @" +:+ default "None" username]
  /\ bl_is_started (fst final) = true.
Proof.
  revert c. induction moves as [|[x key] moves IH]; intros c Hstarted Hrunning.
  - cbn [map app authorize_bot]. rewrite Hstarted. cbn. by rewrite Hstarted Hrunning.
  - cbn [map app authorize_bot smooth_migration fst snd]. rewrite Hstarted Hrunning.
    cbn [negb session_stop session_start bl_session bl_with_session bl_with_dc_id
         bl_with_auth_key bl_with_imports bl_session_dc bl_dc_id].
    match goal with |- context [authorize_bot _ ?c'] =>
      pose proof (IH c' Hstarted eq_refl) as IH'; set (c1 := c') in * end.
    cbn zeta in IH'. destruct IH' as (H1 & H2 & H3 & H4 & H5 & H6 & H7 & H8 & H9).
    cbn zeta. rewrite H1 H2 H3 H4 H5 H6 H7 H8 H9. subst c1.
    cbn [bl_dc_id bl_auth_key bl_session_dc bl_imports bl_printed map fst snd
         bl_with_session bl_with_dc_id bl_with_auth_key bl_with_imports].
    rewrite -app_assoc. cbn [app].
    by rewrite !last_after_head.
Qed.

Lemma bot_is_logged_in_where_it_was_sent_witness :
  let final := authorize_bot (map smooth_migration [(4, [x02]); (5, [x03])]
                              ++ BotAuthorized 77 (Some "somebot"%string) :: []) bot_at_two in
  let arrival := List.last [(4, [x02]); (5, [x03])] (bl_dc_id bot_at_two, bl_auth_key bot_at_two) in
  snd final = Returned tt
  /\ bl_user_id (fst final) = Some 77
  /\ bl_dc_id (fst final) = arrival.1
  /\ bl_auth_key (fst final) = arrival.2
  /\ bl_session (fst final) = Running
  /\ bl_session_dc (fst final) = List.last (map fst [(4, [x02]); (5, [x03])]) (bl_session_dc bot_at_two)
  /\ bl_imports (fst final)
     = bl_imports bot_at_two ++ bl_session_dc bot_at_two :: map fst [(4, [x02]); (5, [x03])]
  /\ bl_printed (fst final)
     = bl_printed bot_at_two
       ++ ["Logged in successfully as @" +:+ default "None" (Some "somebot"%string)]
  /\ bl_is_started (fst final) = true.
Proof.
  apply (bot_is_logged_in_where_it_was_sent [(4, [x02]); (5, [x03])] 77
           (Some "somebot"%string) [] bot_at_two); reflexivity.
Defined.

(** ** Peers loaded from a session file *)

Section LoadedPeers.

Variable get_input_peer : Z -> json -> result input_peer.

Lemma get_by_value_found {A : Type} (m : gmap Z A) (v : json) (a : A) :
  get_by_value m v = Ok (Some a) -> exists id, m !! id = Some a.
Proof.
  destruct v as [|b|z| | |]; cbn; intros H; try done; injection H as H; eauto.
Qed.

Lemma load_peers_by_id_secondary (items : list (string * json)) (s : session) :
  let s' := (load_peers_by_id get_input_peer items s).1 in
  stored_by_username s' = stored_by_username s /\ stored_by_phone s' = stored_by_phone s.
Proof.
  revert s. induction items as [|[k v] items IH]; intros s; [done|].
  cbn [load_peers_by_id]. destruct (Py.int k) as [id|]; [|done].
  destruct (get_input_peer id v) as [peer|e]; [|done].
  by destruct (IH (with_directory (<[id:=peer]> (stored_by_id s))
                     (stored_by_username s) (stored_by_phone s) s)) as [-> ->].
Qed.

Lemma load_usernames_alias (items : list (string * json)) (s : session) :
  let s' := (load_secondary store_username items s).1 in
  stored_by_id s' = stored_by_id s
  /\ stored_by_phone s' = stored_by_phone s
  /\ forall k p, stored_by_username s' !! k = Some p ->
       stored_by_username s !! k = Some p \/ exists id, stored_by_id s !! id = Some p.
Proof.
  revert s. induction items as [|[k v] items IH]; intros s; [by eauto|].
  cbn [load_secondary].
  destruct (get_by_value (stored_by_id s) v) as [[peer|]|e] eqn:Hv; [|by apply IH|by eauto].
  destruct (IH (store_username k peer s)) as (Hid & Hphone & Hname).
  cbn zeta. rewrite Hid Hphone. do 2 (split; [done|]). intros k' p Hp.
  destruct (Hname k' p Hp) as [Hold|Hnew]; [|by right].
  cbn in Hold. destruct (decide (k = k')) as [->|Hne].
  - rewrite lookup_insert_eq in Hold. injection Hold as <-.
    right. by apply (get_by_value_found _ v).
  - rewrite lookup_insert_ne // in Hold. by left.
Qed.

Lemma load_phones_alias (items : list (string * json)) (s : session) :
  let s' := (load_secondary store_phone items s).1 in
  stored_by_id s' = stored_by_id s
  /\ stored_by_username s' = stored_by_username s
  /\ forall k p, stored_by_phone s' !! k = Some p ->
       stored_by_phone s !! k = Some p \/ exists id, stored_by_id s !! id = Some p.
Proof.
  revert s. induction items as [|[k v] items IH]; intros s; [by eauto|].
  cbn [load_secondary].
  destruct (get_by_value (stored_by_id s) v) as [[peer|]|e] eqn:Hv; [|by apply IH|by eauto].
  destruct (IH (store_phone k peer s)) as (Hid & Husername & Hphone).
  cbn zeta. rewrite Hid Husername. do 2 (split; [done|]). intros k' p Hp.
  destruct (Hphone k' p Hp) as [Hold|Hnew]; [|by right].
  cbn in Hold. destruct (decide (k = k')) as [->|Hne].
  - rewrite lookup_insert_eq in Hold. injection Hold as <-.
    right. by apply (get_by_value_found _ v).
  - rewrite lookup_insert_ne // in Hold. by left.
Qed.

End LoadedPeers.

(** X27: the names and phone numbers [load_session] reads from a session
    file only ever point at references of the directory by id. Whether it
    returns or raises, every entry of [peers_by_username] and of
    [peers_by_phone] it leaves was there before or holds a reference that
    [peers_by_id] holds too: an entry of the file that names an id the
    directory does not know is dropped, never stored empty. *)
Theorem loaded_names_point_at_known_peers
    (get_input_peer : Z -> json -> result input_peer)
    (create_auth_key : Z -> result bytes) (files : disk) (s : session) :
  let loaded := (load_session get_input_peer create_auth_key files s).1 in
  (forall name p, stored_by_username loaded !! name = Some p ->
     stored_by_username s !! name = Some p
     \/ exists id, stored_by_id loaded !! id = Some p)
  /\ (forall phone p, stored_by_phone loaded !! phone = Some p ->
        stored_by_phone s !! phone = Some p
        \/ exists id, stored_by_id loaded !! id = Some p).
Proof.
  assert (forall s' : session,
    stored_by_username s' = stored_by_username s ->
    stored_by_phone s' = stored_by_phone s ->
    (forall name p, stored_by_username s' !! name = Some p ->
       stored_by_username s !! name = Some p
       \/ exists id, stored_by_id s' !! id = Some p)
    /\ (forall phone p, stored_by_phone s' !! phone = Some p ->
          stored_by_phone s !! phone = Some p
          \/ exists id, stored_by_id s' !! id = Some p)) as Hsame.
  { intros s' -> ->. split; intros k p Hp; by left. }
  rewrite /load_session.
  destruct (files !! session_path s) as [[| | | | |record]|]; try by apply Hsame.
  2: { destruct (create_auth_key 1); by apply Hsame. }
  destruct (dict_get "dc_id" record); [|by apply Hsame].
  destruct (dict_get "test_mode" record); [|by apply Hsame].
  destruct (dict_get "auth_key" record) as [parts|]; [|by apply Hsame].
  destruct (join_json parts) as [text|]; [|by apply Hsame].
  destruct (Base64.b64decode text) as [key|]; [|by apply Hsame].
  destruct (dict_get "user_id" record) as [uid|]; [|by apply Hsame].
  destruct (items_of "peers_by_id" record) as [ids|]; [|by apply Hsame].
  match goal with |- context [load_peers_by_id _ ids ?s0] =>
    pose proof (load_peers_by_id_secondary get_input_peer ids s0) as [Hn1 Hp1];
    destruct (load_peers_by_id get_input_peer ids s0) as [s1 [[]|e1]] end;
    cbn in Hn1, Hp1; [|by apply Hsame].
  destruct (items_of "peers_by_username" record) as [names|]; [|by apply Hsame].
  pose proof (load_usernames_alias names s1) as (Hi2 & Hp2 & Hn2).
  destruct (load_secondary store_username names s1) as [s2 [[]|e2]];
    cbn [fst] in Hi2, Hp2, Hn2.
  2: { split.
       - intros k p Hp. destruct (Hn2 k p Hp) as [Hold|Hnew].
         + left. by rewrite -Hn1.
         + right. by rewrite Hi2.
       - intros k p Hp. left. by rewrite -Hp1 -Hp2. }
  destruct (items_of "peers_by_phone" record) as [phones|].
  2: { split.
       - intros k p Hp. destruct (Hn2 k p Hp) as [Hold|Hnew].
         + left. by rewrite -Hn1.
         + right. by rewrite Hi2.
       - intros k p Hp. left. by rewrite -Hp1 -Hp2. }
  pose proof (load_phones_alias phones s2) as (Hi3 & Hn3 & Hp3).
  destruct (load_secondary store_phone phones s2) as [s3 r3]; cbn [fst] in *.
  split.
  - intros k p Hp. rewrite Hn3 in Hp. destruct (Hn2 k p Hp) as [Hold|Hnew].
    + left. by rewrite -Hn1.
    + right. by rewrite Hi3 Hi2.
  - intros k p Hp. destruct (Hp3 k p Hp) as [Hold|Hnew].
    + left. by rewrite -Hp1 -Hp2.
    + right. by rewrite Hi3.
Qed.

(** ** What [send] leaves in the directory *)

(** X28: every answer feeds the directory. On a started client, when the
    session answers a query with a response whose users and chats can all
    be stored, [send] returns that response after handing the session the
    one wrapped query, and each entity of the response is from then on
    resolved by its id from the directory, without another query: the
    reference is that of the last entity of the response stored under the
    id, the chats counting after the users. *)
Theorem answered_entities_resolve_offline
    (session_send : list request -> request -> result response)
    (data : request) (r : response) (c : client)
    (pre post : list entity) (e : entity) (k : Z) :
  let c' := fst (send session_send data c) in
  is_started c = true ->
  session_send (requests c) (wrap_query c data) = Ok r ->
  default [] (r_users r) ++ default [] (r_chats r) = pre ++ e :: post ->
  Forall (fun e' => remappable e' = true) (pre ++ e :: post) ->
  stored_key e = Some k ->
  Forall (fun e' => stored_key e' <> Some k) post ->
  snd (send session_send data c) = Ok r
  /\ requests c' = requests c ++ [wrap_query c data]
  /\ resolve_peer session_send (PeerInt k) c' = (c', Ok (cached_peer e)).
Proof.
  intros c' Hs Hr Hl Hok He Hpost.
  assert (send session_send data c
          = (fst (fetch_peers (pre ++ e :: post)
                    (set_requests (requests c ++ [wrap_query c data]) c)), Ok r)) as Hsend.
  { rewrite /send /bind /get /modify /= Hs /= Hr.
    pose proof (fetch_peers_returns _
                  (set_requests (requests c ++ [wrap_query c data]) c) Hok) as Hret.
    rewrite -Hl fetch_peers_app in Hret |- *.
    destruct (fetch_peers (default [] (r_users r)) _) as [c1 [[]|x]]; [|done].
    by destruct (fetch_peers (default [] (r_chats r)) c1) as [c2 [[]|x]]. }
  subst c'. rewrite Hsend. cbn [fst snd]. split; [done|].
  rewrite fetch_peers_writes //. split; [by destruct c|].
  apply resolve_peer_cached. destruct c; cbn.
  by apply written_last.
Qed.

Lemma answered_entities_resolve_offline_witness :
  let r := {| r_users := Some [User 5 (Some 7) None None];
              r_chats := Some [Channel 9 (Some 1) None];
              r_items := None; r_new_messages := None; r_other_updates := None;
              r_is_channel_difference_empty := false |} in
  let c' := fst (send (always r) (GetChats [3]) (started new_client)) in
  snd (send (always r) (GetChats [3]) (started new_client)) = Ok r
  /\ requests c' = requests (started new_client)
                   ++ [wrap_query (started new_client) (GetChats [3])]
  /\ resolve_peer (always r) (PeerInt (-1009)) c'
     = (c', Ok (cached_peer (Channel 9 (Some 1) None))).
Proof.
  intros r.
  apply (answered_entities_resolve_offline (always r) (GetChats [3]) r (started new_client)
           [User 5 (Some 7) None None] [] (Channel 9 (Some 1) None) (-1009)).
  - reflexivity.
  - reflexivity.
  - reflexivity.
  - apply (bool_decide_unpack _). vm_compute. exact I.
  - reflexivity.
  - constructor.
Defined.
